(** * Overflow: house-balance ledger, treasury contract and game store

    A shallow embedding of the parts of the Overflow repository that its
    specification talks about:

    - [Treasury]: the Move module [overflow::treasury] (deposit / withdraw
      on a shared treasury object);
    - [JS]: the JavaScript values the store computes with (binary64
      numbers, [parseFloat], string helpers);
    - [GameSlice]: the Zustand game slice of [lib/store/gameSlice.ts], and
      [PriceFeedStarter]: its [startPriceFeed];
    - [DepositModal]: the validation and the deposit handler of
      [DepositModal.tsx];
    - [SuiClient]: the error messages of [lib/sui/client.ts];
    - [PythPriceFeed], [MockPriceFeed]: the price feeds of
      [lib/utils/priceFeed.ts];
    - [WalletInfo]: the address shown by [WalletInfo.tsx];
    - [Ledger], [Settlement], [BetAdmission], [Serialized]: the off-chain
      ledger and settlement engine, whose stored procedures and API routes
      are not among the sources and are modelled from the specification. *)

From Stdlib Require Import ZArith QArith Lia Lqa Bool List Sorted Ascii String DecimalString SpecFloat.
From stdpp Require Import base option list gmap strings.
Import ListNotations.

(** ** Results of fallible operations *)

(** A small error monad shared by the Move entry functions and the ledger
    operations: [Ok v] or [Err e]. *)
Inductive result (E A : Type) : Type :=
| Ok (v : A)
| Err (e : E).
Arguments Ok {E A} v.
Arguments Err {E A} e.

Definition rbind {E A B} (m : result E A) (k : A -> result E B) : result E B :=
  match m with
  | Ok v => k v
  | Err e => Err e
  end.

Definition require {E} (cond : bool) (e : E) : result E unit :=
  if cond then Ok tt else Err e.

Definition is_ok {E A} (m : result E A) : bool :=
  match m with Ok _ => true | Err _ => false end.

Notation "'let*' x ':=' m 'in' k" := (rbind m (fun x => k))
  (at level 10, x name, m at level 100, k at level 200).
Notation "'ensure' c 'else' e 'in' k" := (rbind (require c e) (fun _ => k))
  (at level 10, c at level 100, e at level 100, k at level 200).

(** ** The treasury contract ([overflow::treasury]) *)

Module Treasury.
Local Open Scope Z_scope.

(** Move's [u64]: arithmetic does not wrap, it aborts the transaction. *)
Definition u64_max : Z := 2 ^ 64 - 1.
Definition is_u64 (n : Z) : Prop := 0 <= n <= u64_max.

(** Why a transaction aborted: an [assert!] of the module with its error
    code, the [ENotEnough] assertion of [sui::balance::split], or a [u64]
    overflow in [sui::balance::join]. *)
Inductive abort : Type :=
| Assert (code : Z)
| BalanceNotEnough
| ArithmeticOverflow.

(** Error when withdrawal amount exceeds available balance *)
Definition EInsufficientBalance : Z := 0.
(** Error when deposit amount is zero *)
Definition EZeroAmount : Z := 1.

Definition address := string.

(** [sui::balance::Balance<T>] *)
Record Balance := mkBalance { value : Z }.

(** [sui::coin::Coin<T>] *)
Record Coin := mkCoin { coin_id : Z; coin_balance : Balance }.

Record Treasury := mkTreasury { id : Z; balance : Balance }.

Record TxContext := mkTxContext {
  sender : address;
  epoch_timestamp_ms : Z;
  ids_created : Z
}.

Inductive Event : Type :=
| DepositEvent (user : address) (amount : Z) (timestamp : Z)
| WithdrawalEvent (user : address) (amount : Z) (timestamp : Z).

(** What a committed transaction leaves behind: the treasury and the
    transaction context as the call left them, the events it emitted and the
    coins it transferred. *)
Record Effects := mkEffects {
  treasury_after : Treasury;
  ctx_after : TxContext;
  events : list Event;
  transfers : list (Coin * address)
}.

(** *** The framework functions the module calls *)

Definition balance_zero : Balance := mkBalance 0.

Definition balance_value (b : Balance) : Z := value b.

(** [balance::join]: [self.value = self.value + value]. *)
Definition balance_join (self b : Balance) : result abort Balance :=
  let sum := value self + value b in
  ensure (sum <=? u64_max) else ArithmeticOverflow in
  Ok (mkBalance sum).

(** [balance::split]: asserts [self.value >= value], returns what is left
    and what was taken. *)
Definition balance_split (self : Balance) (v : Z) : result abort (Balance * Balance) :=
  ensure (v <=? value self) else BalanceNotEnough in
  Ok (mkBalance (value self - v), mkBalance v).

Definition coin_value (c : Coin) : Z := value (coin_balance c).
Definition coin_into_balance (c : Coin) : Balance := coin_balance c.

(** [object::new]: a fresh id, counted in the context. *)
Definition object_new (ctx : TxContext) : Z * TxContext :=
  (ids_created ctx, mkTxContext (sender ctx) (epoch_timestamp_ms ctx) (ids_created ctx + 1)).

(** [coin::from_balance] wraps the balance in a coin with a fresh id. *)
Definition coin_from_balance (b : Balance) (ctx : TxContext) : Coin * TxContext :=
  let '(uid, ctx') := object_new ctx in (mkCoin uid b, ctx').

(** *** Entry functions *)

(** [create_treasury]: the treasury that is shared. *)
Definition create_treasury (ctx : TxContext) : Treasury :=
  mkTreasury (fst (object_new ctx)) balance_zero.

Definition deposit (treasury : Treasury) (payment : Coin) (ctx : TxContext)
  : result abort Effects :=
  let amount := coin_value payment in
  ensure (0 <? amount) else Assert EZeroAmount in
  let* joined := balance_join (balance treasury) (coin_into_balance payment) in
  Ok {| treasury_after := mkTreasury (id treasury) joined;
        ctx_after := ctx;
        events := [DepositEvent (sender ctx) amount (epoch_timestamp_ms ctx)];
        transfers := [] |}.

Definition withdraw (treasury : Treasury) (amount : Z) (ctx : TxContext)
  : result abort Effects :=
  ensure (0 <? amount) else Assert EZeroAmount in
  ensure (amount <=? balance_value (balance treasury)) else Assert EInsufficientBalance in
  let* parts := balance_split (balance treasury) amount in
  let '(withdrawn_coin, ctx') := coin_from_balance (snd parts) ctx in
  Ok {| treasury_after := mkTreasury (id treasury) (fst parts);
        ctx_after := ctx';
        events := [WithdrawalEvent (sender ctx') amount (epoch_timestamp_ms ctx')];
        transfers := [(withdrawn_coin, sender ctx')] |}.

Definition get_balance (treasury : Treasury) : Z := balance_value (balance treasury).

(** *** Transactions *)

(** A call the chain can receive; an aborted transaction leaves the shared
    object as it was. *)
Inductive Call : Type :=
| CallDeposit (payment : Coin) (ctx : TxContext)
| CallWithdraw (amount : Z) (ctx : TxContext).

Definition execute (t : Treasury) (c : Call) : result abort Effects :=
  match c with
  | CallDeposit payment ctx => deposit t payment ctx
  | CallWithdraw amount ctx => withdraw t amount ctx
  end.

Definition commit (t : Treasury) (c : Call) : Treasury :=
  match execute t c with
  | Ok eff => treasury_after eff
  | Err _ => t
  end.

Definition run (t : Treasury) (cs : list Call) : Treasury := fold_left commit cs t.

(** What a sequence of transactions leaves on chain: the shared treasury,
    and the events and the coin transfers of the transactions that
    committed, in order. An aborted transaction leaves none. *)
Record Chain := mkChain {
  shared : Treasury;
  emitted : list Event;
  transferred : list (Coin * address)
}.

Definition submit (c : Chain) (call : Call) : Chain :=
  match execute (shared c) call with
  | Ok eff =>
      mkChain (treasury_after eff) (emitted c ++ events eff) (transferred c ++ transfers eff)
  | Err _ => c
  end.

Definition replay (t : Treasury) (cs : list Call) : Chain :=
  fold_left submit cs (mkChain t [] []).

(** What an event says happened to the held balance. *)
Definition event_delta (e : Event) : Z :=
  match e with
  | DepositEvent _ amount _ => amount
  | WithdrawalEvent _ amount _ => - amount
  end.

Definition net_flow (es : list Event) : Z := fold_right Z.add 0 (map event_delta es).

(** The withdrawals an event list reports: who, and how much. *)
Definition withdrawals (es : list Event) : list (address * Z) :=
  flat_map (fun e => match e with
                     | WithdrawalEvent user amount _ => [(user, amount)]
                     | DepositEvent _ _ _ => []
                     end) es.

(** The coins that left the treasury: to whom, and of what value. *)
Definition paid_out (ts : list (Coin * address)) : list (address * Z) :=
  map (fun x => (snd x, coin_value (fst x))) ts.
End Treasury.

(** ** JavaScript values *)

Module JS.
Local Open Scope Z_scope.

(** *** Numbers

    A JavaScript number is an IEEE 754 binary64 value; [spec_float] at
    precision 53 and maximal exponent 1024 is exactly that, with one NaN. *)
Definition number := spec_float.

Definition prec : Z := 53.
Definition emax : Z := 1024.

Definition NaN : number := S754_nan.
Definition of_Z (z : Z) : number := binary_normalize prec emax z 0 false.

Definition add (x y : number) : number := SFadd prec emax x y.
Definition sub (x y : number) : number := SFsub prec emax x y.
Definition mul (x y : number) : number := SFmul prec emax x y.
Definition div (x y : number) : number := SFdiv prec emax x y.

(** [x <= y], [x < y] and [x === y] on numbers: false when either is NaN. *)
Definition leb (x y : number) : bool := SFleb x y.
Definition ltb (x y : number) : bool := SFltb x y.
Definition eqb (x y : number) : bool := SFeqb x y.

Definition isNaN (x : number) : bool :=
  match x with S754_nan => true | _ => false end.

(** ToBoolean on a number: NaN, +0 and -0 are falsy. *)
Definition truthy (x : number) : bool :=
  match x with
  | S754_nan | S754_zero _ => false
  | _ => true
  end.

(** [x || d] on numbers. *)
Definition or_else (x d : number) : number := if truthy x then x else d.

(** The decimal value [m * 10^e], correctly rounded (to nearest, ties to
    even), with the sign [neg]. *)
Definition of_decimal (neg : bool) (m e : Z) : number :=
  match m with
  | Zpos p =>
      match e with
      | Zneg k => SFdiv prec emax (S754_finite neg p 0) (S754_finite false (10 ^ k)%positive 0)
      | _ => binary_normalize prec emax (if neg then - (m * 10 ^ e) else m * 10 ^ e) 0 false
      end
  | _ => S754_zero neg
  end.

(** *** Strings

    A string is the sequence of its code units, each below 256. *)

(** [s.startsWith(p)] *)
Definition startsWith (s p : string) : bool := String.prefix p s.

(** [s.split(c)] for a one-character separator. *)
Fixpoint split_aux (c : ascii) (s : string) (cur : string) : list string :=
  match s with
  | EmptyString => [String.rev cur]
  | String a rest =>
      if Ascii.eqb a c then String.rev cur :: split_aux c rest EmptyString
      else split_aux c rest (String a cur)
  end.

Definition split (c : ascii) (s : string) : list string := split_aux c s EmptyString.

(** [parts[i]] of a string array; a missing element is [undefined], which
    [parseFloat] reads as the string "undefined" and [||] as falsy. *)
Definition at_index (parts : list string) (i : nat) : option string := nth_error parts i.

(** [x || d] on an optional string: undefined and the empty string are falsy. *)
Definition str_or_else (x : option string) (d : string) : string :=
  match x with
  | Some EmptyString | None => d
  | Some s => s
  end.

(** The decimal digits of a non-negative integer, as [String(n)] prints an
    integral number below 10^21. *)
Definition digits_of_Z (z : Z) : string :=
  match z with
  | Zneg p => String "-" (NilZero.string_of_uint (Pos.to_uint p))
  | _ => NilZero.string_of_uint (N.to_uint (Z.to_N z))
  end.

(** *** parseFloat *)

Definition is_digit (a : ascii) : bool :=
  let n := nat_of_ascii a in (48 <=? n)%nat && (n <=? 57)%nat.

Definition digit_val (a : ascii) : Z := Z.of_nat (nat_of_ascii a) - 48.

(** White space and line terminators among the code units below 256: tab,
    line feed, vertical tab, form feed, carriage return, space and the
    no-break space. *)
Definition is_space (a : ascii) : bool :=
  let n := nat_of_ascii a in
  (n =? 32)%nat || ((9 <=? n)%nat && (n <=? 13)%nat) || (n =? 160)%nat.

Fixpoint trim_start (s : string) : string :=
  match s with
  | String a rest => if is_space a then trim_start rest else s
  | EmptyString => s
  end.

(** The longest run of digits at the start of [s]: its value read after
    [acc], how many digits it has, and the rest of the string. *)
Fixpoint read_digits (s : string) (acc : Z) (count : Z) : Z * Z * string :=
  match s with
  | String a rest =>
      if is_digit a then read_digits rest (10 * acc + digit_val a) (count + 1)
      else (acc, count, s)
  | EmptyString => (acc, count, s)
  end.

Definition read_sign (s : string) : bool * string :=
  match s with
  | String "-" rest => (true, rest)
  | String "+" rest => (false, rest)
  | _ => (false, s)
  end.

(** The exponent part, when one is there: an indicator, an optional sign
    and at least one digit. Otherwise the literal ends before it. *)
Definition read_exponent (s : string) : Z :=
  match s with
  | String a rest =>
      if Ascii.eqb a "e" || Ascii.eqb a "E" then
        let '(neg, digits) := read_sign rest in
        let '(v, n, _) := read_digits digits 0 0 in
        if 0 <? n then (if neg then - v else v) else 0
      else 0
  | EmptyString => 0
  end.

(** [parseFloat(s)]: the longest prefix of the trimmed string that is a
    decimal literal, or NaN when there is none. *)
Definition parseFloat (s : string) : number :=
  let '(neg, body) := read_sign (trim_start s) in
  if startsWith body "Infinity" then S754_infinity neg else
  let '(int_v, int_n, after_int) := read_digits body 0 0 in
  let '(m, frac_n, after_frac) :=
    match after_int with
    | String "." rest => read_digits rest int_v 0
    | _ => (int_v, 0, after_int)
    end in
  if (int_n + frac_n =? 0) then NaN
  else of_decimal neg m (read_exponent after_frac - frac_n).

(** [parseFloat] of an optional array element. *)
Definition parseFloat_opt (s : option string) : number :=
  match s with
  | Some s => parseFloat s
  | None => NaN
  end.

(** *** More of strings and numbers *)

(** [s.includes(sub)] *)
Fixpoint includes (s sub : string) : bool :=
  String.prefix sub s
  || match s with
     | String _ rest => includes rest sub
     | EmptyString => false
     end.

(** The lower-case form of a code unit below 256: the letters A to Z, and
    the accented capitals of Latin-1 (all of 192 to 222 but the
    multiplication sign). *)
Definition lower (a : ascii) : ascii :=
  let n := nat_of_ascii a in
  if ((65 <=? n)%nat && (n <=? 90)%nat)
     || ((192 <=? n)%nat && (n <=? 214)%nat)
     || ((216 <=? n)%nat && (n <=? 222)%nat)
  then ascii_of_nat (n + 32)
  else a.

(** [s.toLowerCase()] *)
Fixpoint toLowerCase (s : string) : string :=
  match s with
  | String a rest => String (lower a) (toLowerCase rest)
  | EmptyString => EmptyString
  end.

(** [s.trim()] *)
Definition trim (s : string) : string :=
  String.rev (trim_start (String.rev (trim_start s))).

(** [Math.max(x, y)] and [Math.min(x, y)]: NaN when either is NaN, and +0
    counts as larger than -0. *)
Definition Math_max (x y : number) : number :=
  match SFcompare x y with
  | None => NaN
  | Some Lt => y
  | Some Gt => x
  | Some Eq =>
      match x, y with
      | S754_zero true, S754_zero false => y
      | _, _ => x
      end
  end.

(** [JSON.stringify(x)] of a number, as the text reads back: a number that
    is not finite is written [null], -0 is written 0, and every other number
    is written so that it reads back as itself. *)
Definition json_number (x : number) : option number :=
  match x with
  | S754_nan | S754_infinity _ => None
  | S754_zero _ => Some (S754_zero false)
  | S754_finite _ _ _ => Some x
  end.

Definition Math_min (x y : number) : number :=
  match SFcompare x y with
  | None => NaN
  | Some Lt => x
  | Some Gt => y
  | Some Eq =>
      match x, y with
      | S754_zero false, S754_zero true => y
      | _, _ => x
      end
  end.
End JS.

(** ** The game slice ([lib/store/gameSlice.ts]) *)

Module GameSlice.
Local Open Scope Z_scope.
Import JS.

Inductive AssetType : Type := BTC | SUI | SOL.

Definition AssetType_eqb (a b : AssetType) : bool :=
  match a, b with
  | BTC, BTC | SUI, SUI | SOL, SOL => true
  | _, _ => false
  end.

Inductive Direction : Type := UP | DOWN.

Definition is_UP (d : Direction) : bool :=
  match d with UP => true | DOWN => false end.

(** [parts[0] as 'UP' | 'DOWN'] *)
Definition direction_of (s : option string) : Direction :=
  match s with
  | Some s => if String.eqb s "UP" then UP else DOWN
  | None => DOWN
  end.

Module TargetCell.
Record t := make {
  id : string;
  label : string;
  multiplier : number;
  priceChange : number;
  direction : Direction
}.
End TargetCell.

Module PricePoint.
Record t := make { timestamp : Z; price : number }.
End PricePoint.

Module ActiveBet.
Record t := make {
  id : string;
  cellId : string;
  amount : number;
  multiplier : number;
  direction : Direction;
  timestamp : Z
}.
End ActiveBet.

(** The object that [JSON.stringify] turns into the body of the POST to
    [/api/balance/bet]. *)
Module BetRequest.
Record cell := make_cell {
  id : Z;
  priceChange : number;
  direction : Direction;
  timeframe : Z
}.
Record t := make {
  userAddress : string;
  betAmount : number;
  roundId : Z;
  targetPrice : number;
  isOver : bool;
  multiplier : number;
  targetCell : cell
}.
End BetRequest.

(** The body of the POST as the server reads it: the text
    [JSON.stringify] writes for the object, in which a number that is not
    finite has become [null]. *)
Module BetBody.
Record cell := make_cell {
  id : Z;
  priceChange : option number;
  direction : Direction;
  timeframe : Z
}.
Record t := make {
  userAddress : string;
  betAmount : option number;
  roundId : Z;
  targetPrice : option number;
  isOver : bool;
  multiplier : option number;
  targetCell : cell
}.
End BetBody.

(** [JSON.stringify({ userAddress, betAmount, roundId, ... })] *)
Definition stringify (r : BetRequest.t) : BetBody.t :=
  BetBody.make (BetRequest.userAddress r) (json_number (BetRequest.betAmount r))
    (BetRequest.roundId r) (json_number (BetRequest.targetPrice r))
    (BetRequest.isOver r) (json_number (BetRequest.multiplier r))
    (BetBody.make_cell (BetRequest.id (BetRequest.targetCell r))
       (json_number (BetRequest.priceChange (BetRequest.targetCell r)))
       (BetRequest.direction (BetRequest.targetCell r))
       (BetRequest.timeframe (BetRequest.targetCell r))).

(** What the POST comes back with: the request fails, the server answers
    with an error body, or it answers with the bet. *)
Inductive FetchResult : Type :=
| NetworkError (message : string)
| HttpError (error : option string)
| HttpOk (betId : string) (remainingBalance : number).

(** What [placeBetFromHouseBalance] resolves to. *)
Module BetPlaced.
Record t := make {
  betId : string;
  remainingBalance : number;
  bet : ActiveBet.t
}.
End BetPlaced.

(** Maximum price history points (5 minutes at 1 second intervals) *)
Definition MAX_PRICE_HISTORY : nat := 300.

Definition one_and_a_half : number := div (of_Z 3) (of_Z 2).

Definition cell (id label : string) (multiplier priceChange : number) (d : Direction) :=
  TargetCell.make id label multiplier priceChange d.

(** Default target cells configuration *)
Definition DEFAULT_TARGET_CELLS : list TargetCell.t :=
  [ cell "1" "+$5 in 30s" one_and_a_half (of_Z 5) UP;
    cell "2" "+$10 in 30s" (of_Z 2) (of_Z 10) UP;
    cell "3" "+$20 in 30s" (of_Z 3) (of_Z 20) UP;
    cell "4" "+$50 in 30s" (of_Z 5) (of_Z 50) UP;
    cell "5" "+$100 in 30s" (of_Z 10) (of_Z 100) UP;
    cell "6" "-$5 in 30s" one_and_a_half (of_Z (-5)) DOWN;
    cell "7" "-$10 in 30s" (of_Z 2) (of_Z (-10)) DOWN;
    cell "8" "-$20 in 30s" (of_Z 3) (of_Z (-20)) DOWN ].

Section Store.
(** [ActiveRound] is declared in [types/game.ts]; the slice only stores
    and clears values of it. *)
Context {ActiveRound : Type}.

Record GameState := mkGameState {
  selectedAsset : AssetType;
  currentPrice : number;
  priceHistory : list PricePoint.t;
  activeRound : option ActiveRound;
  activeBets : list ActiveBet.t;
  targetCells : list TargetCell.t;
  isPlacingBet : bool;
  isSettling : bool;
  error : option string
}.

Definition initial : GameState :=
  {| selectedAsset := BTC;
     currentPrice := of_Z 0;
     priceHistory := [];
     activeRound := None;
     activeBets := [];
     targetCells := DEFAULT_TARGET_CELLS;
     isPlacingBet := false;
     isSettling := false;
     error := None |}.

(** *** Partial updates ([set({...})]) *)

Definition set_placing (placing : bool) (err : option string) (s : GameState) : GameState :=
  {| selectedAsset := selectedAsset s; currentPrice := currentPrice s;
     priceHistory := priceHistory s; activeRound := activeRound s;
     activeBets := activeBets s; targetCells := targetCells s;
     isPlacingBet := placing; isSettling := isSettling s; error := err |}.

Definition set_activeBets (bets : list ActiveBet.t) (s : GameState) : GameState :=
  {| selectedAsset := selectedAsset s; currentPrice := currentPrice s;
     priceHistory := priceHistory s; activeRound := activeRound s;
     activeBets := bets; targetCells := targetCells s;
     isPlacingBet := isPlacingBet s; isSettling := isSettling s; error := error s |}.

Definition set_price (p : number) (history : list PricePoint.t) (s : GameState) : GameState :=
  {| selectedAsset := selectedAsset s; currentPrice := p;
     priceHistory := history; activeRound := activeRound s;
     activeBets := activeBets s; targetCells := targetCells s;
     isPlacingBet := isPlacingBet s; isSettling := isSettling s; error := error s |}.

(** *** Synchronous actions *)

(** Set selected asset for price tracking *)
Definition setSelectedAsset (asset : AssetType) (s : GameState) : GameState :=
  if negb (AssetType_eqb (selectedAsset s) asset) then
    {| selectedAsset := asset;
       currentPrice := of_Z 0;
       priceHistory := [];
       activeRound := None;
       activeBets := [];
       targetCells := targetCells s;
       isPlacingBet := isPlacingBet s; isSettling := isSettling s; error := error s |}
  else s.

(** Update current price and add to history; [now] is [Date.now()]. *)
Definition updatePrice (now : Z) (price : number) (s : GameState) : GameState :=
  let newPoint := PricePoint.make now price in
  let updatedHistory := priceHistory s ++ [newPoint] in
  let fiveMinutesAgo := now - 5 * 60 * 1000 in
  let filteredHistory :=
    List.filter (fun point => fiveMinutesAgo <=? PricePoint.timestamp point) updatedHistory in
  let trimmedHistory :=
    skipn (length filteredHistory - MAX_PRICE_HISTORY)%nat filteredHistory in
  set_price price trimmedHistory s.

Definition setActiveRound (round : option ActiveRound) (s : GameState) : GameState :=
  {| selectedAsset := selectedAsset s; currentPrice := currentPrice s;
     priceHistory := priceHistory s; activeRound := round;
     activeBets := activeBets s; targetCells := targetCells s;
     isPlacingBet := isPlacingBet s; isSettling := isSettling s; error := error s |}.

Definition loadTargetCells (s : GameState) : GameState :=
  {| selectedAsset := selectedAsset s; currentPrice := currentPrice s;
     priceHistory := priceHistory s; activeRound := activeRound s;
     activeBets := activeBets s; targetCells := DEFAULT_TARGET_CELLS;
     isPlacingBet := isPlacingBet s; isSettling := isSettling s; error := error s |}.

(** Add a new active bet (for instant-resolution system) *)
Definition addActiveBet (bet : ActiveBet.t) (s : GameState) : GameState :=
  set_activeBets (activeBets s ++ [bet]) s.

(** Resolve a bet: remove it from the active bets. The outcome and the
    payout are only logged. *)
Definition resolveBet (betId : string) (won : bool) (payout : number) (s : GameState)
  : GameState :=
  set_activeBets
    (List.filter (fun b => negb (String.eqb (ActiveBet.id b) betId)) (activeBets s)) s.

Definition settleRound (betId : string) (s : GameState) : GameState :=
  {| selectedAsset := selectedAsset s; currentPrice := currentPrice s;
     priceHistory := priceHistory s; activeRound := activeRound s;
     activeBets := activeBets s; targetCells := targetCells s;
     isPlacingBet := isPlacingBet s; isSettling := false; error := error s |}.

Definition clearError (s : GameState) : GameState :=
  set_placing (isPlacingBet s) None s.

(** *** Placing a bet *)

(** What an asynchronous action leaves: the store, the request objects it
    serialised and sent to the bet API, and what its promise settles with
    ([Err message] when it rejects with [Error(message)]). *)
Record Outcome (A : Type) := mkOutcome {
  store : GameState;
  requests : list BetRequest.t;
  settled : result string A
}.
Arguments mkOutcome {A} _ _ _.
Arguments store {A} _.
Arguments requests {A} _.
Arguments settled {A} _.

(** The world around one call: the two readings of [Date.now()], the
    answer of the bet API to the request made of an object, and what other
    actions do to the store while the request is awaited. *)
Record World := mkWorld {
  now_first : Z;
  now_second : Z;
  fetch : BetRequest.t -> FetchResult;
  meanwhile : GameState -> GameState
}.

(** The target of a bet, as far as the function reads it: the label and
    the id of a dynamic target are built and never looked at. *)
Record Target := mkTarget {
  target_priceChange : number;
  target_direction : Direction;
  target_multiplier : number
}.

(** Place a bet on a target cell: deprecated, always rejects. *)
Definition placeBet (amount targetId : string) (s : GameState) : Outcome unit :=
  mkOutcome s []
    (Err "placeBet is deprecated after Sui migration. Use placeBetFromHouseBalance instead.").

Definition validate_amount (amount : string) : result string number :=
  let betAmount := parseFloat amount in
  if isNaN betAmount || leb betAmount (of_Z 0) then Err "Invalid bet amount"
  else Ok betAmount.

(** Ensure address starts with 0x *)
Definition format_address (userAddress : string) : string :=
  if startsWith userAddress "0x" then userAddress else "0x" +:+ userAddress.

Definition is_dynamic (targetId : string) : bool :=
  startsWith targetId "UP-" || startsWith targetId "DOWN-".

Definition find_cell (cells : list TargetCell.t) (targetId : string) : option TargetCell.t :=
  List.find (fun cell => String.eqb (TargetCell.id cell) targetId) cells.

Definition resolve_target (cells : list TargetCell.t) (targetId : string)
  : result string Target :=
  if is_dynamic targetId then
    let parts := split "-" targetId in
    let direction := direction_of (at_index parts 0) in
    let multiplier := or_else (parseFloat_opt (at_index parts 1)) one_and_a_half in
    Ok (mkTarget (if is_UP direction then of_Z 10 else of_Z (-10)) direction multiplier)
  else
    match find_cell cells targetId with
    | None => Err "Invalid target cell"
    | Some foundTarget =>
        Ok (mkTarget (TargetCell.priceChange foundTarget)
                     (TargetCell.direction foundTarget)
                     (TargetCell.multiplier foundTarget))
    end.

(** DEMO MODE: Skip API call for demo addresses *)
Definition isDemoMode (formattedAddress : string) : bool :=
  startsWith formattedAddress "0xDEMO".

Definition bet_request (w : World) (s : GameState) (formattedAddress : string)
           (betAmount : number) (target : Target) : BetRequest.t :=
  BetRequest.make formattedAddress betAmount (now_first w) (currentPrice s)
    (is_UP (target_direction target)) (target_multiplier target)
    (BetRequest.make_cell 9 (target_priceChange target) (target_direction target) 30).

(** The [try] block. *)
Definition place_bet_body (w : World) (amount targetId userAddress : string)
           (cellId : option string) (s : GameState) : Outcome BetPlaced.t :=
  match validate_amount amount with
  | Err e => mkOutcome s [] (Err e)
  | Ok betAmount =>
      let formattedAddress := format_address userAddress in
      match resolve_target (targetCells s) targetId with
      | Err e => mkOutcome s [] (Err e)
      | Ok target =>
          let direction := target_direction target in
          let multiplier := target_multiplier target in
          if isDemoMode formattedAddress then
            let s1 := set_placing true None s in
            let fakeBetId := "demo-" +:+ digits_of_Z (now_first w) in
            let activeBet :=
              ActiveBet.make fakeBetId (str_or_else cellId targetId) betAmount
                             multiplier direction (now_second w) in
            let s2 := addActiveBet activeBet s1 in
            let s3 := set_placing false None s2 in
            mkOutcome s3 []
              (Ok (BetPlaced.make fakeBetId (sub (of_Z 1000) betAmount) activeBet))
          else
            let s1 := set_placing true None s in
            let request := bet_request w s formattedAddress betAmount target in
            let s2 := meanwhile w s1 in
            match fetch w request with
            | NetworkError message => mkOutcome s2 [request] (Err message)
            | HttpError err =>
                mkOutcome s2 [request] (Err (str_or_else err "Failed to place bet"))
            | HttpOk betId remaining =>
                let activeBet :=
                  ActiveBet.make betId (str_or_else cellId targetId) betAmount
                                 multiplier direction (now_second w) in
                let s3 := addActiveBet activeBet s2 in
                let s4 := set_placing false None s3 in
                mkOutcome s4 [request] (Ok (BetPlaced.make betId remaining activeBet))
            end
      end
  end.

(** Place a bet using house balance: the [try] block, and the [catch]
    that records the message and rethrows. *)
Definition placeBetFromHouseBalance (w : World) (amount targetId userAddress : string)
           (cellId : option string) (s : GameState) : Outcome BetPlaced.t :=
  let attempt := place_bet_body w amount targetId userAddress cellId s in
  match settled attempt with
  | Ok _ => attempt
  | Err message =>
      mkOutcome (set_placing false (Some message) (store attempt))
                (requests attempt) (Err message)
  end.

(** *** The interface of the slice *)

Inductive Action : Type :=
| SetSelectedAsset (asset : AssetType)
| PlaceBet (amount targetId : string)
| PlaceBetFromHouseBalance (w : World) (amount targetId userAddress : string)
                           (cellId : option string)
| AddActiveBet (bet : ActiveBet.t)
| ResolveBet (betId : string) (won : bool) (payout : number)
| SettleRound (betId : string)
| UpdatePrice (now : Z) (price : number)
| SetActiveRound (round : option ActiveRound)
| LoadTargetCells
| ClearError.

Definition step (s : GameState) (a : Action) : GameState :=
  match a with
  | SetSelectedAsset asset => setSelectedAsset asset s
  | PlaceBet amount targetId => store (placeBet amount targetId s)
  | PlaceBetFromHouseBalance w amount targetId userAddress cellId =>
      store (placeBetFromHouseBalance w amount targetId userAddress cellId s)
  | AddActiveBet bet => addActiveBet bet s
  | ResolveBet betId won payout => resolveBet betId won payout s
  | SettleRound betId => settleRound betId s
  | UpdatePrice now price => updatePrice now price s
  | SetActiveRound round => setActiveRound round s
  | LoadTargetCells => loadTargetCells s
  | ClearError => clearError s
  end.

(** The store after a sequence of [updatePrice] calls, each with the
    clock reading it saw. *)
Definition updatePrices (s : GameState) (calls : list (Z * number)) : GameState :=
  fold_left (fun st c => updatePrice (fst c) (snd c) st) calls s.
End Store.
Arguments GameState : clear implicits.
Arguments World : clear implicits.
Arguments Action : clear implicits.
Arguments Outcome : clear implicits.
Arguments mkOutcome {ActiveRound A} _ _ _.
Arguments store {ActiveRound A} _.
Arguments requests {ActiveRound A} _.
Arguments settled {ActiveRound A} _.
End GameSlice.

(** ** The balance ledger (specification sections 3, 4.1, 4.2 and 6) *)

Module Ledger.
Local Open Scope Z_scope.

Definition address := string.

(** Modelled from the spec: the error taxonomy of section 7, as far as the
    ledger and bet admission raise it (the stored procedures and API
    routes that raise them are not among the sources). *)
Inductive Error : Type :=
| InvalidAmount
| InvalidTarget
| InsufficientFunds
| DuplicateTransaction.

(** Modelled from the spec: [operationType] of an audit entry. *)
Inductive OperationType : Type :=
| deposit | withdrawal | bet_placed | bet_won | bet_lost.

Definition OperationType_eqb (a b : OperationType) : bool :=
  match a, b with
  | deposit, deposit | withdrawal, withdrawal | bet_placed, bet_placed
  | bet_won, bet_won | bet_lost, bet_lost => true
  | _, _ => false
  end.

(** Modelled from the spec: the Account of section 3 (the
    [user_balances] table). A balance is a fixed-point amount with 8
    decimal places, kept as its count of units of 10^-8; the address is
    the key under which the account is stored. *)
Module Account.
Record t := make { balance : Z; updatedAt : Z }.
End Account.

(** Modelled from the spec: the AuditEntry of section 3 (the
    [balance_audit_log] table). *)
Module AuditEntry.
Record t := make {
  id : Z;
  address : string;
  operationType : OperationType;
  amount : Z;
  balanceBefore : Z;
  balanceAfter : Z;
  transactionHash : option string;
  betId : option string;
  createdAt : Z
}.
End AuditEntry.

(** Modelled from the spec: the ledger's storage, an account table keyed
    by address and an append-only audit log, oldest entry first. *)
Record t := make {
  accounts : gmap string Account.t;
  audit : list AuditEntry.t
}.

Definition empty : t := make ∅ [].

(** Modelled from the spec: [getBalance]; an account that does not exist
    yet reads as a zero balance. *)
Definition getBalance (l : t) (addr : address) : Z :=
  match accounts l !! addr with
  | Some a => Account.balance a
  | None => 0
  end.

(** Modelled from the spec: whether an audit entry belongs to this
    operation and transaction hash. *)
Definition matches (op : OperationType) (txHash : string) (e : AuditEntry.t) : bool :=
  OperationType_eqb (AuditEntry.operationType e) op
  && match AuditEntry.transactionHash e with
     | Some h => String.eqb h txHash
     | None => false
     end.

(** Modelled from the spec: whether the log holds an entry with this
    transaction hash and operation. *)
Definition recorded (l : t) (op : OperationType) (txHash : string) : bool :=
  existsb (matches op txHash) (audit l).

(** Modelled from the spec: the audit entries of an operation under a
    transaction hash. *)
Definition entries_for (l : t) (op : OperationType) (txHash : string) : list AuditEntry.t :=
  List.filter (matches op txHash) (audit l).

(** Modelled from the spec: the one write every operation performs, the
    new balance together with exactly one audit entry, whose id is the
    next in the log. [before] is the balance the operation read. *)
Definition commit (l : t) (addr : address) (op : OperationType) (amt before after : Z)
           (txHash betId : option string) (now : Z) : t :=
  make (<[addr := Account.make after now]> (accounts l))
       (audit l ++
          [AuditEntry.make (Z.of_nat (length (audit l)) + 1) addr op amt before after
                           txHash betId now]).

(** Modelled from the spec: the decision and write of [debitForBet] on a
    balance [before] that was read earlier. *)
Definition debit_bet_on (before : Z) (l : t) (addr : address) (amt now : Z)
  : result Error (Z * t) :=
  ensure (0 <? amt) else InvalidAmount in
  ensure (amt <=? before) else InsufficientFunds in
  Ok (before - amt, commit l addr bet_placed amt before (before - amt) None None now).

(** Modelled from the spec: [debitForBet(address, amount)], read and
    write as one indivisible unit. *)
Definition debitForBet (l : t) (addr : address) (amt now : Z) : result Error (Z * t) :=
  debit_bet_on (getBalance l addr) l addr amt now.

(** Modelled from the spec: [creditForPayout(address, amount, betId)]. *)
Definition creditForPayout (l : t) (addr : address) (amt : Z) (betId : string) (now : Z)
  : result Error (Z * t) :=
  let before := getBalance l addr in
  ensure (0 <? amt) else InvalidAmount in
  Ok (before + amt, commit l addr bet_won amt before (before + amt) None (Some betId) now).

(** Modelled from the spec: [creditForDeposit(address, amount, txHash)]. *)
Definition creditForDeposit (l : t) (addr : address) (amt : Z) (txHash : string) (now : Z)
  : result Error (Z * t) :=
  let before := getBalance l addr in
  ensure (negb (recorded l deposit txHash)) else DuplicateTransaction in
  Ok (before + amt, commit l addr deposit amt before (before + amt) (Some txHash) None now).

(** Modelled from the spec: [debitForWithdrawal(address, amount, txHash)]. *)
Definition debitForWithdrawal (l : t) (addr : address) (amt : Z) (txHash : string) (now : Z)
  : result Error (Z * t) :=
  let before := getBalance l addr in
  ensure (negb (recorded l withdrawal txHash)) else DuplicateTransaction in
  ensure (amt <=? before) else InsufficientFunds in
  Ok (before - amt, commit l addr withdrawal amt before (before - amt) (Some txHash) None now).

(** Modelled from the spec: how the command surface answers. A failed
    operation leaves the ledger as it was; a duplicate transaction is
    answered as a success that changed nothing. *)
Definition respond (l : t) (addr : address) (r : result Error (Z * t))
  : result Error Z * t :=
  match r with
  | Ok (newBalance, l') => (Ok newBalance, l')
  | Err DuplicateTransaction => (Ok (getBalance l addr), l)
  | Err e => (Err e, l)
  end.

(** Modelled from the spec: [recordDeposit(address, amount, transactionHash)]. *)
Definition recordDeposit (l : t) (addr : address) (amt : Z) (txHash : string) (now : Z)
  : result Error Z * t :=
  respond l addr (creditForDeposit l addr amt txHash now).

(** Modelled from the spec: [recordWithdrawal(address, amount, transactionHash)]. *)
Definition recordWithdrawal (l : t) (addr : address) (amt : Z) (txHash : string) (now : Z)
  : result Error Z * t :=
  respond l addr (debitForWithdrawal l addr amt txHash now).

(** The ledger an operation leaves: its own on success, the old one when
    it fails. *)
Definition after (l : t) (r : result Error (Z * t)) : t :=
  match r with
  | Ok (_, l') => l'
  | Err _ => l
  end.

(** Modelled from the spec: the type of a chain event. *)
Inductive EventType : Type := Deposit | Withdrawal.

(** Modelled from the spec: a confirmed chain event. Its amount is a
    magnitude, the [u64] of the contract's [DepositEvent] and
    [WithdrawalEvent]; whether it adds to or takes from the balance is told
    by the type. *)

Module ChainEvent.
Record t := make {
  type : EventType;
  address : string;
  amount : N;
  transactionHash : string;
  timestamp : Z
}.
End ChainEvent.

(** Modelled from the spec: the reconciler calls the matching ledger
    operation; an event that was applied before changes nothing. *)
Definition reconcile (l : t) (e : ChainEvent.t) (now : Z) : t :=
  match ChainEvent.type e with
  | Deposit =>
      after l (creditForDeposit l (ChainEvent.address e) (Z.of_N (ChainEvent.amount e))
                                (ChainEvent.transactionHash e) now)
  | Withdrawal =>
      after l (debitForWithdrawal l (ChainEvent.address e) (Z.of_N (ChainEvent.amount e))
                                  (ChainEvent.transactionHash e) now)
  end.

(** Modelled from the spec: the balance-affecting operations a ledger
    sees: deposits and withdrawals confirmed on chain, bet debits and
    payout credits, each at the time it is applied. *)
Inductive Op : Type :=
| Chain (e : ChainEvent.t) (now : Z)
| BetDebit (addr : address) (amt : Z) (now : Z)
| PayoutCredit (addr : address) (amt : Z) (betId : string) (now : Z).

Definition apply (l : t) (op : Op) : t :=
  match op with
  | Chain e now => reconcile l e now
  | BetDebit addr amt now => after l (debitForBet l addr amt now)
  | PayoutCredit addr amt betId now => after l (creditForPayout l addr amt betId now)
  end.

Definition run (l : t) (ops : list Op) : t := fold_left apply ops l.

(** Every account holds a non-negative balance. *)
Definition non_negative (l : t) : Prop :=
  forall addr, 0 <= getBalance l addr.
End Ledger.

(** ** Bets and their settlement (specification sections 3 and 4.4) *)

Module Settlement.
Local Open Scope Q_scope.

(** Modelled from the spec: the direction of a bet. *)
Inductive Direction : Type := UP | DOWN.

(** Modelled from the spec: the status of a bet; Won and Lost are terminal. *)
Inductive Status : Type := Pending | Won | Lost.

(** Modelled from the spec: the Bet of section 3. The stake is an amount
    of the ledger; prices, the price-change target and the multiplier
    are exact decimals. *)
Module Bet.
Record t := make {
  id : Z;
  address : string;
  amount : Z;
  direction : Direction;
  multiplier : Q;
  priceChangeTarget : Q;
  placedAt : Z;
  referencePrice : Q;
  deadline : Z;
  status : Status
}.
End Bet.

(** Modelled from the spec: the round duration, 30 time units. *)
Definition roundDuration : Z := 30.

(** Modelled from the spec: the outcome rule of section 4.4 (the code
    that settles a bet is not among the sources). With
    [delta = endPrice - referencePrice], UP wins iff
    [delta >= priceChangeTarget], DOWN wins iff
    [delta <= priceChangeTarget]. *)
Definition won (b : Bet.t) (endPrice : Q) : bool :=
  let delta := endPrice - Bet.referencePrice b in
  match Bet.direction b with
  | UP => Qle_bool (Bet.priceChangeTarget b) delta
  | DOWN => Qle_bool delta (Bet.priceChangeTarget b)
  end.

Definition outcome (b : Bet.t) (endPrice : Q) : Status :=
  if won b endPrice then Won else Lost.

(** Modelled from the spec: [payout = amount * multiplier] if Won, else 0. *)
Definition payout (b : Bet.t) (s : Status) : Q :=
  match s with
  | Won => inject_Z (Bet.amount b) * Bet.multiplier b
  | _ => 0
  end.

Definition with_status (b : Bet.t) (s : Status) : Bet.t :=
  Bet.make (Bet.id b) (Bet.address b) (Bet.amount b) (Bet.direction b) (Bet.multiplier b)
           (Bet.priceChangeTarget b) (Bet.placedAt b) (Bet.referencePrice b)
           (Bet.deadline b) s.

(** Modelled from the spec: the state machine of a bet. A pending bet
    whose deadline has passed moves to its outcome and yields its payout;
    any other bet is left as it is. *)
Definition settle (b : Bet.t) (endPrice : Q) (now : Z) : Bet.t * Q :=
  match Bet.status b with
  | Pending =>
      if (Bet.deadline b <=? now)%Z then
        let s := outcome b endPrice in (with_status b s, payout b s)
      else (b, 0)
  | _ => (b, 0)
  end.
End Settlement.

(** ** Bet admission (specification section 4.3) *)

Module BetAdmission.
Import Ledger Settlement.
Local Open Scope Z_scope.

(** Modelled from the spec: what the engine persists, the ledger and the
    bet table. *)
Record Engine := mkEngine {
  ledger : Ledger.t;
  bets : list Bet.t
}.

(** Modelled from the spec: the arguments of [placeBet]. *)
Record Request := mkRequest {
  address : string;
  amount : Z;
  direction : Direction;
  multiplier : Q;
  priceChangeTarget : Q;
  referencePrice : Q
}.

(** Modelled from the spec: a pairing is consistent when the target of an
    UP bet is positive and the target of a DOWN bet is negative. *)
Definition consistent (d : Direction) (target : Q) : bool :=
  match d with
  | UP => negb (Qle_bool target 0)
  | DOWN => negb (Qle_bool 0 target)
  end.

Definition valid_target (r : Request) : bool :=
  negb (Qle_bool (multiplier r) 1) && consistent (direction r) (priceChangeTarget r).

(** Modelled from the spec: steps 1 to 4 of [placeBet], deciding on a
    balance [before] that was read earlier (the bet API route is not
    among the sources). *)
Definition place_bet_on (before : Z) (e : Engine) (r : Request) (now : Z)
  : result Error (Bet.t * Engine) :=
  ensure (0 <? amount r) else InvalidAmount in
  ensure (valid_target r) else InvalidTarget in
  let* debited := debit_bet_on before (ledger e) (address r) (amount r) now in
  let bet :=
    Bet.make (Z.of_nat (length (bets e)) + 1) (address r) (amount r) (direction r)
             (multiplier r) (priceChangeTarget r) now (referencePrice r)
             (now + roundDuration) Pending in
  Ok (bet, mkEngine (snd debited) (bets e ++ [bet])).

(** Modelled from the spec: [placeBet], the balance read, the debit and
    the bet record as one atomic unit. *)
Definition placeBet (e : Engine) (r : Request) (now : Z) : result Error (Bet.t * Engine) :=
  place_bet_on (getBalance (ledger e) (address r)) e r now.
End BetAdmission.

(** ** Concurrent bet placement (specification sections 4.1 and 5) *)

Module Serialized.
Import Ledger Settlement BetAdmission.
Local Open Scope Z_scope.

(** Modelled from the spec: two request handlers run [placeBet] at the same
    time (the request handling itself is not among the sources). *)
Inductive Worker : Type := First | Second.

(** Modelled from the spec: where a handler is in its call: not started,
    inside the mutual-exclusion scope of the address, holding the balance it
    read, or returned. *)
Inductive Progress : Type :=
| Waiting
| Entered
| Read (balance : Z)
| Returned (r : result Error Bet.t).

(** Modelled from the spec: the system two concurrent calls share, the
    engine, the holder of each address's mutual-exclusion scope, and the
    progress and request of either handler. *)
Record System := mkSystem {
  engine : Engine;
  holder : gmap string Worker;
  progress_first : Progress;
  progress_second : Progress;
  request_first : Request;
  request_second : Request
}.

Definition progress (s : System) (w : Worker) : Progress :=
  match w with First => progress_first s | Second => progress_second s end.

Definition request (s : System) (w : Worker) : Request :=
  match w with First => request_first s | Second => request_second s end.

Definition update (s : System) (w : Worker) (e : Engine) (h : gmap string Worker)
           (p : Progress) : System :=
  match w with
  | First => mkSystem e h p (progress_second s) (request_first s) (request_second s)
  | Second => mkSystem e h (progress_first s) p (request_first s) (request_second s)
  end.

(** Modelled from the spec: one step of handler [w] at time [now]. It
    enters the scope of its address when nobody holds it and waits
    otherwise; inside, it reads the balance, then decides, writes and
    leaves the scope. *)
Definition step (s : System) (w : Worker) (now : Z) : System :=
  let r := request s w in
  match progress s w with
  | Waiting =>
      match holder s !! address r with
      | Some _ => s
      | None => update s w (engine s) (<[address r := w]> (holder s)) Entered
      end
  | Entered =>
      update s w (engine s) (holder s) (Read (getBalance (ledger (engine s)) (address r)))
  | Read before =>
      match place_bet_on before (engine s) r now with
      | Ok (bet, e') => update s w e' (delete (address r) (holder s)) (Returned (Ok bet))
      | Err err => update s w (engine s) (delete (address r) (holder s)) (Returned (Err err))
      end
  | Returned _ => s
  end.

(** A schedule says which handler moves next, and when. *)
Definition run (s : System) (schedule : list (Worker * Z)) : System :=
  fold_left (fun st x => step st (fst x) (snd x)) schedule s.

Definition start (e : Engine) (r1 r2 : Request) : System :=
  mkSystem e ∅ Waiting Waiting r1 r2.

(** The same handlers without the mutual-exclusion scope: a handler reads
    whenever it is scheduled. *)
Definition step_unserialized (s : System) (w : Worker) (now : Z) : System :=
  let r := request s w in
  match progress s w with
  | Waiting | Entered =>
      update s w (engine s) (holder s) (Read (getBalance (ledger (engine s)) (address r)))
  | Read before =>
      match place_bet_on before (engine s) r now with
      | Ok (bet, e') => update s w e' (holder s) (Returned (Ok bet))
      | Err err => update s w (engine s) (holder s) (Returned (Err err))
      end
  | Returned _ => s
  end.

Definition run_unserialized (s : System) (schedule : list (Worker * Z)) : System :=
  fold_left (fun st x => step_unserialized st (fst x) (snd x)) schedule s.

Definition succeeded (p : Progress) : bool :=
  match p with Returned (Ok _) => true | _ => false end.

Definition insufficient (p : Progress) : bool :=
  match p with Returned (Err InsufficientFunds) => true | _ => false end.

Definition returned (p : Progress) : bool :=
  match p with Returned _ => true | _ => false end.

Definition other (w : Worker) : Worker :=
  match w with First => Second | Second => First end.

(** A handler is inside the scope from entering it until it returns. *)
Definition inside (p : Progress) : bool :=
  match p with Entered | Read _ => true | _ => false end.

(** How many turns a handler still needs when nobody keeps it waiting. *)
Definition turns_left (p : Progress) : nat :=
  match p with Waiting => 3 | Entered => 2 | Read _ => 1 | Returned _ => 0 end.

(** Three turns are enough for a handler that is not kept waiting. *)
Definition turns (w : Worker) (now : Z) : list (Worker * Z) :=
  [(w, now); (w, now); (w, now)].

(** Turns that let both handlers finish, whatever happened before. *)
Definition completion (now : Z) : list (Worker * Z) :=
  turns First now ++ turns Second now ++ turns First now.

(** Both requests are for the address [addr], ask for the amount [full],
    which is positive, and carry a valid target. *)
Definition full_balance_requests (addr : string) (full : Z) (s : System) : Prop :=
  0 < full
  /\ address (request_first s) = addr /\ address (request_second s) = addr
  /\ amount (request_first s) = full /\ amount (request_second s) = full
  /\ valid_target (request_first s) = true /\ valid_target (request_second s) = true.

(** What holds at every point of a run of two calls that each ask for the
    full balance [full] of [addr]: at most one handler is inside the scope,
    a balance that was read is still the balance, and the first handler to
    return has succeeded and left a balance of zero. *)
Definition serial_invariant (addr : string) (full : Z) (s : System) : Prop :=
  let held := getBalance (ledger (engine s)) addr in
  let h := holder s !! addr in
  match progress_first s, progress_second s with
  | Waiting, Waiting => h = None /\ held = full
  | Entered, Waiting => h = Some First /\ held = full
  | Read b, Waiting => h = Some First /\ held = full /\ b = full
  | Waiting, Entered => h = Some Second /\ held = full
  | Waiting, Read b => h = Some Second /\ held = full /\ b = full
  | Returned r, Waiting => h = None /\ held = 0 /\ is_ok r = true
  | Returned r, Entered => h = Some Second /\ held = 0 /\ is_ok r = true
  | Returned r, Read b => h = Some Second /\ held = 0 /\ b = 0 /\ is_ok r = true
  | Waiting, Returned r => h = None /\ held = 0 /\ is_ok r = true
  | Entered, Returned r => h = Some First /\ held = 0 /\ is_ok r = true
  | Read b, Returned r => h = Some First /\ held = 0 /\ b = 0 /\ is_ok r = true
  | Returned r1, Returned r2 =>
      h = None /\ held = 0
      /\ ((is_ok r1 = true /\ r2 = Err InsufficientFunds)
          \/ (r1 = Err InsufficientFunds /\ is_ok r2 = true))
  | _, _ => False
  end.
End Serialized.

(** ** The deposit modal ([DepositModal.tsx]) *)

Module DepositModal.
Import JS.

(** The component's state. *)
Record State := mkState {
  amount : string;
  isLoading : bool;
  error : option string;
  usdcBalance : number
}.

Definition initial : State := mkState "" false None (of_Z 0).

(** Quick select amounts *)
Definition quickAmounts : list Z := [1; 5; 10; 25]%Z.

(** Validate deposit amount: an error message if invalid, null if valid. *)
Definition validateAmount (usdcBalance : number) (value : string) : option string :=
  if String.eqb value "" || String.eqb (trim value) "" then Some "Please enter an amount"
  else
    let numValue := parseFloat value in
    if isNaN numValue then Some "Please enter a valid number"
    else if leb numValue (of_Z 0) then Some "Amount must be greater than zero"
    else if ltb usdcBalance numValue then Some "Insufficient USDC balance"
    else None.

(** What is left of [s] after its leading digits. *)
Fixpoint skip_digits (s : string) : string :=
  match s with
  | String a rest => if is_digit a then skip_digits rest else s
  | EmptyString => s
  end.

(** The test of the regular expression [^\d*\.?\d*$]: digits, at most one
    decimal point, digits, and nothing more. *)
Definition amount_pattern (value : string) : bool :=
  let after_int := skip_digits value in
  let after_point :=
    match after_int with
    | String "." rest => rest
    | _ => after_int
    end in
  String.eqb (skip_digits after_point) "".

(** Handle amount input change: allow empty string, numbers, and decimal
    point. *)
Definition handleAmountChange (value : string) (st : State) : State :=
  if String.eqb value "" || amount_pattern value
  then mkState value (isLoading st) None (usdcBalance st)
  else st.

(** Handle quick select button click. The handler is called with one of
    the quick amounts, an integer, and stores its decimal digits. *)
Definition handleQuickSelect (value : Z) (st : State) : State :=
  mkState (digits_of_Z value) (isLoading st) None (usdcBalance st).

(** The [disabled] attribute of the deposit button. *)
Definition depositDisabled (st : State) : bool :=
  isLoading st
  || String.eqb (amount st) ""
  || leb (parseFloat (str_or_else (Some (amount st)) "0")) (of_Z 0).

(** The [disabled] attribute of a quick select button. *)
Definition quickSelectDisabled (quickAmount : Z) (st : State) : bool :=
  isLoading st || ltb (usdcBalance st) (of_Z quickAmount).

(** What a call that failed threw: an [Error] with its message, or
    another value. *)
Inductive Thrown : Type :=
| ErrorObject (message : string)
| OtherValue.

Section Deposit.
(** [Transaction] is the transaction block of the Sui SDK; the modal only
    passes it from [buildDepositTransaction] to the wallet. *)
Context {Transaction : Type}.

(** What [handleDeposit] does to the world around it, in order. The
    success toast is kept as the two numbers its message prints. *)
Inductive Effect : Type :=
| ToastInfo (message : string)
| ToastSuccess (deposited newBalance : number)
| ToastError (message : string)
| BuildDepositTransaction (amount : number) (address : string)
| SignAndExecuteTransaction (tx : Transaction)
| DepositFunds (address : string) (amount : number) (digest : string)
| OnSuccess (amount : number) (digest : string)
| OnError (message : string)
| OnClose.

(** The world around one call: the wallet address and the house balance of
    the store, the optional callbacks of the properties, and what the
    three awaited calls come back with. *)
Record World := mkWorld {
  address : option string;
  houseBalance : number;
  onSuccess : bool;
  onError : bool;
  buildDepositTransaction : number -> string -> result Thrown Transaction;
  signAndExecuteTransaction : Transaction -> result Thrown string;
  depositFunds : string -> number -> string -> result Thrown unit
}.

Definition set_error (e : option string) (st : State) : State :=
  mkState (amount st) (isLoading st) e (usdcBalance st).

Definition set_loading (loading : bool) (st : State) : State :=
  mkState (amount st) loading (error st) (usdcBalance st).

(** The [catch] and [finally] blocks. *)
Definition failed (w : World) (st : State) (done : list Effect) (err : Thrown)
  : State * list Effect :=
  let errorMessage :=
    match err with
    | ErrorObject message => message
    | OtherValue => "Failed to deposit funds"
    end in
  (set_loading false (set_error (Some errorMessage) st),
   done ++ [ToastError errorMessage] ++ (if onError w then [OnError errorMessage] else [])).

(** Execute deposit transaction. *)
Definition handleDeposit (w : World) (st : State) : State * list Effect :=
  match validateAmount (usdcBalance st) (amount st) with
  | Some validationError => (set_error (Some validationError) st, [])
  | None =>
      match address w with
      | None | Some EmptyString => (set_error (Some "Please connect your wallet") st, [])
      | Some address =>
          let st1 := set_error None (set_loading true st) in
          let depositAmount := parseFloat (amount st) in
          let done1 :=
            [ToastInfo "Please confirm the transaction in your wallet...";
             BuildDepositTransaction depositAmount address] in
          match buildDepositTransaction w depositAmount address with
          | Err err => failed w st1 done1 err
          | Ok tx =>
              let done2 := done1 ++ [SignAndExecuteTransaction tx] in
              match signAndExecuteTransaction w tx with
              | Err err => failed w st1 done2 err
              | Ok digest =>
                  let done3 :=
                    done2
                    ++ [ToastInfo "Transaction submitted. Waiting for confirmation...";
                        DepositFunds address depositAmount digest] in
                  match depositFunds w address depositAmount digest with
                  | Err err => failed w st1 done3 err
                  | Ok _ =>
                      let newBalance := add (houseBalance w) depositAmount in
                      (set_loading false st1,
                       done3
                       ++ [ToastSuccess depositAmount newBalance]
                       ++ (if onSuccess w then [OnSuccess depositAmount digest] else [])
                       ++ [OnClose])
                  end
              end
          end
      end
  end.
End Deposit.
Arguments Effect : clear implicits.
Arguments World : clear implicits.
End DepositModal.

(** ** Transaction errors of the Sui client ([lib/sui/client.ts]) *)

Module SuiClient.
Import JS.

(** The [code] of a thrown value: absent, a number or a string. *)
Inductive Code : Type :=
| NoCode
| NumberCode (n : number)
| StringCode (s : string).

(** A thrown value as [handleTransactionError] reads it: whether it is an
    [Error], its [message] when it has one (a string), and its [code]. *)
Record Thrown := mkThrown {
  instanceofError : bool;
  message : option string;
  code : Code
}.

(** [error?.code === n] and [error?.code === s] *)
Definition code_is_number (error : option Thrown) (n : Z) : bool :=
  match error with
  | Some e => match code e with NumberCode x => eqb x (of_Z n) | _ => false end
  | None => false
  end.

Definition code_is_string (error : option Thrown) (s : string) : bool :=
  match error with
  | Some e => match code e with StringCode x => String.eqb x s | _ => false end
  | None => false
  end.

(** [error?.message?.toLowerCase() || ''] *)
Definition lowered_message (error : option Thrown) : string :=
  match error with
  | Some e =>
      match message e with
      | Some m => str_or_else (Some (toLowerCase m)) ""
      | None => ""
      end
  | None => ""
  end.

(** The text of [error.message] inside a template string. *)
Definition message_text (e : Thrown) : string :=
  match message e with
  | Some m => m
  | None => "undefined"
  end.

(** Handle transaction errors and convert to user-friendly messages: the
    message of the [Error] that is returned. *)
Definition handleTransactionError (error : option Thrown) : string :=
  let errorMessage := lowered_message error in
  (* User rejection *)
  if includes errorMessage "rejected"
     || includes errorMessage "denied"
     || includes errorMessage "cancelled"
     || includes errorMessage "user rejected"
     || code_is_number error 4001
     || code_is_string error "USER_REJECTED"
  then "Transaction was cancelled by user."
  (* Insufficient gas (SUI) *)
  else if includes errorMessage "insufficient gas"
          || includes errorMessage "insufficient sui"
          || includes errorMessage "gas budget"
          || includes errorMessage "not enough gas"
  then "Insufficient SUI for gas fees. Please add SUI to your wallet."
  (* Insufficient USDC balance *)
  else if includes errorMessage "insufficient balance"
          || includes errorMessage "insufficient funds"
          || includes errorMessage "insufficient coin"
          || includes errorMessage "not enough balance"
  then "Insufficient USDC balance for this transaction."
  (* Network timeout *)
  else if includes errorMessage "timeout"
          || includes errorMessage "timed out"
          || includes errorMessage "network"
          || code_is_string error "NETWORK_ERROR"
          || code_is_string error "TIMEOUT"
  then "Transaction timed out. Please check your network connection and try again."
  (* Contract execution failure *)
  else if includes errorMessage "execution failed"
          || includes errorMessage "move abort"
          || includes errorMessage "assertion failed"
  then "Transaction failed during execution. Please try again or contact support."
  (* Generic error *)
  else
    match error with
    | Some e =>
        if instanceofError e then "Transaction failed: " +:+ message_text e
        else "Transaction failed. Please try again."
    | None => "Transaction failed. Please try again."
    end.
End SuiClient.

(** ** The mock price feed ([lib/utils/priceFeed.ts]) *)

Module MockPriceFeed.
Import JS.

(** Default base prices for different assets *)
Definition defaultPrices (asset : GameSlice.AssetType) : number :=
  match asset with
  | GameSlice.BTC => of_Z 50000
  | GameSlice.SUI => div (of_Z 5) (of_Z 2)
  | GameSlice.SOL => of_Z 100
  end.

Record t := make {
  basePrice : number;
  volatility : number;
  trend : number;
  intervalId : bool;
  asset : GameSlice.AssetType
}.

Definition from_option {A : Type} (x : option A) (d : A) : A :=
  match x with Some v => v | None => d end.

(** The constructor, with its default arguments: ['BTC'], no base price,
    a volatility of 0.001 and no trend. *)
Definition new (asset : option GameSlice.AssetType) (basePrice volatility trend : option number)
  : t :=
  let asset := from_option asset GameSlice.BTC in
  make (or_else (from_option basePrice NaN) (defaultPrices asset))
       (from_option volatility (of_decimal false 1 (-3)))
       (from_option trend (of_Z 0))
       false asset.

Definition setAsset (a : GameSlice.AssetType) (feed : t) : t :=
  make (defaultPrices a) (volatility feed) (trend feed) (intervalId feed) a.

Definition one_half : number := div (of_Z 1) (of_Z 2).

(** What [Math.random()] returned to one run of [generateNextPrice]: the
    draw for the change, the draw that decides whether there is a spike,
    and the draw for the spike, which is made only when there is one. *)
Record Draws := mkDraws { for_change : number; for_spike_test : number; for_spike : number }.

Definition generateNextPrice (feed : t) (currentPrice : number) (r : Draws) : number :=
  let randomChange := mul (sub (for_change r) one_half) (of_Z 2) in
  let change := add (mul (mul currentPrice (volatility feed)) randomChange) (trend feed) in
  if ltb (for_spike_test r) (of_decimal false 5 (-2)) then
    let spike := mul (mul currentPrice (sub (for_spike r) one_half)) (of_decimal false 1 (-2)) in
    add (add currentPrice change) spike
  else add currentPrice change.

(** One run of the interval's callback: the price it passes on. *)
Definition tick (feed : t) (currentPrice : number) (r : Draws) : number :=
  Math_max (of_Z 10000) (Math_min (of_Z 100000) (generateNextPrice feed currentPrice r)).

Fixpoint ticks (feed : t) (currentPrice : number) (draws : list Draws) : list number :=
  match draws with
  | r :: rest => let p := tick feed currentPrice r in p :: ticks feed p rest
  | [] => []
  end.

(** [start(callback)], and the interval running once for each element of
    [draws]: the feed, and the prices the callback is called with. *)
Definition start (feed : t) (draws : list Draws) : t * list number :=
  if intervalId feed then (feed, [])
  else
    (make (basePrice feed) (volatility feed) (trend feed) true (asset feed),
     basePrice feed :: ticks feed (basePrice feed) draws).

Definition stop (feed : t) : t :=
  make (basePrice feed) (volatility feed) (trend feed) false (asset feed).
End MockPriceFeed.

(** ** The wallet panel ([WalletInfo.tsx]) *)

Module WalletInfo.

(** [addr.slice(0, n)] and [addr.slice(-n)] *)
Definition slice_first (n : nat) (addr : string) : string := String.substring 0 n addr.

Definition slice_last (n : nat) (addr : string) : string :=
  String.substring (String.length addr - n) n addr.

(** Format address to show first 6 and last 4 characters *)
Definition formatAddress (addr : string) : string :=
  if (String.length addr <=? 10)%nat then addr
  else slice_first 6 addr +:+ "..." +:+ slice_last 4 addr.
End WalletInfo.

(** ** The Pyth price feed ([lib/utils/priceFeed.ts]) *)

Module PythPriceFeed.
Import JS.

(** The price of a parsed price update, as Hermes sends it. *)
Record RawPrice := mkRawPrice {
  raw_price : string;
  raw_conf : string;
  raw_expo : number;
  raw_publish_time : number
}.

Record PriceData := mkPriceData {
  price : number;
  confidence : number;
  timestamp : number;
  expo : number
}.

Record t := make {
  intervalId : bool;
  lastPrice : option number;
  isRunning : bool;
  asset : GameSlice.AssetType
}.

(** The constructor. *)
Definition new (asset : GameSlice.AssetType) : t := make false None false asset.

(** Change the asset being tracked: reset last price when changing asset. *)
Definition setAsset (a : GameSlice.AssetType) (feed : t) : t :=
  make (intervalId feed) None (isRunning feed) a.

Definition getAsset (feed : t) : GameSlice.AssetType := asset feed.
Definition getLastPrice (feed : t) : option number := lastPrice feed.

Section Fetch.
(** What the Hermes client rejects with is passed on untouched. The
    conversion [Number(s)] of the price strings and [Math.pow(10, expo)],
    whose result the language leaves to the implementation, are taken as
    they come. *)
Context {ClientError : Type}.
Variable Number : string -> number.
Variable pow10 : number -> number.

(** What [getLatestPriceUpdates] settles with: it rejects, or it resolves
    with the updates, which can be missing, lack the parsed list, or hold a
    list of parsed prices. *)
Inductive Response : Type :=
| Rejected (error : ClientError)
| Resolved (priceFeeds : option (option (list RawPrice))).

(** What [fetchPrice] throws: the client's error, or its own "No price data
    received from Pyth Network". *)
Inductive Failure : Type :=
| FromClient (error : ClientError)
| NoPriceData.

(** The [try] block up to the first parsed price. *)
Definition first_price (response : Response) : result Failure RawPrice :=
  match response with
  | Rejected error => Err (FromClient error)
  | Resolved None | Resolved (Some None) | Resolved (Some (Some [])) => Err NoPriceData
  | Resolved (Some (Some (priceFeed :: _))) => Ok priceFeed
  end.

(** Fetch current price from Pyth Network; [now] is [Date.now()]. *)
Definition fetchPrice (now : Z) (response : Response) (feed : t)
  : t * result Failure PriceData :=
  match first_price response with
  | Ok priceData =>
      let price := mul (Number (raw_price priceData)) (pow10 (raw_expo priceData)) in
      let confidence := mul (Number (raw_conf priceData)) (pow10 (raw_expo priceData)) in
      (make (intervalId feed) (Some price) (isRunning feed) (asset feed),
       Ok (mkPriceData price confidence (raw_publish_time priceData) (raw_expo priceData)))
  | Err error =>
      match lastPrice feed with
      | Some last =>
          (feed, Ok (mkPriceData last (of_Z 0) (div (of_Z now) (of_Z 1000)) (of_Z (-8))))
      | None => (feed, Err error)
      end
  end.

(** *** Starting and stopping

    [start] is asynchronous: it sets [isRunning], awaits its first
    [fetchPrice], and only then installs the interval. What happens between
    the two halves is up to the caller. *)

(** The feed with what surrounds it: how many [start] calls are waiting for
    their first price, how many timers are installed, how many fetches made
    by a timer are still awaited, and the prices the callback was called
    with, latest first. *)
Record Running := mkRunning {
  feed : t;
  starting : nat;
  timers : nat;
  in_flight : nat;
  delivered : list number
}.

Inductive Event : Type :=
| CallStart
| FirstPrice (now : Z) (response : Response)
| TimerFires
| TimerPrice (now : Z) (response : Response)
| CallStop
| CallSetAsset (a : GameSlice.AssetType).

(** The end of an awaited [fetchPrice], followed by the callback when it
    succeeded; a failure is logged and dropped. *)
Definition fetch_and_call (now : Z) (response : Response) (r : Running) : Running :=
  let '(feed', outcome) := fetchPrice now response (feed r) in
  mkRunning feed' (starting r) (timers r) (in_flight r)
            match outcome with
            | Ok data => price data :: delivered r
            | Err _ => delivered r
            end.

Definition step (r : Running) (e : Event) : Running :=
  match e with
  | CallStart =>
      if isRunning (feed r) then r
      else
        mkRunning (make (intervalId (feed r)) (lastPrice (feed r)) true (asset (feed r)))
                  (S (starting r)) (timers r) (in_flight r) (delivered r)
  | FirstPrice now response =>
      match starting r with
      | O => r
      | S waiting =>
          let r' := fetch_and_call now response r in
          mkRunning (make true (lastPrice (feed r')) (isRunning (feed r')) (asset (feed r')))
                    waiting (S (timers r')) (in_flight r') (delivered r')
      end
  | TimerFires =>
      match timers r with
      | O => r
      | S _ => mkRunning (feed r) (starting r) (timers r) (S (in_flight r)) (delivered r)
      end
  | TimerPrice now response =>
      match in_flight r with
      | O => r
      | S awaited =>
          let r' := fetch_and_call now response r in
          mkRunning (feed r') (starting r') (timers r') awaited (delivered r')
      end
  | CallStop =>
      mkRunning (make false (lastPrice (feed r)) false (asset (feed r)))
                (starting r)
                (if intervalId (feed r) then pred (timers r) else timers r)
                (in_flight r) (delivered r)
  | CallSetAsset a =>
      mkRunning (setAsset a (feed r)) (starting r) (timers r) (in_flight r) (delivered r)
  end.

Definition run (r : Running) (events : list Event) : Running := fold_left step events r.

(** *** Calls made one after the other *)

Inductive Call : Type :=
| CallFetchPrice (now : Z) (response : Response)
| CallSetAssetTo (a : GameSlice.AssetType).

Definition call (f : t) (c : Call) : t :=
  match c with
  | CallFetchPrice now response => fst (fetchPrice now response f)
  | CallSetAssetTo a => setAsset a f
  end.

Definition calls (f : t) (cs : list Call) : t := fold_left call cs f.

Definition idle (f : t) : Running := mkRunning f 0 0 0 [].
End Fetch.
Arguments Response : clear implicits.
Arguments Failure : clear implicits.
Arguments Event : clear implicits.
Arguments Call : clear implicits.
End PythPriceFeed.

(** ** Starting and stopping the price feed ([startPriceFeed] of
    [lib/store/gameSlice.ts]) *)

Module PriceFeedStarter.
Import JS.

(** The feed a call ends up running: the Pyth feed, or the mock feed it
    falls back to. *)
Inductive Source : Type := Pyth | Mock.

(** The variables one call of [startPriceFeed] closes over: its asset,
    [isActive], and [stopFeedFn], which is null or stops the feed that was
    started. *)
Record Handle := mkHandle {
  asset : GameSlice.AssetType;
  isActive : bool;
  stopFeedFn : option Source
}.

(** The page: the calls made so far, each with its variables, the call
    whose [stop] closure [window.__currentPriceFeed] holds, the feeds that
    were started and those whose stop function was called, and the calls
    of [updatePrice], each with the call it came from. *)
Record Page := mkPage {
  handles : list Handle;
  current : option nat;
  started : list (nat * Source);
  stopped : list nat;
  updates : list (nat * number)
}.

Definition empty : Page := mkPage [] None [] [] [].

(** [isActive = false; if (stopFeedFn) { stopFeedFn(); stopFeedFn = null; }]:
    the body of the [stop] closure and the first lines of the cleanup. *)
Definition deactivate (h : nat) (page : Page) : Page :=
  match handles page !! h with
  | None => page
  | Some handle =>
      mkPage (<[h := mkHandle (asset handle) false None]> (handles page))
             (current page) (started page)
             (match stopFeedFn handle with
              | Some _ => stopped page ++ [h]
              | None => stopped page
              end)
             (updates page)
  end.

Inductive Event : Type :=
| Start (a : GameSlice.AssetType)
| Imported (h : nat) (source : Source)
| Price (h : nat) (price : number)
| Cleanup (h : nat).

Definition AssetType_matches (page : Page) (c h : nat) : bool :=
  match handles page !! c, handles page !! h with
  | Some referenced, Some own => GameSlice.AssetType_eqb (asset referenced) (asset own)
  | _, _ => false
  end.

Definition step (page : Page) (e : Event) : Page :=
  match e with
  | Start a =>
      (* Clean up any existing feed first *)
      let page1 :=
        match current page with
        | Some c => deactivate c page
        | None => page
        end in
      (* Store reference for cleanup *)
      mkPage (handles page1 ++ [mkHandle a true None])
             (Some (length (handles page1)))
             (started page1) (stopped page1) (updates page1)
  | Imported h source =>
      (* Don't start if already cleaned up *)
      match handles page !! h with
      | Some handle =>
          if isActive handle then
            mkPage (<[h := mkHandle (asset handle) true (Some source)]> (handles page))
                   (current page) (started page ++ [(h, source)]) (stopped page)
                   (updates page)
          else page
      | None => page
      end
  | Price h price =>
      (* Only update if still active *)
      match handles page !! h with
      | Some handle =>
          if isActive handle then
            mkPage (handles page) (current page) (started page) (stopped page)
                   (updates page ++ [(h, price)])
          else page
      | None => page
      end
  | Cleanup h =>
      let page1 := deactivate h page in
      (* Clear global reference if it's ours *)
      match current page1 with
      | Some c =>
          if AssetType_matches page1 c h
          then mkPage (handles page1) None (started page1) (stopped page1) (updates page1)
          else page1
      | None => page1
      end
  end.

Definition run (page : Page) (events : list Event) : Page := fold_left step events page.

(** The prices that reached [updatePrice] from the call [h]. *)
Definition updates_from (h : nat) (page : Page) : list number :=
  map snd (List.filter (fun u => Nat.eqb (fst u) h) (updates page)).

(** The feeds that were started for the call [h]. *)
Definition started_for (h : nat) (page : Page) : list Source :=
  map snd (List.filter (fun u => Nat.eqb (fst u) h) (started page)).

Definition active (h : nat) (page : Page) : bool :=
  match handles page !! h with
  | Some handle => isActive handle
  | None => false
  end.
End PriceFeedStarter.

(** * Statements and scenarios *)

(** The fields of the store that [set({isPlacingBet, error})] leaves alone. *)
Definition same_game {ActiveRound : Type} (s s' : GameSlice.GameState ActiveRound) : Prop :=
  GameSlice.selectedAsset s' = GameSlice.selectedAsset s
  /\ GameSlice.currentPrice s' = GameSlice.currentPrice s
  /\ GameSlice.priceHistory s' = GameSlice.priceHistory s
  /\ GameSlice.activeRound s' = GameSlice.activeRound s
  /\ GameSlice.activeBets s' = GameSlice.activeBets s
  /\ GameSlice.targetCells s' = GameSlice.targetCells s
  /\ GameSlice.isSettling s' = GameSlice.isSettling s.

(** The claim C4 as it is written, read on the contract's [withdraw] ... *)
Definition withdrawal_dichotomy_on_chain : Prop :=
  forall (t : Treasury.Treasury) (amount : Z) (ctx : Treasury.TxContext),
    (0 <= amount)%Z -> (0 <= Treasury.get_balance t)%Z ->
    ((Treasury.get_balance t < amount)%Z ->
     Treasury.withdraw t amount ctx = Err (Treasury.Assert Treasury.EInsufficientBalance)
     /\ Treasury.commit t (Treasury.CallWithdraw amount ctx) = t)
    /\ ((amount <= Treasury.get_balance t)%Z ->
        exists eff, Treasury.withdraw t amount ctx = Ok eff
                    /\ Treasury.get_balance (Treasury.treasury_after eff)
                       = (Treasury.get_balance t - amount)%Z).

(** ... and on the ledger's [debitForWithdrawal]. *)
Definition withdrawal_dichotomy_off_chain : Prop :=
  forall (l : Ledger.t) (addr : string) (amt : Z) (tx : string) (now : Z),
    Ledger.non_negative l ->
    ((Ledger.getBalance l addr < amt)%Z ->
     Ledger.debitForWithdrawal l addr amt tx now = Err Ledger.InsufficientFunds)
    /\ ((amt <= Ledger.getBalance l addr)%Z ->
        exists l', Ledger.debitForWithdrawal l addr amt tx now
                   = Ok ((Ledger.getBalance l addr - amt)%Z, l')
                   /\ Ledger.getBalance l' addr = (Ledger.getBalance l addr - amt)%Z).

(** A treasury holding 5 units, and a ledger on which "alice" deposited 100
    (transaction 0xA) and withdrew 50 (transaction 0xB). *)
Definition treasury_of_five : Treasury.Treasury :=
  Treasury.mkTreasury 1 (Treasury.mkBalance 5).

Definition alice_ctx : Treasury.TxContext := Treasury.mkTxContext "0xa11ce" 1700000000000 2.

Definition ledger_after_0xB : Ledger.t :=
  Ledger.run Ledger.empty
    [ Ledger.Chain (Ledger.ChainEvent.make Ledger.Deposit "alice" 100 "0xA" 1) 1%Z;
      Ledger.Chain (Ledger.ChainEvent.make Ledger.Withdrawal "alice" 50 "0xB" 2) 2%Z ].

(** Two worlds for the examples: one in which the bet API cannot be
    reached, one in which it accepts every bet. *)
Definition offline_world : GameSlice.World unit :=
  GameSlice.mkWorld 1737748395000%Z 1737748395002%Z
    (fun _ => GameSlice.NetworkError "Failed to fetch") (fun s => s).

Definition accepting_world : GameSlice.World unit :=
  GameSlice.mkWorld 1737748395000%Z 1737748395250%Z
    (fun _ => GameSlice.HttpOk "bet-42" (JS.of_Z 90)) (fun s => s).

Definition fresh_store : GameSlice.GameState unit := GameSlice.initial.

(** What the actions that overlap the request of a bet placement did to an
    active bet is accounted to them, not to the placement. *)
Definition kept_during_request {ActiveRound : Type} (s : GameSlice.GameState ActiveRound)
           (a : GameSlice.Action ActiveRound) (b : GameSlice.ActiveBet.t) : Prop :=
  match a with
  | GameSlice.PlaceBetFromHouseBalance w _ _ _ _ =>
      In b (GameSlice.activeBets (GameSlice.meanwhile w (GameSlice.set_placing true None s)))
  | _ => True
  end.

Definition btc_bet : GameSlice.ActiveBet.t :=
  GameSlice.ActiveBet.make "bet-42" "cell-1737748395000-3" (JS.of_Z 10) (JS.of_Z 2)
                           GameSlice.UP 1737748395250%Z.

Definition store_with_bet : GameSlice.GameState unit :=
  GameSlice.addActiveBet btc_bet fresh_store.

(** A point lies within the five minutes that end at [now]. *)
Definition within_window (now : Z) (point : GameSlice.PricePoint.t) : Prop :=
  (now - 300000 <= GameSlice.PricePoint.timestamp point <= now)%Z.

(** What holds of the store right after [updatePrice(p)] read the clock at
    [now]. *)
Definition price_invariant {ActiveRound : Type} (now : Z) (p : JS.number)
           (s : GameSlice.GameState ActiveRound) : Prop :=
  GameSlice.currentPrice s = p
  /\ (length (GameSlice.priceHistory s) <= GameSlice.MAX_PRICE_HISTORY)%nat
  /\ Forall (within_window now) (GameSlice.priceHistory s)
  /\ last (GameSlice.priceHistory s) = Some (GameSlice.PricePoint.make now p).

(** No point of the history was stamped after [now]. *)
Definition not_after {ActiveRound : Type} (now : Z) (s : GameSlice.GameState ActiveRound)
  : Prop :=
  Forall (fun point => (GameSlice.PricePoint.timestamp point <= now)%Z)
         (GameSlice.priceHistory s).

(** The clock does not run backwards: the readings of successive calls do
    not decrease, and none of them is before a point already stored. *)
Definition clock_monotone {ActiveRound : Type} (s : GameSlice.GameState ActiveRound)
           (readings : list Z) : Prop :=
  StronglySorted Z.le readings /\ Forall (fun now => not_after now s) readings.

(** A ledger on which "alice" holds 100, and two requests that each stake
    all of it. *)
Definition engine_of_alice : BetAdmission.Engine :=
  BetAdmission.mkEngine
    (Ledger.run Ledger.empty
       [Ledger.Chain (Ledger.ChainEvent.make Ledger.Deposit "alice" 100 "0xA" 1) 1%Z])
    [].

Definition all_in_up : BetAdmission.Request :=
  BetAdmission.mkRequest "alice" 100 Settlement.UP 2 5 50000.

Definition all_in_down : BetAdmission.Request :=
  BetAdmission.mkRequest "alice" 100 Settlement.DOWN (3 # 2) (-5) 50000.

Definition interleaved : list (Serialized.Worker * Z) :=
  [ (Serialized.First, 10%Z); (Serialized.Second, 11%Z); (Serialized.First, 12%Z);
    (Serialized.Second, 13%Z); (Serialized.Second, 14%Z); (Serialized.First, 15%Z) ].

(** The test [updatePrice] filters the history with: the point is at most
    five minutes older than [now]. *)
Definition recent (now : Z) (point : GameSlice.PricePoint.t) : bool :=
  (now - 5 * 60 * 1000 <=? GameSlice.PricePoint.timestamp point)%Z.

(** The end-to-end scenario of the specification: alice deposits 100 under
    0xA, stakes 10 on UP by +5 at 50000 with multiplier 2, and the bet is
    settled at its deadline at 50006. *)
Definition scenario_deposited : BetAdmission.Engine :=
  BetAdmission.mkEngine (snd (Ledger.recordDeposit Ledger.empty "alice" 100 "0xA" 1)) [].

Definition scenario_request : BetAdmission.Request :=
  BetAdmission.mkRequest "alice" 10 Settlement.UP 2 5 50000.

(** No transaction hash is recorded twice as a deposit. *)
Definition deposited_at_most_once (l : Ledger.t) : Prop :=
  forall tx, (length (Ledger.entries_for l Ledger.deposit tx) <= 1)%nat.

(** The sign of a number: set for the negative numbers and for -0. *)
Definition sign_bit (x : JS.number) : bool :=
  match x with
  | S754_zero s | S754_infinity s | S754_finite s _ _ => s
  | S754_nan => false
  end.

(** The points of a price history are in the order of their time stamps. *)
Definition chronological (history : list GameSlice.PricePoint.t) : Prop :=
  StronglySorted
    (fun p q => (GameSlice.PricePoint.timestamp p <= GameSlice.PricePoint.timestamp q)%Z)
    history.

(** A world in which the bet API refuses the bet, and another bet is added
    to the store while the request is awaited. *)
Definition busy_world : GameSlice.World unit :=
  GameSlice.mkWorld 1737748395000%Z 1737748395250%Z
    (fun _ => GameSlice.HttpError (Some "Insufficient balance"))
    (GameSlice.addActiveBet btc_bet).

(** The claim on the price history as it is stated, for every sequence of
    calls and whatever the clock read at each. *)
Definition price_window_claim : Prop :=
  forall (earlier : list (Z * JS.number)) (now : Z) (p : JS.number),
    price_invariant now p (GameSlice.updatePrices fresh_store (earlier ++ [(now, p)])).

(** No code unit of the string is [c]. *)
Fixpoint avoids (c : ascii) (s : string) : bool :=
  match s with
  | String a rest => negb (Ascii.eqb a c) && avoids c rest
  | EmptyString => true
  end.

(** A wallet and a ledger that accept everything, for the examples of the
    deposit modal. *)
Definition willing_wallet : DepositModal.World nat :=
  DepositModal.mkWorld (Some "0xa11ce") (JS.of_Z 40) true true
    (fun _ _ => Ok 7%nat) (fun _ => Ok "digest-1") (fun _ _ _ => Ok tt).

Definition modal_with (amount : string) (usdcBalance : Z) : DepositModal.State :=
  DepositModal.mkState amount false None (JS.of_Z usdcBalance).

(** How a call of [handleDeposit] that began in [st] may end: in the
    state [st'], having done [effects]. *)
Definition deposit_outcome {Transaction : Type} (w : DepositModal.World Transaction)
           (st st' : DepositModal.State) (effects : list (DepositModal.Effect Transaction))
  : Prop :=
  let amount := JS.parseFloat (DepositModal.amount st) in
  DepositModal.amount st' = DepositModal.amount st
  /\ DepositModal.usdcBalance st' = DepositModal.usdcBalance st
  /\ (DepositModal.isLoading st = false -> DepositModal.isLoading st' = false)
  /\ (In DepositModal.OnClose effects <-> DepositModal.error st' = None)
  /\ (In DepositModal.OnClose effects ->
      In (DepositModal.ToastSuccess amount (JS.add (DepositModal.houseBalance w) amount))
         effects
      /\ exists address digest,
          In (DepositModal.DepositFunds address amount digest) effects
          /\ DepositModal.depositFunds w address amount digest = Ok tt)
  /\ (forall message,
         DepositModal.error st' = Some message ->
         effects = [] \/ In (DepositModal.ToastError message) effects).

(** A mock price is within the bounds the feed clamps to, unless it is not
    a number. *)
Definition clamped (p : JS.number) : Prop :=
  JS.isNaN p = true \/ (JS.leb (JS.of_Z 10000) p = true /\ JS.leb p (JS.of_Z 100000) = true).

(** The thrown value of a wallet that refused to sign. *)
Definition wallet_refusal : SuiClient.Thrown :=
  SuiClient.mkThrown true (Some "Insufficient gas: User Rejected the request")
                     SuiClient.NoCode.

(** The thrown value tells of a refusal by the user: its message contains
    "rejected", "denied" or "cancelled", written in any mix of capitals and
    small letters, or its code is 4001 or "USER_REJECTED". *)
Definition is_refusal (e : SuiClient.Thrown) : Prop :=
  (exists m word written,
      SuiClient.message e = Some m
      /\ In word ["rejected"; "denied"; "cancelled"]
      /\ JS.toLowerCase written = word
      /\ JS.includes m written = true)
  \/ SuiClient.code e = SuiClient.NumberCode (JS.of_Z 4001)
  \/ SuiClient.code e = SuiClient.StringCode "USER_REJECTED".

(** The price a response yields when it holds one. *)
Definition fresh_price {ClientError : Type} (Number : string -> JS.number)
           (pow10 : JS.number -> JS.number) (response : PythPriceFeed.Response ClientError)
  : option JS.number :=
  match PythPriceFeed.first_price response with
  | Ok raw =>
      Some (JS.mul (Number (PythPriceFeed.raw_price raw))
                   (pow10 (PythPriceFeed.raw_expo raw)))
  | Err _ => None
  end.

(** A call of [fetchPrice] that got no price. *)
Definition fetch_failed {ClientError : Type} (c : PythPriceFeed.Call ClientError) : Prop :=
  match c with
  | PythPriceFeed.CallFetchPrice _ response =>
      is_ok (PythPriceFeed.first_price response) = false
  | PythPriceFeed.CallSetAssetTo _ => False
  end.

(** Where the last price of a feed comes from after the calls [cs]: from
    the latest call that got a price, when no call after it set the asset;
    from nowhere, when no call got a price since the feed was made or its
    asset was set. *)
Definition last_price_source {ClientError : Type} (Number : string -> JS.number)
           (pow10 : JS.number -> JS.number) (cs : list (PythPriceFeed.Call ClientError))
           (last : option JS.number) : Prop :=
  match last with
  | Some p =>
      exists before now response after,
        cs = before ++ PythPriceFeed.CallFetchPrice now response :: after
        /\ fresh_price Number pow10 response = Some p
        /\ Forall fetch_failed after
  | None =>
      exists before after,
        cs = before ++ after
        /\ Forall fetch_failed after
        /\ (before = [] \/ exists earlier a, before = earlier ++ [PythPriceFeed.CallSetAssetTo a])
  end.

(** A Hermes answer with one price, and a text conversion and a power of
    ten for the examples: they read the price "6512345" at exponent -2. *)
Definition hermes_answer : PythPriceFeed.Response unit :=
  PythPriceFeed.Resolved
    (Some (Some [PythPriceFeed.mkRawPrice "6512345" "1200" (JS.of_Z (-2)) (JS.of_Z 1737748395)])).

Definition hermes_down : PythPriceFeed.Response unit := PythPriceFeed.Rejected tt.

Definition read_decimal (s : string) : JS.number := JS.parseFloat s.

Definition hundredth (expo : JS.number) : JS.number := JS.of_decimal false 1 (-2).

(** What every store of the slice satisfies: the target cells are the
    default configuration, nothing is being settled, the history holds at
    most 300 points, and the current price is the price of the latest point
    of the history, or 0 while the history is empty. *)
Definition store_invariant {ActiveRound : Type} (s : GameSlice.GameState ActiveRound) : Prop :=
  GameSlice.targetCells s = GameSlice.DEFAULT_TARGET_CELLS
  /\ GameSlice.isSettling s = false
  /\ (length (GameSlice.priceHistory s) <= GameSlice.MAX_PRICE_HISTORY)%nat
  /\ GameSlice.currentPrice s
     = match last (GameSlice.priceHistory s) with
       | Some point => GameSlice.PricePoint.price point
       | None => JS.of_Z 0
       end.

(** What runs while a bet request is awaited keeps the invariant, as the
    actions of the slice do. *)
Definition overlap_keeps_invariant {ActiveRound : Type} (a : GameSlice.Action ActiveRound)
  : Prop :=
  match a with
  | GameSlice.PlaceBetFromHouseBalance w _ _ _ _ =>
      forall s, store_invariant s -> store_invariant (GameSlice.meanwhile w s)
  | _ => True
  end.

(** * Properties *)

(** ** Results *)

(** Peel the guards off a successful run of the error monad. *)
Ltac ok_inv H :=
  repeat match type of H with
    | rbind (require ?c ?e) _ = Ok _ =>
        let Hc := fresh "Hguard" in
        destruct c eqn:Hc; simpl in H; [| discriminate H]
    | rbind ?m _ = Ok _ =>
        let v := fresh "v" in
        let Hv := fresh "Hv" in
        destruct m as [v|] eqn:Hv; simpl in H; [| discriminate H]
    end.

(** ** The treasury *)

Section TreasuryFacts.
Import Treasury.
Local Open Scope Z_scope.

Lemma withdraw_ok (t : Treasury) (amount : Z) (ctx : TxContext) (eff : Effects) :
  withdraw t amount ctx = Ok eff ->
  0 < amount <= get_balance t
  /\ get_balance (treasury_after eff) = get_balance t - amount
  /\ transfers eff = [(mkCoin (ids_created ctx) (mkBalance amount), sender ctx)].
Proof.
  unfold withdraw, balance_split, get_balance, balance_value. intros H.
  ok_inv H. injection H as <-. simpl.
  apply Z.ltb_lt in Hguard. apply Z.leb_le in Hguard0.
  repeat split; lia.
Qed.

Lemma withdraw_zero_amount (t : Treasury) (amount : Z) (ctx : TxContext) :
  amount <= 0 -> withdraw t amount ctx = Err (Assert EZeroAmount).
Proof.
  intros H. unfold withdraw.
  destruct (0 <? amount) eqn:E; [apply Z.ltb_lt in E; lia | reflexivity].
Qed.

Lemma withdraw_insufficient (t : Treasury) (amount : Z) (ctx : TxContext) :
  0 < amount -> get_balance t < amount ->
  withdraw t amount ctx = Err (Assert EInsufficientBalance).
Proof.
  intros Hpos Hlt. unfold withdraw, get_balance in *.
  destruct (0 <? amount) eqn:E; [| apply Z.ltb_ge in E; lia]. simpl.
  destruct (amount <=? balance_value (balance t)) eqn:E'; [apply Z.leb_le in E'; lia |].
  reflexivity.
Qed.

Lemma withdraw_succeeds (t : Treasury) (amount : Z) (ctx : TxContext) :
  0 < amount <= get_balance t ->
  exists eff, withdraw t amount ctx = Ok eff.
Proof.
  intros [Hpos Hle]. unfold withdraw, balance_split, get_balance, balance_value in *.
  destruct (0 <? amount) eqn:E; [| apply Z.ltb_ge in E; lia]. simpl.
  destruct (amount <=? value (balance t)) eqn:E'; [| apply Z.leb_gt in E'; lia].
  simpl. eauto.
Qed.

Lemma deposit_ok (t : Treasury) (payment : Coin) (ctx : TxContext) (eff : Effects) :
  deposit t payment ctx = Ok eff ->
  0 < coin_value payment
  /\ get_balance (treasury_after eff) = get_balance t + coin_value payment
  /\ get_balance (treasury_after eff) <= u64_max.
Proof.
  unfold deposit, balance_join, get_balance, balance_value, coin_into_balance, coin_value.
  intros H. ok_inv H. ok_inv Hv. injection Hv as <-. injection H as <-. simpl.
  apply Z.ltb_lt in Hguard. apply Z.leb_le in Hguard0. lia.
Qed.

(** A committed or aborted call keeps the held balance a [u64]. *)
Lemma commit_u64 (t : Treasury) (c : Call) :
  is_u64 (get_balance t) -> is_u64 (get_balance (commit t c)).
Proof.
  unfold is_u64. intros H. unfold commit.
  destruct c as [payment ctx | amount ctx]; simpl.
  - destruct (deposit t payment ctx) as [eff|] eqn:E; [| exact H].
    apply deposit_ok in E. lia.
  - destruct (withdraw t amount ctx) as [eff|] eqn:E; [| exact H].
    apply withdraw_ok in E. lia.
Qed.

Lemma run_u64 (cs : list Call) (t : Treasury) :
  is_u64 (get_balance t) -> is_u64 (get_balance (run t cs)).
Proof.
  revert t. induction cs as [| c cs IH]; intros t H; simpl; [exact H |].
  apply IH, commit_u64, H.
Qed.
End TreasuryFacts.

(** ** The ledger *)

Section LedgerFacts.
Import Ledger.
Local Open Scope Z_scope.

Lemma getBalance_commit (l : Ledger.t) (addr addr' : string) op amt before new tx bet now :
  getBalance (commit l addr op amt before new tx bet now) addr'
  = if decide (addr = addr') then new else getBalance l addr'.
Proof.
  unfold getBalance, commit. simpl.
  destruct (decide (addr = addr')) as [-> | Hne].
  - by rewrite lookup_insert_eq.
  - by rewrite lookup_insert_ne.
Qed.

Lemma audit_commit (l : Ledger.t) addr op amt before new tx bet now :
  audit (commit l addr op amt before new tx bet now)
  = audit l ++ [AuditEntry.make (Z.of_nat (length (audit l)) + 1) addr op amt before new
                                tx bet now].
Proof. reflexivity. Qed.

Lemma commit_non_negative_ledger (l : Ledger.t) addr op amt before new tx bet now :
  non_negative l -> 0 <= new ->
  non_negative (commit l addr op amt before new tx bet now).
Proof.
  intros Hl Hnew addr'. rewrite getBalance_commit.
  case_decide; [exact Hnew | apply Hl].
Qed.

Lemma debitForBet_non_negative (l : Ledger.t) addr amt now :
  non_negative l -> non_negative (after l (debitForBet l addr amt now)).
Proof.
  intros Hl. unfold debitForBet, debit_bet_on.
  destruct (0 <? amt) eqn:E1; simpl; [| exact Hl].
  destruct (amt <=? getBalance l addr) eqn:E2; simpl; [| exact Hl].
  apply commit_non_negative_ledger; [exact Hl |].
  apply Z.leb_le in E2. lia.
Qed.

Lemma creditForPayout_non_negative (l : Ledger.t) addr amt betId now :
  non_negative l -> non_negative (after l (creditForPayout l addr amt betId now)).
Proof.
  intros Hl. unfold creditForPayout.
  destruct (0 <? amt) eqn:E1; simpl; [| exact Hl].
  apply commit_non_negative_ledger; [exact Hl |].
  apply Z.ltb_lt in E1. specialize (Hl addr). lia.
Qed.

(** A deposit keeps balances non-negative when its amount is not negative. *)
Lemma creditForDeposit_non_negative (l : Ledger.t) addr amt tx now :
  0 <= amt ->
  non_negative l -> non_negative (after l (creditForDeposit l addr amt tx now)).
Proof.
  intros Hamt Hl. unfold creditForDeposit.
  destruct (recorded l deposit tx); simpl; [exact Hl |].
  apply commit_non_negative_ledger; [exact Hl |].
  specialize (Hl addr). lia.
Qed.

Lemma debitForWithdrawal_non_negative (l : Ledger.t) addr amt tx now :
  non_negative l -> non_negative (after l (debitForWithdrawal l addr amt tx now)).
Proof.
  intros Hl. unfold debitForWithdrawal.
  destruct (recorded l withdrawal tx); simpl; [exact Hl |].
  destruct (amt <=? getBalance l addr) eqn:E2; simpl; [| exact Hl].
  apply commit_non_negative_ledger; [exact Hl |].
  apply Z.leb_le in E2. lia.
Qed.

Lemma apply_non_negative (l : Ledger.t) (op : Op) :
  non_negative l -> non_negative (apply l op).
Proof.
  intros Hl. destruct op as [e now | addr amt now | addr amt betId now]; simpl.
  - unfold reconcile. destruct (ChainEvent.type e).
    + apply creditForDeposit_non_negative; [lia | exact Hl].
    + apply debitForWithdrawal_non_negative, Hl.
  - apply debitForBet_non_negative, Hl.
  - apply creditForPayout_non_negative, Hl.
Qed.

Lemma run_non_negative_ledger (ops : list Op) (l : Ledger.t) :
  non_negative l -> non_negative (run l ops).
Proof.
  revert l. induction ops as [| op ops IH]; intros l Hl; simpl; [exact Hl |].
  apply IH, apply_non_negative, Hl.
Qed.

Lemma empty_non_negative : non_negative Ledger.empty.
Proof. intros addr. unfold getBalance. simpl. by rewrite lookup_empty. Qed.
End LedgerFacts.

(** C1. Balances never go negative. Every ledger reached from the empty
    ledger by deposits and withdrawals confirmed on chain, bet debits and
    payout credits holds a non-negative balance for every account, after
    each operation of the sequence; the treasury's held balance stays a
    [u64], so non-negative, after each transaction; and [withdraw] either
    commits with [0 < amount <= balance], leaving [balance - amount], or
    aborts and leaves the treasury as it was, which it does whenever the
    amount exceeds the balance. *)
Theorem balance_never_negative :
  (forall (ops : list Ledger.Op) (n : nat),
      Ledger.non_negative (Ledger.run Ledger.empty (take n ops)))
  /\ (forall (ctx : Treasury.TxContext) (calls : list Treasury.Call) (n : nat),
         Treasury.is_u64
           (Treasury.get_balance (Treasury.run (Treasury.create_treasury ctx) (take n calls))))
  /\ (forall (t : Treasury.Treasury) (amount : Z) (ctx : Treasury.TxContext),
         match Treasury.withdraw t amount ctx with
         | Ok eff =>
             (0 < amount <= Treasury.get_balance t)%Z
             /\ Treasury.get_balance (Treasury.treasury_after eff)
                = (Treasury.get_balance t - amount)%Z
         | Err _ =>
             (amount <= 0 \/ Treasury.get_balance t < amount)%Z
             /\ Treasury.commit t (Treasury.CallWithdraw amount ctx) = t
         end)
  /\ (forall (t : Treasury.Treasury) (amount : Z) (ctx : Treasury.TxContext),
         (Treasury.get_balance t <? amount)%Z && is_ok (Treasury.withdraw t amount ctx)
         = false).
Proof.
  split; [| split; [| split]].
  - intros ops n. apply run_non_negative_ledger, empty_non_negative.
  - intros ctx calls n. apply run_u64.
    unfold Treasury.is_u64, Treasury.get_balance, Treasury.create_treasury,
      Treasury.balance_value, Treasury.u64_max.
    simpl. lia.
  - intros t amount ctx.
    destruct (Treasury.withdraw t amount ctx) as [eff|a] eqn:E.
    + apply withdraw_ok in E. tauto.
    + split.
      * destruct (Z_le_gt_dec amount 0) as [H0|H0]; [left; exact H0 | right].
        destruct (Z_lt_le_dec (Treasury.get_balance t) amount) as [H1|H1]; [exact H1 |].
        destruct (withdraw_succeeds t amount ctx) as [eff Heff]; [lia | congruence].
      * unfold Treasury.commit. simpl. by rewrite E.
  - intros t amount ctx.
    destruct (Treasury.get_balance t <? amount)%Z eqn:E; [| reflexivity].
    apply Z.ltb_lt in E.
    destruct (Treasury.withdraw t amount ctx) as [eff|a] eqn:Ew; [| reflexivity].
    apply withdraw_ok in Ew. lia.
Qed.

(** ** Withdrawals *)

Section WithdrawalFacts.
Import Ledger.
Local Open Scope Z_scope.

Lemma debitForWithdrawal_fresh (l : Ledger.t) addr amt tx now :
  recorded l withdrawal tx = false ->
  debitForWithdrawal l addr amt tx now
  = if amt <=? getBalance l addr
    then Ok (getBalance l addr - amt,
             commit l addr withdrawal amt (getBalance l addr) (getBalance l addr - amt)
                    (Some tx) None now)
    else Err InsufficientFunds.
Proof.
  intros Hfresh. unfold debitForWithdrawal. rewrite Hfresh. simpl.
  destruct (amt <=? getBalance l addr); reflexivity.
Qed.

Lemma debitForWithdrawal_replayed (l : Ledger.t) addr amt tx now :
  recorded l withdrawal tx = true ->
  debitForWithdrawal l addr amt tx now = Err DuplicateTransaction.
Proof. intros H. unfold debitForWithdrawal. by rewrite H. Qed.
End WithdrawalFacts.

(** C4, counterexample. A withdrawal of 0 from a treasury holding 5 does not
    succeed: it aborts with [EZeroAmount]. On the ledger, a withdrawal of 10
    from a balance of 50 under the transaction hash 0xB, which is already
    recorded, is a [DuplicateTransaction] and decreases nothing. So the
    claim holds neither of the contract nor of the ledger. *)
Lemma withdrawal_dichotomy_fails :
  (Treasury.withdraw treasury_of_five 0 alice_ctx
   = Err (Treasury.Assert Treasury.EZeroAmount)
   /\ ~ withdrawal_dichotomy_on_chain)
  /\ (Ledger.getBalance ledger_after_0xB "alice" = 50%Z
      /\ Ledger.debitForWithdrawal ledger_after_0xB "alice" 10 "0xB" 3
         = Err Ledger.DuplicateTransaction
      /\ ~ withdrawal_dichotomy_off_chain).
Proof.
  split; [split | split; [| split]].
  - reflexivity.
  - intros claim.
    destruct (claim treasury_of_five 0%Z alice_ctx) as [_ Hle];
      [vm_compute; discriminate | vm_compute; discriminate |].
    destruct Hle as (eff & Heff & _); [vm_compute; discriminate | discriminate Heff].
  - reflexivity.
  - reflexivity.
  - intros claim.
    assert (Hnn : Ledger.non_negative ledger_after_0xB)
      by apply run_non_negative_ledger, empty_non_negative.
    destruct (claim ledger_after_0xB "alice" 10%Z "0xB" 3%Z Hnn) as [_ Hle].
    destruct Hle as (l' & Hl' & _); [vm_compute; discriminate | discriminate Hl'].
Qed.

(** C4, amended. On the contract, a withdrawal of more than the treasury
    holds aborts with [EInsufficientBalance] and leaves the treasury as it
    was, a withdrawal with [0 < amount <= balance] commits and decreases the
    balance by exactly the amount, and a withdrawal of a zero amount aborts
    with [EZeroAmount]. On the ledger, under a transaction hash that is not
    yet recorded as a withdrawal, an amount above the balance fails with
    [InsufficientFunds] and changes nothing, and an amount up to the balance
    succeeds and decreases the balance by exactly the amount; under a hash
    that is recorded the call is a [DuplicateTransaction] that changes
    nothing. *)
Theorem withdrawal_outcomes :
  (forall (t : Treasury.Treasury) (amount : Z) (ctx : Treasury.TxContext),
      ((0 < amount)%Z -> (Treasury.get_balance t < amount)%Z ->
       Treasury.withdraw t amount ctx = Err (Treasury.Assert Treasury.EInsufficientBalance)
       /\ Treasury.commit t (Treasury.CallWithdraw amount ctx) = t)
      /\ ((0 < amount <= Treasury.get_balance t)%Z ->
          exists eff, Treasury.withdraw t amount ctx = Ok eff
                      /\ Treasury.commit t (Treasury.CallWithdraw amount ctx)
                         = Treasury.treasury_after eff
                      /\ Treasury.get_balance (Treasury.treasury_after eff)
                         = (Treasury.get_balance t - amount)%Z)
      /\ ((amount <= 0)%Z ->
          Treasury.withdraw t amount ctx = Err (Treasury.Assert Treasury.EZeroAmount)
          /\ Treasury.commit t (Treasury.CallWithdraw amount ctx) = t))
  /\ (forall (l : Ledger.t) (addr : string) (amt : Z) (tx : string) (now : Z),
         (Ledger.recorded l Ledger.withdrawal tx = false ->
          (Ledger.getBalance l addr < amt)%Z ->
          Ledger.debitForWithdrawal l addr amt tx now = Err Ledger.InsufficientFunds
          /\ Ledger.recordWithdrawal l addr amt tx now = (Err Ledger.InsufficientFunds, l))
         /\ (Ledger.recorded l Ledger.withdrawal tx = false ->
             (amt <= Ledger.getBalance l addr)%Z ->
             exists l', Ledger.recordWithdrawal l addr amt tx now
                        = (Ok (Ledger.getBalance l addr - amt)%Z, l')
                        /\ Ledger.getBalance l' addr = (Ledger.getBalance l addr - amt)%Z)
         /\ (Ledger.recorded l Ledger.withdrawal tx = true ->
             Ledger.debitForWithdrawal l addr amt tx now = Err Ledger.DuplicateTransaction
             /\ Ledger.recordWithdrawal l addr amt tx now
                = (Ok (Ledger.getBalance l addr), l))).
Proof.
  split.
  - intros t amount ctx. split; [| split].
    + intros Hpos Hlt. pose proof (withdraw_insufficient t amount ctx Hpos Hlt) as E.
      split; [exact E |]. unfold Treasury.commit. simpl. by rewrite E.
    + intros Hrange. destruct (withdraw_succeeds t amount ctx Hrange) as [eff E].
      exists eff. split; [exact E |]. split.
      * unfold Treasury.commit. simpl. by rewrite E.
      * apply withdraw_ok in E. tauto.
    + intros Hzero. pose proof (withdraw_zero_amount t amount ctx Hzero) as E.
      split; [exact E |]. unfold Treasury.commit. simpl. by rewrite E.
  - intros l addr amt tx now. split; [| split].
    + intros Hfresh Hlt. unfold Ledger.recordWithdrawal.
      rewrite (debitForWithdrawal_fresh l addr amt tx now Hfresh).
      destruct (amt <=? Ledger.getBalance l addr)%Z eqn:E; [apply Z.leb_le in E; lia |].
      split; reflexivity.
    + intros Hfresh Hle. unfold Ledger.recordWithdrawal.
      rewrite (debitForWithdrawal_fresh l addr amt tx now Hfresh).
      destruct (amt <=? Ledger.getBalance l addr)%Z eqn:E; [| apply Z.leb_gt in E; lia].
      eexists. split; [reflexivity |].
      rewrite getBalance_commit. case_decide; [reflexivity | congruence].
    + intros Hdup. unfold Ledger.recordWithdrawal.
      rewrite (debitForWithdrawal_replayed l addr amt tx now Hdup). split; reflexivity.
Qed.

(** C4, witness: the treasury of five units and the ledger on which 0xB is
    recorded, with a fresh hash 0xC. *)
Lemma withdrawal_outcomes_witness :
  (Treasury.withdraw treasury_of_five 6 alice_ctx
   = Err (Treasury.Assert Treasury.EInsufficientBalance)
   /\ Treasury.commit treasury_of_five (Treasury.CallWithdraw 6 alice_ctx) = treasury_of_five)
  /\ (exists l', Ledger.recordWithdrawal ledger_after_0xB "alice" 20 "0xC" 3
                 = (Ok (Ledger.getBalance ledger_after_0xB "alice" - 20)%Z, l')
                 /\ Ledger.getBalance l' "alice"
                    = (Ledger.getBalance ledger_after_0xB "alice" - 20)%Z).
Proof.
  destruct withdrawal_outcomes as [Hchain Hledger]. split.
  - destruct (Hchain treasury_of_five 6%Z alice_ctx) as [Hover _].
    apply Hover; vm_compute; reflexivity.
  - destruct (Hledger ledger_after_0xB "alice" 20%Z "0xC" 3%Z) as (_ & Hfresh & _).
    apply Hfresh; vm_compute; [reflexivity | discriminate].
Defined.

(** ** Placing a bet from the house balance *)

Section PlaceBetFacts.
Import JS GameSlice.
Context {ActiveRound : Type}.
Implicit Types (s : GameState ActiveRound) (w : World ActiveRound).

Lemma validate_amount_err (amount : string) :
  isNaN (parseFloat amount) || leb (parseFloat amount) (of_Z 0) = true ->
  validate_amount amount = Err "Invalid bet amount".
Proof. intros H. unfold validate_amount. by rewrite H. Qed.

Lemma rejected_invalid_amount w (amount targetId userAddress : string)
      (cellId : option string) s :
  validate_amount amount = Err "Invalid bet amount" ->
  placeBetFromHouseBalance w amount targetId userAddress cellId s
  = mkOutcome (set_placing false (Some "Invalid bet amount") s) []
              (Err "Invalid bet amount").
Proof.
  intros H. unfold placeBetFromHouseBalance, place_bet_body. rewrite H. reflexivity.
Qed.

Lemma rejected_invalid_target w (amount targetId userAddress : string)
      (cellId : option string) s (betAmount : number) :
  validate_amount amount = Ok betAmount ->
  is_dynamic targetId = false ->
  find_cell (targetCells s) targetId = None ->
  placeBetFromHouseBalance w amount targetId userAddress cellId s
  = mkOutcome (set_placing false (Some "Invalid target cell") s) []
              (Err "Invalid target cell").
Proof.
  intros Hamount Hdyn Hfind.
  unfold placeBetFromHouseBalance, place_bet_body, resolve_target.
  rewrite Hamount, Hdyn, Hfind. reflexivity.
Qed.

(** A target id that starts with "UP-" or "DOWN-" splits into its
    direction and the rest. *)
Lemma startsWith_app (p s : string) :
  startsWith s p = true -> exists rest, s = p +:+ rest.
Proof.
  unfold startsWith. revert s. induction p as [| a p IH]; intros s H.
  - exists s. reflexivity.
  - destruct s as [| b s]; [discriminate |].
    change (String.prefix (String a p) (String b s))
      with (if ascii_dec a b then String.prefix p s else false) in H.
    destruct (ascii_dec a b) as [-> |]; [| discriminate].
    destruct (IH s H) as [rest ->]. exists rest. reflexivity.
Qed.

Lemma startsWith_UP (targetId : string) :
  startsWith targetId "UP-" = true ->
  exists rest, targetId = String "U" (String "P" (String "-" rest)).
Proof. intros H. destruct (startsWith_app _ _ H) as [rest ->]. eauto. Qed.

Lemma startsWith_DOWN (targetId : string) :
  startsWith targetId "DOWN-" = true ->
  exists rest,
    targetId = String "D" (String "O" (String "W" (String "N" (String "-" rest)))).
Proof. intros H. destruct (startsWith_app _ _ H) as [rest ->]. eauto. Qed.

Lemma split_first_UP (rest : string) :
  exists tail, split "-" (String "U" (String "P" (String "-" rest))) = "UP" :: tail.
Proof. unfold split. simpl. eauto. Qed.

Lemma split_first_DOWN (rest : string) :
  exists tail,
    split "-" (String "D" (String "O" (String "W" (String "N" (String "-" rest)))))
    = "DOWN" :: tail.
Proof. unfold split. simpl. eauto. Qed.

Lemma dynamic_direction (targetId : string) :
  is_dynamic targetId = true ->
  direction_of (at_index (split "-" targetId) 0)
  = if startsWith targetId "UP-" then UP else DOWN.
Proof.
  unfold is_dynamic. intros H.
  destruct (startsWith targetId "UP-") eqn:Hup.
  - destruct (startsWith_UP _ Hup) as [rest ->].
    destruct (split_first_UP rest) as [tail ->]. reflexivity.
  - simpl in H. destruct (startsWith_DOWN _ H) as [rest ->].
    destruct (split_first_DOWN rest) as [tail ->]. reflexivity.
Qed.

Lemma resolve_target_dynamic (cells : list TargetCell.t) (targetId : string) :
  is_dynamic targetId = true ->
  let direction := if startsWith targetId "UP-" then UP else DOWN in
  resolve_target cells targetId
  = Ok (mkTarget (if is_UP direction then of_Z 10 else of_Z (-10)) direction
          (or_else (parseFloat_opt (at_index (split "-" targetId) 1)) one_and_a_half)).
Proof.
  intros H. unfold resolve_target. rewrite H, (dynamic_direction _ H). reflexivity.
Qed.

Lemma placed_in_demo_mode w (amount targetId userAddress : string)
      (cellId : option string) s (betAmount : number) (target : Target) :
  validate_amount amount = Ok betAmount ->
  resolve_target (targetCells s) targetId = Ok target ->
  isDemoMode (format_address userAddress) = true ->
  let fakeBetId := "demo-" +:+ digits_of_Z (now_first w) in
  let activeBet :=
    ActiveBet.make fakeBetId (str_or_else cellId targetId) betAmount
                   (target_multiplier target) (target_direction target) (now_second w) in
  placeBetFromHouseBalance w amount targetId userAddress cellId s
  = mkOutcome (set_placing false None (addActiveBet activeBet (set_placing true None s)))
              []
              (Ok (BetPlaced.make fakeBetId (sub (of_Z 1000) betAmount) activeBet)).
Proof.
  intros Hamount Htarget Hdemo.
  unfold placeBetFromHouseBalance, place_bet_body.
  rewrite Hamount, Htarget, Hdemo. reflexivity.
Qed.

(** For a demo address no request is sent, whatever the other arguments. *)
Lemma demo_mode_sends_nothing w (amount targetId userAddress : string)
      (cellId : option string) s :
  isDemoMode (format_address userAddress) = true ->
  requests (placeBetFromHouseBalance w amount targetId userAddress cellId s) = [].
Proof.
  intros Hdemo. unfold placeBetFromHouseBalance, place_bet_body.
  destruct (validate_amount amount); [| reflexivity].
  destruct (resolve_target (targetCells s) targetId); [| reflexivity].
  rewrite Hdemo. reflexivity.
Qed.
End PlaceBetFacts.

(** C5, counterexample. The amount "0" is rejected as an invalid bet amount,
    and the rejection is written to the store: [error], which was [null],
    holds the message afterwards, so the store is not what it was. *)
Lemma invalid_amount_is_recorded :
  let o := GameSlice.placeBetFromHouseBalance offline_world "0" "1" "0xabc" None fresh_store in
  JS.leb (JS.parseFloat "0") (JS.of_Z 0) = true
  /\ GameSlice.settled o = Err "Invalid bet amount"
  /\ GameSlice.error fresh_store = None
  /\ GameSlice.error (GameSlice.store o) = Some "Invalid bet amount"
  /\ GameSlice.store o <> fresh_store.
Proof.
  repeat split; try reflexivity.
  intros H. apply (f_equal GameSlice.error) in H. discriminate H.
Qed.

(** C5, amended. When the amount does not parse to a number, or parses to a
    number that is zero or negative, [placeBetFromHouseBalance] rejects with
    "Invalid bet amount" before any request is sent to the bet API and
    before any bet is added; the store changes only in that [error] holds
    the message and [isPlacingBet] is false. *)
Theorem invalid_amount_rejected {ActiveRound : Type}
        (w : GameSlice.World ActiveRound) (amount targetId userAddress : string)
        (cellId : option string) (s : GameSlice.GameState ActiveRound) :
  JS.isNaN (JS.parseFloat amount) || JS.leb (JS.parseFloat amount) (JS.of_Z 0) = true ->
  let o := GameSlice.placeBetFromHouseBalance w amount targetId userAddress cellId s in
  GameSlice.settled o = Err "Invalid bet amount"
  /\ GameSlice.requests o = []
  /\ GameSlice.activeBets (GameSlice.store o) = GameSlice.activeBets s
  /\ same_game s (GameSlice.store o)
  /\ GameSlice.isPlacingBet (GameSlice.store o) = false
  /\ GameSlice.error (GameSlice.store o) = Some "Invalid bet amount".
Proof.
  intros H o. subst o.
  rewrite (rejected_invalid_amount w amount targetId userAddress cellId s
             (validate_amount_err amount H)).
  simpl. repeat split.
Qed.

(** C5, witness: a bet of "-3" on cell 1. *)
Lemma invalid_amount_rejected_witness :
  GameSlice.settled
    (GameSlice.placeBetFromHouseBalance accepting_world "-3" "1" "0xabc" None fresh_store)
  = Err "Invalid bet amount"
  /\ GameSlice.requests
       (GameSlice.placeBetFromHouseBalance accepting_world "-3" "1" "0xabc" None fresh_store)
     = [].
Proof.
  destruct (invalid_amount_rejected accepting_world "-3" "1" "0xabc" None fresh_store)
    as (Hsettled & Hrequests & _).
  - vm_compute. reflexivity.
  - split; [exact Hsettled | exact Hrequests].
Defined.

(** C6, counterexample. The dynamic target "UP-0.5" carries the multiplier
    0.5, which is not above 1.0. For a demo address the bet is created with
    it; for any other address the request is sent to the bet API with it,
    and the bet is recorded when the API accepts. Neither call is rejected. *)
Lemma low_multiplier_is_accepted :
  let demo :=
    GameSlice.placeBetFromHouseBalance offline_world "10" "UP-0.5" "0xDEMO1" None fresh_store in
  let real :=
    GameSlice.placeBetFromHouseBalance accepting_world "10" "UP-0.5" "0xabc" None fresh_store in
  JS.leb (JS.parseFloat "0.5") (JS.of_Z 1) = true
  /\ (exists placed,
         GameSlice.settled demo = Ok placed
         /\ GameSlice.ActiveBet.multiplier (GameSlice.BetPlaced.bet placed) = JS.parseFloat "0.5"
         /\ GameSlice.activeBets (GameSlice.store demo) = [GameSlice.BetPlaced.bet placed])
  /\ (exists placed request,
         GameSlice.settled real = Ok placed
         /\ GameSlice.requests real = [request]
         /\ GameSlice.BetRequest.multiplier request = JS.parseFloat "0.5"
         /\ GameSlice.activeBets (GameSlice.store real) = [GameSlice.BetPlaced.bet placed]).
Proof.
  split; [reflexivity |]. split.
  - eexists. repeat split; reflexivity.
  - eexists. eexists. repeat split; reflexivity.
Qed.

(** C6, amended. With a valid amount, [placeBetFromHouseBalance] rejects
    with "Invalid target cell", sending no request and adding no bet, when
    the target id is neither a dynamic id ("UP-..." or "DOWN-...") nor the
    id of a configured cell. A dynamic id always resolves: its price change
    is fixed by its direction (+10 for UP, -10 for DOWN), and its multiplier
    is the number after the first dash, or 1.5 when that is zero or not a
    number. A target that resolves is bet on whatever its multiplier: for a
    demo address the bet is added, for any other address the request is
    sent with that multiplier. *)
Theorem target_validation {ActiveRound : Type}
        (w : GameSlice.World ActiveRound) (amount targetId userAddress : string)
        (cellId : option string) (s : GameSlice.GameState ActiveRound)
        (betAmount : JS.number) :
  GameSlice.validate_amount amount = Ok betAmount ->
  let o := GameSlice.placeBetFromHouseBalance w amount targetId userAddress cellId s in
  (GameSlice.is_dynamic targetId = false ->
   GameSlice.find_cell (GameSlice.targetCells s) targetId = None ->
   GameSlice.settled o = Err "Invalid target cell"
   /\ GameSlice.requests o = []
   /\ GameSlice.activeBets (GameSlice.store o) = GameSlice.activeBets s
   /\ GameSlice.error (GameSlice.store o) = Some "Invalid target cell")
  /\ (GameSlice.is_dynamic targetId = true ->
      let direction :=
        if JS.startsWith targetId "UP-" then GameSlice.UP else GameSlice.DOWN in
      GameSlice.resolve_target (GameSlice.targetCells s) targetId
      = Ok (GameSlice.mkTarget
              (if GameSlice.is_UP direction then JS.of_Z 10 else JS.of_Z (-10))
              direction
              (JS.or_else (JS.parseFloat_opt (JS.at_index (JS.split "-" targetId) 1))
                          GameSlice.one_and_a_half)))
  /\ (forall target,
         GameSlice.resolve_target (GameSlice.targetCells s) targetId = Ok target ->
         if GameSlice.isDemoMode (GameSlice.format_address userAddress)
         then exists placed,
             GameSlice.settled o = Ok placed
             /\ GameSlice.ActiveBet.multiplier (GameSlice.BetPlaced.bet placed)
                = GameSlice.target_multiplier target
             /\ GameSlice.activeBets (GameSlice.store o)
                = GameSlice.activeBets s ++ [GameSlice.BetPlaced.bet placed]
         else GameSlice.requests o
              = [GameSlice.bet_request w s (GameSlice.format_address userAddress)
                                       betAmount target]
              /\ GameSlice.BetRequest.multiplier
                   (GameSlice.bet_request w s (GameSlice.format_address userAddress)
                                          betAmount target)
                 = GameSlice.target_multiplier target).
Proof.
  intros Hamount o. subst o. split; [| split].
  - intros Hdyn Hfind.
    rewrite (rejected_invalid_target w amount targetId userAddress cellId s betAmount
               Hamount Hdyn Hfind).
    simpl. repeat split.
  - intros Hdyn. apply resolve_target_dynamic, Hdyn.
  - intros target Htarget.
    destruct (GameSlice.isDemoMode (GameSlice.format_address userAddress)) eqn:Hdemo.
    + rewrite (placed_in_demo_mode w amount targetId userAddress cellId s betAmount target
                 Hamount Htarget Hdemo).
      eexists. simpl. repeat split.
    + unfold GameSlice.placeBetFromHouseBalance, GameSlice.place_bet_body.
      rewrite Hamount, Htarget, Hdemo.
      destruct (GameSlice.fetch w _); simpl; split; reflexivity.
Qed.

(** C6, witness: a bet of "10" on the unknown cell "nine". *)
Lemma target_validation_witness :
  GameSlice.settled
    (GameSlice.placeBetFromHouseBalance accepting_world "10" "nine" "0xabc" None fresh_store)
  = Err "Invalid target cell".
Proof.
  destruct (target_validation accepting_world "10" "nine" "0xabc" None fresh_store
              (JS.parseFloat "10")) as (Hreject & _).
  - vm_compute. reflexivity.
  - destruct Hreject as (Hsettled & _); [reflexivity | reflexivity | exact Hsettled].
Defined.

(** C9. For every user address whose formatted form starts with "0xDEMO",
    [placeBetFromHouseBalance] works without the ledger: it sends no
    request to the bet API, and its outcome is the same whatever the bet API
    would have answered and whatever ran during a request. A bet that passes
    the two checks made before the address is looked at (the amount, the
    target) is appended to the active bets, and the call returns the made-up
    id "demo-<time>" with [remainingBalance = 1000 - betAmount]; a bet that
    fails one of them is rejected, as for any address, and no bet is
    added. *)
Theorem demo_mode_bypasses_ledger {ActiveRound : Type}
        (w : GameSlice.World ActiveRound) (amount targetId userAddress : string)
        (cellId : option string) (s : GameSlice.GameState ActiveRound) :
  GameSlice.isDemoMode (GameSlice.format_address userAddress) = true ->
  let o := GameSlice.placeBetFromHouseBalance w amount targetId userAddress cellId s in
  GameSlice.requests o = []
  /\ (forall fetch' meanwhile',
         GameSlice.placeBetFromHouseBalance
           (GameSlice.mkWorld (GameSlice.now_first w) (GameSlice.now_second w)
                              fetch' meanwhile')
           amount targetId userAddress cellId s
         = o)
  /\ match GameSlice.validate_amount amount,
           GameSlice.resolve_target (GameSlice.targetCells s) targetId with
     | Ok betAmount, Ok target =>
         exists placed,
           GameSlice.settled o = Ok placed
           /\ GameSlice.BetPlaced.betId placed
              = "demo-" +:+ JS.digits_of_Z (GameSlice.now_first w)
           /\ GameSlice.BetPlaced.remainingBalance placed
              = JS.sub (JS.of_Z 1000) betAmount
           /\ GameSlice.BetPlaced.bet placed
              = GameSlice.ActiveBet.make
                  (GameSlice.BetPlaced.betId placed) (JS.str_or_else cellId targetId)
                  betAmount (GameSlice.target_multiplier target)
                  (GameSlice.target_direction target) (GameSlice.now_second w)
           /\ GameSlice.activeBets (GameSlice.store o)
              = GameSlice.activeBets s ++ [GameSlice.BetPlaced.bet placed]
     | Err message, _ | Ok _, Err message =>
         GameSlice.settled o = Err message
         /\ GameSlice.activeBets (GameSlice.store o) = GameSlice.activeBets s
     end.
Proof.
  intros Hdemo o. subst o.
  unfold GameSlice.placeBetFromHouseBalance, GameSlice.place_bet_body.
  destruct (GameSlice.validate_amount amount) as [betAmount | message]; simpl.
  - destruct (GameSlice.resolve_target (GameSlice.targetCells s) targetId)
      as [target | message]; simpl.
    + rewrite Hdemo. simpl. split; [reflexivity |]. split; [reflexivity |].
      eexists. repeat split.
    + repeat split.
  - repeat split.
Qed.

(** C9, witness: "DEMO-player" bets "25" on cell 2 while the bet API is
    unreachable. *)
Lemma demo_mode_bypasses_ledger_witness :
  GameSlice.requests
    (GameSlice.placeBetFromHouseBalance offline_world "25" "2" "DEMO-player" None fresh_store)
  = []
  /\ exists placed,
      GameSlice.settled
        (GameSlice.placeBetFromHouseBalance offline_world "25" "2" "DEMO-player" None
                                            fresh_store)
      = Ok placed
      /\ GameSlice.BetPlaced.betId placed = "demo-1737748395000"
      /\ GameSlice.BetPlaced.remainingBalance placed = JS.of_Z 975
      /\ GameSlice.activeBets
           (GameSlice.store
              (GameSlice.placeBetFromHouseBalance offline_world "25" "2" "DEMO-player" None
                                                  fresh_store))
         = [GameSlice.BetPlaced.bet placed].
Proof.
  pose proof (demo_mode_bypasses_ledger offline_world "25" "2" "DEMO-player" None
                fresh_store) as H.
  destruct H as (Hrequests & _ & Hplaced); [vm_compute; reflexivity |].
  vm_compute in Hplaced.
  destruct Hplaced as (placed & Hsettled & Hid & Hremaining & _ & Hbets).
  split; [exact Hrequests |]. exists placed.
  split; [exact Hsettled |]. split; [exact Hid |].
  split; [exact Hremaining | exact Hbets].
Defined.

(** ** Active bets *)

Section ActiveBetFacts.
Import JS GameSlice.
Context {ActiveRound : Type}.
Implicit Types (s : GameState ActiveRound) (w : World ActiveRound)
         (a : Action ActiveRound) (b : ActiveBet.t).

Lemma AssetType_eqb_eq (x y : AssetType) : AssetType_eqb x y = true <-> x = y.
Proof. destruct x, y; simpl; split; (reflexivity || discriminate). Qed.

Lemma setSelectedAsset_same s (asset : AssetType) :
  asset = selectedAsset s -> setSelectedAsset asset s = s.
Proof.
  intros ->. unfold setSelectedAsset.
  replace (AssetType_eqb (selectedAsset s) (selectedAsset s)) with true; [reflexivity |].
  symmetry. by apply AssetType_eqb_eq.
Qed.

Lemma setSelectedAsset_other s (asset : AssetType) :
  asset <> selectedAsset s -> activeBets (setSelectedAsset asset s) = [].
Proof.
  intros Hne. unfold setSelectedAsset.
  destruct (AssetType_eqb (selectedAsset s) asset) eqn:E; [| reflexivity].
  apply AssetType_eqb_eq in E. congruence.
Qed.

Lemma resolveBet_keeps s (betId : string) (won : bool) (payout : number) b :
  In b (activeBets s) -> ActiveBet.id b <> betId ->
  In b (activeBets (resolveBet betId won payout s)).
Proof.
  intros Hin Hne. unfold resolveBet. simpl. apply filter_In. split; [exact Hin |].
  apply negb_true_iff. apply String.eqb_neq. exact Hne.
Qed.

Lemma resolveBet_removes s (won : bool) (payout : number) b :
  ~ In b (activeBets (resolveBet (ActiveBet.id b) won payout s)).
Proof.
  unfold resolveBet. simpl. intros Hin. apply filter_In in Hin as [_ Hne].
  rewrite String.eqb_refl in Hne. discriminate.
Qed.

(** A call to [placeBetFromHouseBalance] leaves the active bets that the
    actions running during its request left, and at most appends one. *)
Lemma placeBet_keeps w (amount targetId userAddress : string) (cellId : option string) s b :
  In b (activeBets s) ->
  In b (activeBets (meanwhile w (set_placing true None s))) ->
  In b (activeBets (store (placeBetFromHouseBalance w amount targetId userAddress cellId s))).
Proof.
  intros Hin Hmean. unfold placeBetFromHouseBalance, place_bet_body.
  destruct (validate_amount amount); [| exact Hin].
  destruct (resolve_target (targetCells s) targetId); [| exact Hin].
  destruct (isDemoMode (format_address userAddress)).
  - simpl. apply in_or_app. left. exact Hin.
  - destruct (fetch w _); simpl; try exact Hmean.
    apply in_or_app. left. exact Hmean.
Qed.
End ActiveBetFacts.

(** C8, counterexample. With one bet active on BTC, switching the selected
    asset to SUI empties the active bets: the bet is dropped without having
    been resolved. *)
Lemma switching_asset_drops_active_bets :
  GameSlice.activeBets store_with_bet = [btc_bet]
  /\ GameSlice.activeBets (GameSlice.step store_with_bet (GameSlice.SetSelectedAsset GameSlice.SUI))
     = [].
Proof. split; reflexivity. Qed.

(** C8, amended. An active bet leaves the active bets only when [resolveBet]
    is called with its id, or when [setSelectedAsset] switches to another
    asset, which clears all active bets. Every other action of the slice
    keeps every active bet. *)
Theorem active_bets_leave_only_by {ActiveRound : Type}
        (s : GameSlice.GameState ActiveRound) (a : GameSlice.Action ActiveRound)
        (b : GameSlice.ActiveBet.t) :
  In b (GameSlice.activeBets s) ->
  kept_during_request s a b ->
  ~ In b (GameSlice.activeBets (GameSlice.step s a)) ->
  (exists won payout, a = GameSlice.ResolveBet (GameSlice.ActiveBet.id b) won payout)
  \/ (exists asset,
         a = GameSlice.SetSelectedAsset asset
         /\ asset <> GameSlice.selectedAsset s
         /\ GameSlice.activeBets (GameSlice.step s a) = []).
Proof.
  intros Hin Hkept Hgone.
  destruct a as [asset | amount targetId | w amount targetId userAddress cellId | bet
                | betId won payout | betId | now price | round | |]; simpl in *;
    try (exfalso; apply Hgone; exact Hin).
  - right. exists asset. split; [reflexivity |].
    assert (Hne : asset <> GameSlice.selectedAsset s).
    { intros Heq. apply Hgone. by rewrite setSelectedAsset_same. }
    split; [exact Hne | by apply setSelectedAsset_other].
  - exfalso. apply Hgone. by apply placeBet_keeps.
  - exfalso. apply Hgone. apply in_or_app. left. exact Hin.
  - left. exists won, payout.
    destruct (string_dec (GameSlice.ActiveBet.id b) betId) as [<- | Hne]; [reflexivity |].
    exfalso. apply Hgone. by apply resolveBet_keeps.
Qed.

(** C8, witness: the bet on BTC and the switch to SUI. *)
Lemma active_bets_leave_only_by_witness :
  (exists won payout,
      GameSlice.SetSelectedAsset (ActiveRound := unit) GameSlice.SUI
      = GameSlice.ResolveBet (GameSlice.ActiveBet.id btc_bet) won payout)
  \/ (exists asset,
         GameSlice.SetSelectedAsset (ActiveRound := unit) GameSlice.SUI
         = GameSlice.SetSelectedAsset asset
         /\ asset <> GameSlice.selectedAsset store_with_bet
         /\ GameSlice.activeBets
              (GameSlice.step store_with_bet (GameSlice.SetSelectedAsset GameSlice.SUI))
            = []).
Proof.
  apply (active_bets_leave_only_by store_with_bet (GameSlice.SetSelectedAsset GameSlice.SUI)
                                   btc_bet).
  - left. reflexivity.
  - exact I.
  - intros H. exact H.
Defined.

(** ** The price history *)

Section PriceHistoryFacts.
Import JS GameSlice.
Context {ActiveRound : Type}.
Implicit Types (s : GameState ActiveRound) (h : list PricePoint.t).
Local Open Scope Z_scope.

Lemma priceHistory_updatePrice s (now : Z) (p : number) :
  priceHistory (updatePrice now p s)
  = skipn (length (List.filter (recent now) (priceHistory s)) + 1 - MAX_PRICE_HISTORY)%nat
          (List.filter (recent now) (priceHistory s))
    ++ [PricePoint.make now p].
Proof.
  unfold updatePrice. simpl. fold (recent now).
  rewrite List.filter_app. simpl.
  replace (recent now (PricePoint.make now p)) with true
    by (symmetry; unfold recent; simpl; apply Z.leb_le; lia).
  rewrite length_app. simpl. rewrite skipn_app.
  replace (length (List.filter (recent now) (priceHistory s)) + 1 - MAX_PRICE_HISTORY
           - length (List.filter (recent now) (priceHistory s)))%nat with 0%nat
    by (unfold MAX_PRICE_HISTORY; lia).
  reflexivity.
Qed.

Lemma Forall_filter_recent (now : Z) h :
  Forall (fun point => PricePoint.timestamp point <= now) h ->
  Forall (within_window now) (List.filter (recent now) h).
Proof.
  induction 1 as [| point h Hpoint _ IH]; simpl; [constructor |].
  destruct (recent now point) eqn:E; [| exact IH].
  constructor; [| exact IH].
  unfold recent in E. apply Z.leb_le in E. unfold within_window. lia.
Qed.

Lemma updatePrice_invariant s (now : Z) (p : number) :
  not_after now s -> price_invariant now p (updatePrice now p s).
Proof.
  intros Hnot. unfold price_invariant. rewrite priceHistory_updatePrice.
  split; [reflexivity |]. split; [| split].
  - rewrite length_app, length_drop. simpl. unfold MAX_PRICE_HISTORY. lia.
  - apply Forall_app. split.
    + apply Forall_drop, Forall_filter_recent, Hnot.
    + constructor; [| constructor]. unfold within_window. simpl. lia.
  - apply last_snoc.
Qed.

(** Whatever the clock did before, the filter keeps no point older than
    five minutes, the history is cut to 300 points and ends with the new
    point. *)
Lemma updatePrice_always s (now : Z) (p : number) :
  currentPrice (updatePrice now p s) = p
  /\ (length (priceHistory (updatePrice now p s)) <= MAX_PRICE_HISTORY)%nat
  /\ Forall (fun point => now - 300000 <= PricePoint.timestamp point)
            (priceHistory (updatePrice now p s))
  /\ last (priceHistory (updatePrice now p s)) = Some (PricePoint.make now p).
Proof.
  rewrite priceHistory_updatePrice. split; [reflexivity |]. split; [| split].
  - rewrite length_app, length_drop. simpl. unfold MAX_PRICE_HISTORY. lia.
  - apply Forall_app. split.
    + apply Forall_drop. apply List.Forall_forall. intros point Hin.
      apply filter_In in Hin as [_ Hrecent]. unfold recent in Hrecent.
      apply Z.leb_le in Hrecent. lia.
    + constructor; [simpl; lia | constructor].
  - apply last_snoc.
Qed.

Lemma updatePrice_not_after s (now later : Z) (p : number) :
  not_after now s -> now <= later -> not_after later (updatePrice now p s).
Proof.
  intros Hnot Hle. pose proof (updatePrice_invariant s now p Hnot) as (_ & _ & Hwin & _).
  unfold not_after. eapply Forall_impl; [exact Hwin |].
  intros point Hpoint. unfold within_window in Hpoint. simpl in *. lia.
Qed.

Lemma clock_monotone_step s (now : Z) (p : number) (later : list Z) :
  clock_monotone s (now :: later) -> clock_monotone (updatePrice now p s) later.
Proof.
  intros [Hsorted Hnot]. apply StronglySorted_inv in Hsorted as [Hlater Hle].
  apply Forall_cons in Hnot as [Hnow _].
  split; [exact Hlater |].
  eapply Forall_impl; [exact Hle |].
  intros t Ht. simpl in Ht. by apply updatePrice_not_after.
Qed.

End PriceHistoryFacts.

(** C10, counterexample. The clock reads 500000 at a first call and, set
    back, 450000 at a second. The filter only drops points that are too
    old, so the history keeps the point stamped 500000, which is after the
    time of the second call and so not within the five minutes that end at
    it. *)
Lemma price_window_fails_when_clock_is_set_back :
  GameSlice.priceHistory
    (GameSlice.updatePrices fresh_store
       [(500000%Z, JS.of_Z 50000); (450000%Z, JS.of_Z 50001)])
  = [GameSlice.PricePoint.make 500000 (JS.of_Z 50000);
     GameSlice.PricePoint.make 450000 (JS.of_Z 50001)]
  /\ ~ within_window 450000 (GameSlice.PricePoint.make 500000 (JS.of_Z 50000))
  /\ ~ price_window_claim.
Proof.
  split; [reflexivity |]. split.
  - unfold within_window. simpl. lia.
  - intros claim.
    destruct (claim [(500000%Z, JS.of_Z 50000)] 450000%Z (JS.of_Z 50001))
      as (_ & _ & Hwindow & _).
    apply Forall_cons in Hwindow as [Hfirst _].
    unfold within_window in Hfirst. simpl in Hfirst. lia.
Qed.

(** C10, amended. After every call [updatePrice(p)] of a sequence of calls,
    the current price is [p], the history holds at most 300 points, none of
    them stamped more than five minutes before the time of the call, and
    its last point is the new one, stamped at the time of the call with
    price [p]. When the clock readings of the calls do not run backwards,
    no point is stamped after the time of the call either: every point lies
    within the five minutes that end at the call. *)
Theorem price_history_window {ActiveRound : Type} (s : GameSlice.GameState ActiveRound)
        (earlier : list (Z * JS.number)) (now : Z) (p : JS.number) :
  let s' := GameSlice.updatePrices s (earlier ++ [(now, p)]) in
  (GameSlice.currentPrice s' = p
   /\ (length (GameSlice.priceHistory s') <= 300)%nat
   /\ Forall (fun point => (now - 5 * 60 * 1000 <= GameSlice.PricePoint.timestamp point)%Z)
             (GameSlice.priceHistory s')
   /\ last (GameSlice.priceHistory s') = Some (GameSlice.PricePoint.make now p))
  /\ (clock_monotone s (map fst earlier ++ [now]) -> price_invariant now p s').
Proof.
  intros s'. split.
  - subst s'. unfold GameSlice.updatePrices. rewrite fold_left_app. simpl.
    apply updatePrice_always.
  - subst s'. revert s. induction earlier as [| [t q] earlier IH]; intros s Hclock; simpl in *.
    + destruct Hclock as [_ Hnot]. apply Forall_cons in Hnot as [Hnow _].
      by apply updatePrice_invariant.
    + apply IH. by apply clock_monotone_step.
Qed.

(** C10, witness: three price updates on a fresh store, the last of them
    more than five minutes after the first two. *)
Lemma price_history_window_witness :
  price_invariant 400000 (JS.of_Z 50002)
    (GameSlice.updatePrices fresh_store
       ([(1000%Z, JS.of_Z 50000); (2000%Z, JS.of_Z 50001)] ++ [(400000%Z, JS.of_Z 50002)])).
Proof.
  apply (price_history_window fresh_store
           [(1000%Z, JS.of_Z 50000); (2000%Z, JS.of_Z 50001)] 400000 (JS.of_Z 50002)).
  split; simpl.
  - repeat constructor; lia.
  - repeat constructor.
Defined.

(** ** Settlement *)

Section SettlementFacts.
Import Settlement.
Local Open Scope Q_scope.

Lemma won_iff (b : Bet.t) (endPrice : Q) :
  won b endPrice = true
  <-> (Bet.direction b = UP /\ Bet.priceChangeTarget b <= endPrice - Bet.referencePrice b)
      \/ (Bet.direction b = DOWN /\ endPrice - Bet.referencePrice b <= Bet.priceChangeTarget b).
Proof.
  unfold won. destruct (Bet.direction b); rewrite Qle_bool_iff; split.
  - intros H. left. auto.
  - intros [[_ H] | [H _]]; [exact H | discriminate H].
  - intros H. right. auto.
  - intros [[H _] | [_ H]]; [discriminate H | exact H].
Qed.

Lemma outcome_cases (b : Bet.t) (endPrice : Q) :
  (won b endPrice = true /\ outcome b endPrice = Won)
  \/ (won b endPrice = false /\ outcome b endPrice = Lost).
Proof. unfold outcome. destruct (won b endPrice); auto. Qed.
End SettlementFacts.

(** C2. With [delta = endPrice - referencePrice], a bet's outcome is Won
    exactly when it is UP and [delta >= priceChangeTarget] or DOWN and
    [delta <= priceChangeTarget], and Lost otherwise; the payout is
    [amount * multiplier] when Won and 0 when Lost. A bet UP by +10 from
    50000 is Won at 50010 and Lost at 50009. *)
Theorem settlement_outcome_rule :
  (forall (b : Settlement.Bet.t) (endPrice : Q),
      let delta := (endPrice - Settlement.Bet.referencePrice b)%Q in
      let target := Settlement.Bet.priceChangeTarget b in
      let favourable :=
        (Settlement.Bet.direction b = Settlement.UP /\ (target <= delta)%Q)
        \/ (Settlement.Bet.direction b = Settlement.DOWN /\ (delta <= target)%Q) in
      (Settlement.outcome b endPrice = Settlement.Won <-> favourable)
      /\ (Settlement.outcome b endPrice = Settlement.Lost <-> ~ favourable)
      /\ Settlement.payout b Settlement.Won
         = (inject_Z (Settlement.Bet.amount b) * Settlement.Bet.multiplier b)%Q
      /\ Settlement.payout b Settlement.Lost = 0%Q)
  /\ (forall (id : Z) (address : string) (amount : Z) (multiplier : Q)
             (placedAt deadline : Z) (status : Settlement.Status),
         let b := Settlement.Bet.make id address amount Settlement.UP multiplier 10
                                      placedAt 50000 deadline status in
         Settlement.outcome b 50010 = Settlement.Won
         /\ Settlement.payout b (Settlement.outcome b 50010)
            = (inject_Z amount * multiplier)%Q
         /\ Settlement.outcome b 50009 = Settlement.Lost
         /\ Settlement.payout b (Settlement.outcome b 50009) = 0%Q).
Proof.
  split.
  - intros b endPrice delta target favourable.
    pose proof (won_iff b endPrice) as Hwon. fold delta target favourable in Hwon.
    destruct (outcome_cases b endPrice) as [[Hw ->] | [Hw ->]].
    + repeat split; try reflexivity; try discriminate.
      * intros _. by apply Hwon.
      * intros Hn. exfalso. apply Hn. by apply Hwon.
    + assert (Hnot : ~ favourable).
      { intros Hf. apply Hwon in Hf. congruence. }
      repeat split; try reflexivity; try discriminate; tauto.
  - intros id address amount multiplier placedAt deadline status b.
    repeat split.
Qed.

(** ** Deposits *)

Section DepositFacts.
Import Ledger.
Local Open Scope Z_scope.

Lemma recorded_commit (l : Ledger.t) addr op amt before new (tx : string) bet now :
  recorded (commit l addr op amt before new (Some tx) bet now) op tx = true.
Proof.
  unfold recorded, commit. simpl. rewrite existsb_app. apply orb_true_iff. right.
  simpl. unfold matches. simpl. rewrite String.eqb_refl.
  destruct op; reflexivity.
Qed.

Lemma entries_for_fresh (l : Ledger.t) (op : OperationType) (tx : string) :
  recorded l op tx = false -> entries_for l op tx = [].
Proof.
  unfold recorded, entries_for. induction (audit l) as [| e es IH]; simpl; [reflexivity |].
  intros H. apply orb_false_iff in H as [He Hes]. rewrite He. auto.
Qed.

Lemma entries_for_recorded (l : Ledger.t) (op : OperationType) (tx : string) :
  recorded l op tx = true -> (1 <= length (entries_for l op tx))%nat.
Proof.
  unfold recorded, entries_for. induction (audit l) as [| e es IH]; simpl; [discriminate |].
  intros H. destruct (matches op tx e); simpl in *; [lia | auto].
Qed.

(** The entries of an operation under a hash after one more write. *)
Lemma entries_for_commit (l : Ledger.t) addr op amt before new txHash bet now
      (op' : OperationType) (tx : string) :
  entries_for (commit l addr op amt before new txHash bet now) op' tx
  = entries_for l op' tx
    ++ List.filter (matches op' tx)
         [AuditEntry.make (Z.of_nat (length (audit l)) + 1) addr op amt before new
                          txHash bet now].
Proof. unfold entries_for, commit. simpl. apply List.filter_app. Qed.

Lemma commit_other_at_most_once (l : Ledger.t) addr op amt before new txHash bet now :
  op <> deposit -> deposited_at_most_once l ->
  deposited_at_most_once (commit l addr op amt before new txHash bet now).
Proof.
  intros Hop Hl tx. rewrite entries_for_commit. simpl. unfold matches. simpl.
  destruct op; try congruence; simpl; rewrite app_nil_r; apply Hl.
Qed.

Lemma creditForDeposit_at_most_once (l : Ledger.t) addr amt tx now :
  deposited_at_most_once l ->
  deposited_at_most_once (after l (creditForDeposit l addr amt tx now)).
Proof.
  intros Hl. unfold creditForDeposit.
  destruct (recorded l deposit tx) eqn:Hrec; simpl; [exact Hl |].
  intros tx'. rewrite entries_for_commit. simpl. unfold matches. simpl.
  destruct (String.eqb tx tx') eqn:E.
  - apply String.eqb_eq in E as <-. rewrite (entries_for_fresh _ _ _ Hrec). simpl. lia.
  - rewrite app_nil_r. apply Hl.
Qed.

Lemma apply_at_most_once (l : Ledger.t) (op : Op) :
  deposited_at_most_once l -> deposited_at_most_once (apply l op).
Proof.
  intros Hl. destruct op as [e now | addr amt now | addr amt betId now]; simpl.
  - unfold reconcile. destruct (ChainEvent.type e).
    + by apply creditForDeposit_at_most_once.
    + unfold debitForWithdrawal.
      destruct (recorded l withdrawal _); simpl; [exact Hl |].
      destruct (_ <=? _); simpl; [| exact Hl].
      by apply commit_other_at_most_once.
  - unfold debitForBet, debit_bet_on.
    destruct (0 <? amt); simpl; [| exact Hl].
    destruct (amt <=? _); simpl; [| exact Hl].
    by apply commit_other_at_most_once.
  - unfold creditForPayout. destruct (0 <? amt); simpl; [| exact Hl].
    by apply commit_other_at_most_once.
Qed.

Lemma run_at_most_once (ops : list Op) (l : Ledger.t) :
  deposited_at_most_once l -> deposited_at_most_once (run l ops).
Proof.
  revert l. induction ops as [| op ops IH]; intros l Hl; simpl; [exact Hl |].
  apply IH, apply_at_most_once, Hl.
Qed.

Lemma creditForDeposit_fresh (l : Ledger.t) addr amt tx now :
  recorded l deposit tx = false ->
  creditForDeposit l addr amt tx now
  = Ok (getBalance l addr + amt,
        commit l addr deposit amt (getBalance l addr) (getBalance l addr + amt)
               (Some tx) None now).
Proof. intros H. unfold creditForDeposit. rewrite H. reflexivity. Qed.

Lemma creditForDeposit_replayed (l : Ledger.t) addr amt tx now :
  recorded l deposit tx = true ->
  creditForDeposit l addr amt tx now = Err DuplicateTransaction.
Proof. intros H. unfold creditForDeposit. rewrite H. reflexivity. Qed.

(** After a call of [recordDeposit] the hash is recorded, whether the call
    applied the deposit or found it applied. *)
Lemma recordDeposit_records (l : Ledger.t) addr amt tx now :
  recorded (snd (recordDeposit l addr amt tx now)) deposit tx = true.
Proof.
  unfold recordDeposit. destruct (recorded l deposit tx) eqn:Hrec.
  - rewrite (creditForDeposit_replayed _ _ _ _ _ Hrec). exact Hrec.
  - rewrite (creditForDeposit_fresh _ _ _ _ _ Hrec). simpl. apply recorded_commit.
Qed.
End DepositFacts.

(** C3. [recordDeposit] is idempotent on the transaction hash. On every
    ledger that deposits, withdrawals, bet debits and payout credits lead
    to, a call with a hash followed by a second call with the same hash
    leaves exactly one deposit entry for that hash in the audit log. The
    second call finds the hash recorded ([DuplicateTransaction]), is
    answered as a success with the balance as it stands, and changes
    nothing. The first call, when the hash was not recorded before, wrote
    that one entry and credited the amount once; when it was, it changed
    nothing either. *)
Theorem deposit_idempotent (ops : list Ledger.Op) (addr : string) (amt : Z) (tx : string)
        (now later : Z) :
  let l := Ledger.run Ledger.empty ops in
  let first := Ledger.recordDeposit l addr amt tx now in
  let second := Ledger.recordDeposit (snd first) addr amt tx later in
  let entry :=
    Ledger.AuditEntry.make (Z.of_nat (length (Ledger.audit l)) + 1) addr Ledger.deposit amt
      (Ledger.getBalance l addr) (Ledger.getBalance l addr + amt) (Some tx) None now in
  length (Ledger.entries_for (snd second) Ledger.deposit tx) = 1%nat
  /\ Ledger.creditForDeposit (snd first) addr amt tx later = Err Ledger.DuplicateTransaction
  /\ second = (Ok (Ledger.getBalance (snd first) addr), snd first)
  /\ (if Ledger.recorded l Ledger.deposit tx
      then first = (Ok (Ledger.getBalance l addr), l)
      else fst first = Ok (Ledger.getBalance l addr + amt)%Z
           /\ Ledger.audit (snd first) = Ledger.audit l ++ [entry]
           /\ Ledger.entries_for (snd first) Ledger.deposit tx = [entry]
           /\ Ledger.getBalance (snd first) addr = (Ledger.getBalance l addr + amt)%Z
           /\ (forall other, other <> addr ->
                             Ledger.getBalance (snd first) other = Ledger.getBalance l other)).
Proof.
  intros l first second entry.
  assert (Hunique : deposited_at_most_once l).
  { apply run_at_most_once. intros tx'. simpl. lia. }
  assert (Hdup : Ledger.creditForDeposit (snd first) addr amt tx later
                 = Err Ledger.DuplicateTransaction).
  { apply creditForDeposit_replayed, recordDeposit_records. }
  assert (Hsecond : second = (Ok (Ledger.getBalance (snd first) addr), snd first)).
  { unfold second, Ledger.recordDeposit. rewrite Hdup. reflexivity. }
  assert (Hfirst : if Ledger.recorded l Ledger.deposit tx
                   then first = (Ok (Ledger.getBalance l addr), l)
                   else first
                        = (Ok (Ledger.getBalance l addr + amt)%Z,
                           Ledger.commit l addr Ledger.deposit amt (Ledger.getBalance l addr)
                             (Ledger.getBalance l addr + amt)%Z (Some tx) None now)).
  { unfold first, Ledger.recordDeposit.
    destruct (Ledger.recorded l Ledger.deposit tx) eqn:Hrec.
    - by rewrite (creditForDeposit_replayed _ _ _ _ _ Hrec).
    - by rewrite (creditForDeposit_fresh _ _ _ _ _ Hrec). }
  split; [| split; [exact Hdup | split; [exact Hsecond |]]].
  - rewrite Hsecond. simpl.
    destruct (Ledger.recorded l Ledger.deposit tx) eqn:Hrec; rewrite Hfirst; simpl.
    + pose proof (entries_for_recorded _ _ _ Hrec). specialize (Hunique tx). lia.
    + rewrite entries_for_commit, (entries_for_fresh _ _ _ Hrec). simpl.
      unfold Ledger.matches. simpl. by rewrite String.eqb_refl.
  - destruct (Ledger.recorded l Ledger.deposit tx) eqn:Hrec; [exact Hfirst |].
    rewrite Hfirst. simpl. split; [reflexivity |]. split; [reflexivity |]. split; [| split].
    + rewrite entries_for_commit, (entries_for_fresh _ _ _ Hrec). simpl.
      unfold Ledger.matches. simpl. by rewrite String.eqb_refl.
    + rewrite getBalance_commit. case_decide; [reflexivity | congruence].
    + intros other Hother. rewrite getBalance_commit. case_decide; [congruence | reflexivity].
Qed.

(** C3, witness: on the ledger that already holds a withdrawal under
    "0xB", the deposit of 100 under "0xD" is delivered twice; the balance
    goes from 50 to 150 once and the log holds one entry for "0xD". *)
Lemma deposit_idempotent_witness :
  let first := Ledger.recordDeposit ledger_after_0xB "alice" 100 "0xD" 3 in
  let second := Ledger.recordDeposit (snd first) "alice" 100 "0xD" 4 in
  fst first = Ok 150%Z
  /\ second = (Ok 150%Z, snd first)
  /\ length (Ledger.entries_for (snd second) Ledger.deposit "0xD") = 1%nat.
Proof.
  intros first second.
  pose proof (deposit_idempotent
                [ Ledger.Chain (Ledger.ChainEvent.make Ledger.Deposit "alice" 100 "0xA" 1) 1%Z;
                  Ledger.Chain (Ledger.ChainEvent.make Ledger.Withdrawal "alice" 50 "0xB" 2)
                               2%Z ]
                "alice" 100%Z "0xD" 3%Z 4%Z) as (Hone & _ & Hsecond & Hfirst).
  fold ledger_after_0xB in Hone, Hsecond, Hfirst.
  change (Ledger.recorded ledger_after_0xB Ledger.deposit "0xD") with false in Hfirst.
  destruct Hfirst as (Hanswer & _ & _ & Hbalance & _).
  subst first second. cbv zeta in *.
  split; [exact Hanswer |]. split; [| exact Hone].
  rewrite Hsecond, Hbalance. reflexivity.
Defined.

(** ** Concurrent bets on one balance *)

Section SerializedFacts.
Import Ledger Settlement BetAdmission Serialized.
Local Open Scope Z_scope.

Lemma place_bet_on_covered (before : Z) (e : Engine) (r : Request) (now : Z) :
  0 < amount r -> valid_target r = true -> amount r <= before ->
  exists bet e',
    place_bet_on before e r now = Ok (bet, e')
    /\ getBalance (ledger e') (address r) = before - amount r.
Proof.
  intros Hpos Hvalid Hle. unfold place_bet_on, debit_bet_on.
  destruct (0 <? amount r) eqn:E1; [| apply Z.ltb_ge in E1; lia].
  rewrite Hvalid.
  destruct (amount r <=? before) eqn:E2; [| apply Z.leb_gt in E2; lia].
  simpl. eexists. eexists. split; [reflexivity |].
  simpl. rewrite getBalance_commit. case_decide; [reflexivity | congruence].
Qed.

Lemma place_bet_on_short (before : Z) (e : Engine) (r : Request) (now : Z) :
  0 < amount r -> valid_target r = true -> before < amount r ->
  place_bet_on before e r now = Err InsufficientFunds.
Proof.
  intros Hpos Hvalid Hlt. unfold place_bet_on, debit_bet_on.
  destruct (0 <? amount r) eqn:E1; [| apply Z.ltb_ge in E1; lia].
  rewrite Hvalid.
  destruct (amount r <=? before) eqn:E2; [apply Z.leb_le in E2; lia |].
  reflexivity.
Qed.

Lemma step_requests (s : System) (w : Worker) (now : Z) :
  request_first (step s w now) = request_first s
  /\ request_second (step s w now) = request_second s.
Proof.
  unfold step, update.
  destruct w, (progress s _); simpl;
    repeat match goal with
      | |- context [match ?x with _ => _ end] => destruct x
      end; simpl; auto.
Qed.

Lemma step_full_balance_requests (addr : string) (full : Z) (s : System) (w : Worker)
      (now : Z) :
  full_balance_requests addr full s -> full_balance_requests addr full (step s w now).
Proof.
  unfold full_balance_requests. destruct (step_requests s w now) as [-> ->]. auto.
Qed.

(** Rewrite the state of the scope with what the invariant says of it. *)
Ltac scope_facts :=
  repeat match goal with
    | H : _ /\ _ |- _ => destruct H
    | H : holder _ !! _ = _ |- _ => rewrite H in *
    end.

Lemma step_serial_invariant (addr : string) (full : Z) (s : System) (w : Worker) (now : Z) :
  full_balance_requests addr full s ->
  serial_invariant addr full s -> serial_invariant addr full (step s w now).
Proof.
  intros (Hpos & Ha1 & Ha2 & Hm1 & Hm2 & Hv1 & Hv2) Hinv.
  unfold serial_invariant, step, progress, request in *.
  destruct w;
    destruct (progress_first s) as [| | b1 | r1] eqn:E1;
    destruct (progress_second s) as [| | b2 | r2] eqn:E2;
    try contradiction; rewrite ?Ha1, ?Ha2; scope_facts; subst;
    unfold update; simpl; rewrite ?E1, ?E2;
    rewrite ?lookup_insert_eq, ?lookup_delete_eq; auto.
  all: try match goal with
       | |- context [place_bet_on ?b ?e ?r ?t] =>
           first
             [ destruct (place_bet_on_covered b e r t) as (bet & e' & -> & Hheld);
               [lia | assumption | lia |]
             | rewrite (place_bet_on_short b e r t); [| lia | assumption | lia] ]
       end; simpl; rewrite ?E1, ?E2, ?lookup_delete_eq.
  all: rewrite ?Ha1, ?Ha2 in *.
  all: repeat split; auto; try lia.
  all: try (left; split; [assumption | reflexivity]).
  all: try (right; split; [reflexivity | assumption]).
Qed.

Lemma run_serial_invariant (addr : string) (full : Z) (schedule : list (Worker * Z))
      (s : System) :
  full_balance_requests addr full s -> serial_invariant addr full s ->
  full_balance_requests addr full (run s schedule)
  /\ serial_invariant addr full (run s schedule).
Proof.
  revert s. induction schedule as [| [w now] schedule IH]; intros s Hreq Hinv; simpl.
  - split; assumption.
  - apply IH.
    + by apply step_full_balance_requests.
    + by apply step_serial_invariant.
Qed.

Lemma start_serial_invariant (e : Engine) (r1 r2 : Request) :
  serial_invariant (address r1) (getBalance (ledger e) (address r1)) (start e r1 r2).
Proof. unfold serial_invariant, start. simpl. split; [apply lookup_empty | reflexivity]. Qed.

Lemma serial_invariant_exclusive (addr : string) (full : Z) (s : System) (w : Worker) :
  serial_invariant addr full s ->
  inside (progress s w) = true -> inside (progress s (other w)) = false.
Proof.
  unfold serial_invariant, progress.
  destruct w; simpl; destruct (progress_first s), (progress_second s); simpl;
    auto; try discriminate; contradiction.
Qed.

Lemma serial_invariant_outcomes (addr : string) (full : Z) (s : System) :
  serial_invariant addr full s ->
  succeeded (progress_first s) && succeeded (progress_second s) = false
  /\ (returned (progress_first s) = true -> returned (progress_second s) = true ->
      (succeeded (progress_first s) = true /\ insufficient (progress_second s) = true)
      \/ (insufficient (progress_first s) = true /\ succeeded (progress_second s) = true)).
Proof.
  unfold serial_invariant.
  destruct (progress_first s) as [| | b1 | r1], (progress_second s) as [| | b2 | r2];
    simpl; try tauto; try (intros; split; [reflexivity | discriminate]);
    try (intros; split; [apply andb_false_r | discriminate]).
  intros (_ & _ & [[H1 ->] | [-> H2]]).
  - destruct r1; [| discriminate]. split; [reflexivity |]. intros _ _. left. auto.
  - destruct r2; [| discriminate]. split; [reflexivity |]. intros _ _. right. auto.
Qed.

Lemma serial_invariant_debited_once (addr : string) (full : Z) (s : System) :
  serial_invariant addr full s ->
  returned (progress_first s) = true -> returned (progress_second s) = true ->
  getBalance (ledger (engine s)) addr = 0.
Proof.
  unfold serial_invariant.
  destruct (progress_first s), (progress_second s); simpl; try discriminate.
  intros (_ & Hheld & _) _ _. exact Hheld.
Qed.

Lemma step_other (s : System) (w : Worker) (now : Z) :
  progress (step s w now) (other w) = progress s (other w).
Proof.
  unfold step, update, progress.
  destruct w; simpl;
    repeat match goal with
      | |- context [match ?x with _ => _ end] => destruct x
      end; reflexivity.
Qed.

Lemma step_advance (addr : string) (full : Z) (s : System) (w : Worker) (now : Z) :
  full_balance_requests addr full s -> serial_invariant addr full s ->
  inside (progress s (other w)) = false ->
  turns_left (progress (step s w now) w) = Nat.pred (turns_left (progress s w)).
Proof.
  intros (Hpos & Ha1 & Ha2 & Hm1 & Hm2 & Hv1 & Hv2) Hinv Hout.
  unfold serial_invariant, step, progress, request in *.
  destruct w; simpl in *;
    destruct (progress_first s) as [| | b1 | r1] eqn:E1;
    destruct (progress_second s) as [| | b2 | r2] eqn:E2;
    try contradiction; try discriminate; rewrite ?Ha1, ?Ha2; scope_facts;
    unfold update; simpl; rewrite ?E1, ?E2; try reflexivity;
    match goal with
    | |- context [place_bet_on ?b ?e ?r ?t] => destruct (place_bet_on b e r t) as [[? ?] |]
    end; simpl; rewrite ?E1, ?E2; reflexivity.
Qed.

Lemma turns_return (addr : string) (full : Z) (s : System) (w : Worker) (now : Z) :
  full_balance_requests addr full s -> serial_invariant addr full s ->
  inside (progress s (other w)) = false ->
  returned (progress (run s (turns w now)) w) = true.
Proof.
  intros Hreq Hinv Hout. unfold turns, run. cbn [fold_left fst snd].
  set (s1 := step s w now). set (s2 := step s1 w now). set (s3 := step s2 w now).
  assert (Hreq1 : full_balance_requests addr full s1) by by apply step_full_balance_requests.
  assert (Hinv1 : serial_invariant addr full s1) by by apply step_serial_invariant.
  assert (Hout1 : inside (progress s1 (other w)) = false)
    by (unfold s1; by rewrite step_other).
  assert (Hreq2 : full_balance_requests addr full s2) by by apply step_full_balance_requests.
  assert (Hinv2 : serial_invariant addr full s2) by by apply step_serial_invariant.
  assert (Hout2 : inside (progress s2 (other w)) = false)
    by (unfold s2; by rewrite step_other).
  pose proof (step_advance addr full s w now Hreq Hinv Hout) as H1.
  pose proof (step_advance addr full s1 w now Hreq1 Hinv1 Hout1) as H2.
  pose proof (step_advance addr full s2 w now Hreq2 Hinv2 Hout2) as H3.
  fold s1 in H1. fold s2 in H2. fold s3 in H3.
  assert (Hzero : turns_left (progress s3 w) = 0%nat).
  { rewrite H3, H2, H1. destruct (progress s w); reflexivity. }
  destruct (progress s3 w); simpl in Hzero; try discriminate. reflexivity.
Qed.

Lemma returned_stays (s : System) (w w' : Worker) (now : Z) :
  returned (progress s w) = true -> returned (progress (step s w' now) w) = true.
Proof.
  intros H. destruct w, w'.
  - unfold step. destruct (progress s First) eqn:E; try discriminate. by rewrite E.
  - change First with (other Second). by rewrite step_other.
  - change Second with (other First). by rewrite step_other.
  - unfold step. destruct (progress s Second) eqn:E; try discriminate. by rewrite E.
Qed.

Lemma returned_stays_run (schedule : list (Worker * Z)) (s : System) (w : Worker) :
  returned (progress s w) = true -> returned (progress (run s schedule) w) = true.
Proof.
  revert s. induction schedule as [| [w' now] schedule IH]; intros s H; simpl; [exact H |].
  apply IH, returned_stays, H.
Qed.

Lemma returned_outside (p : Progress) : returned p = true -> inside p = false.
Proof. destruct p; simpl; auto; discriminate. Qed.

Lemma run_app (s : System) (before after : list (Worker * Z)) :
  run s (before ++ after) = run (run s before) after.
Proof. unfold run. apply fold_left_app. Qed.

Lemma turns_other (s : System) (w : Worker) (now : Z) :
  progress (run s (turns w now)) (other w) = progress s (other w).
Proof. unfold turns, run. cbn [fold_left fst snd]. by rewrite !step_other. Qed.

(** After its three turns a handler is outside the scope: it has returned,
    or the other handler is inside and kept it waiting. *)
Lemma turns_leave_outside (addr : string) (full : Z) (s : System) (w : Worker) (now : Z) :
  full_balance_requests addr full s -> serial_invariant addr full s ->
  inside (progress (run s (turns w now)) w) = false.
Proof.
  intros Hreq Hinv.
  destruct (inside (progress s (other w))) eqn:Hother.
  - destruct (run_serial_invariant addr full (turns w now) s Hreq Hinv) as [_ Hinv'].
    destruct (inside (progress (run s (turns w now)) w)) eqn:Hin; [| reflexivity].
    pose proof (serial_invariant_exclusive addr full _ w Hinv' Hin) as Hout.
    rewrite turns_other in Hout. congruence.
  - apply returned_outside. by apply (turns_return addr full).
Qed.

Lemma completion_returns (addr : string) (full : Z) (s : System) (now : Z) :
  full_balance_requests addr full s -> serial_invariant addr full s ->
  returned (progress_first (run s (completion now))) = true
  /\ returned (progress_second (run s (completion now))) = true.
Proof.
  intros Hreq Hinv. unfold completion. rewrite !run_app.
  pose proof (turns_leave_outside addr full s First now Hreq Hinv) as Hout1.
  destruct (run_serial_invariant addr full (turns First now) s Hreq Hinv) as [Hreq1 Hinv1].
  revert Hout1 Hreq1 Hinv1. generalize (run s (turns First now)). clear s Hreq Hinv.
  intros s1 Hout1 Hreq1 Hinv1.
  pose proof (turns_return addr full s1 Second now Hreq1 Hinv1 Hout1) as Hback2.
  destruct (run_serial_invariant addr full (turns Second now) s1 Hreq1 Hinv1)
    as [Hreq2 Hinv2].
  revert Hback2 Hreq2 Hinv2. generalize (run s1 (turns Second now)). clear s1 Hout1 Hreq1 Hinv1.
  intros s2 Hback2 Hreq2 Hinv2. split.
  - apply (turns_return addr full s2 First now Hreq2 Hinv2).
    apply returned_outside. exact Hback2.
  - apply (returned_stays_run (turns First now) s2 Second). exact Hback2.
Qed.
End SerializedFacts.

(** Without the mutual-exclusion scope the same two calls, interleaved the
    same way, both read the balance of 100 and both succeed. *)
Lemma unserialized_calls_both_succeed :
  let final :=
    Serialized.run_unserialized (Serialized.start engine_of_alice all_in_up all_in_down)
                                interleaved in
  Serialized.succeeded (Serialized.progress_first final) = true
  /\ Serialized.succeeded (Serialized.progress_second final) = true.
Proof. vm_compute. split; reflexivity. Qed.

(** C7. Two calls of [placeBet] for the same address run at the same time,
    each with a valid target and each staking the full balance, which is
    positive. Operations on one address being serialized, under every
    schedule of the two handlers: at no point have both succeeded; given
    their turns, both return; and then exactly one has succeeded, the other
    has failed with [InsufficientFunds], and the balance, debited once, is
    zero. *)
Theorem concurrent_full_balance_bets (e : BetAdmission.Engine)
        (r1 r2 : BetAdmission.Request) (schedule : list (Serialized.Worker * Z)) (now : Z) :
  let full := Ledger.getBalance (BetAdmission.ledger e) (BetAdmission.address r1) in
  BetAdmission.address r2 = BetAdmission.address r1 ->
  BetAdmission.amount r1 = full ->
  BetAdmission.amount r2 = full ->
  (0 < full)%Z ->
  BetAdmission.valid_target r1 = true ->
  BetAdmission.valid_target r2 = true ->
  let midway := Serialized.run (Serialized.start e r1 r2) schedule in
  let final := Serialized.run (Serialized.start e r1 r2) (schedule ++ Serialized.completion now) in
  Serialized.succeeded (Serialized.progress_first midway)
  && Serialized.succeeded (Serialized.progress_second midway) = false
  /\ Serialized.returned (Serialized.progress_first final) = true
  /\ Serialized.returned (Serialized.progress_second final) = true
  /\ ((Serialized.succeeded (Serialized.progress_first final) = true
       /\ Serialized.insufficient (Serialized.progress_second final) = true)
      \/ (Serialized.insufficient (Serialized.progress_first final) = true
          /\ Serialized.succeeded (Serialized.progress_second final) = true))
  /\ Ledger.getBalance (BetAdmission.ledger (Serialized.engine final))
                       (BetAdmission.address r1)
     = 0%Z.
Proof.
  intros full Haddr Hm1 Hm2 Hpos Hv1 Hv2 midway final.
  assert (Hreq : Serialized.full_balance_requests (BetAdmission.address r1) full
                   (Serialized.start e r1 r2)).
  { unfold Serialized.full_balance_requests, Serialized.start. simpl. auto 10. }
  pose proof (start_serial_invariant e r1 r2) as Hinv. fold full in Hinv.
  destruct (run_serial_invariant _ _ schedule _ Hreq Hinv) as [Hreq_mid Hinv_mid].
  fold midway in Hreq_mid, Hinv_mid.
  split; [apply (serial_invariant_outcomes _ _ _ Hinv_mid) |].
  assert (Hfinal : final = Serialized.run midway (Serialized.completion now)).
  { unfold final, midway. apply run_app. }
  destruct (completion_returns _ _ midway now Hreq_mid Hinv_mid) as [Hback1 Hback2].
  destruct (run_serial_invariant _ _ (Serialized.completion now) _ Hreq_mid Hinv_mid)
    as [_ Hinv_final].
  rewrite <- Hfinal in Hback1, Hback2, Hinv_final.
  split; [exact Hback1 |]. split; [exact Hback2 |].
  destruct (serial_invariant_outcomes _ _ _ Hinv_final) as [_ Hone].
  split; [apply Hone; assumption |].
  by apply (serial_invariant_debited_once _ full).
Qed.

(** C7, witness: alice's balance of 100, staked twice under an interleaved
    schedule. *)
Lemma concurrent_full_balance_bets_witness :
  let final :=
    Serialized.run (Serialized.start engine_of_alice all_in_up all_in_down)
                   (interleaved ++ Serialized.completion 20) in
  (Serialized.succeeded (Serialized.progress_first final) = true
   /\ Serialized.insufficient (Serialized.progress_second final) = true)
  \/ (Serialized.insufficient (Serialized.progress_first final) = true
      /\ Serialized.succeeded (Serialized.progress_second final) = true).
Proof.
  destruct (concurrent_full_balance_bets engine_of_alice all_in_up all_in_down interleaved 20)
    as (_ & _ & _ & Hone & _).
  - reflexivity.
  - vm_compute. reflexivity.
  - vm_compute. reflexivity.
  - vm_compute. reflexivity.
  - vm_compute. reflexivity.
  - vm_compute. reflexivity.
  - exact Hone.
Defined.

(** ** Worked examples *)

(** [parseFloat] reads the longest decimal prefix, rounds to the nearest
    binary64 and gives NaN when there is no number to read. *)
Example parseFloat_examples :
  JS.parseFloat "2.50" = JS.div (JS.of_Z 5) (JS.of_Z 2)
  /\ JS.parseFloat "  10abc" = JS.of_Z 10
  /\ JS.parseFloat ".5e1" = JS.of_Z 5
  /\ JS.parseFloat "-0" = S754_zero true
  /\ JS.parseFloat "" = JS.NaN
  /\ JS.parseFloat "abc" = JS.NaN
  /\ JS.add (JS.parseFloat "0.1") (JS.parseFloat "0.2") = JS.parseFloat "0.30000000000000004"
  /\ JS.split "-" "DOWN-1.80" = ["DOWN"; "1.80"]
  /\ JS.split "-" "UP-" = ["UP"; ""].
Proof. repeat split; reflexivity. Qed.

(** A deposit of 7 into an empty treasury followed by a withdrawal of 3
    leaves 4 and hands a coin of 3 to the sender. *)
Example treasury_deposit_then_withdraw :
  let ctx := alice_ctx in
  let t0 := Treasury.create_treasury ctx in
  let t1 := Treasury.commit t0 (Treasury.CallDeposit (Treasury.mkCoin 9 (Treasury.mkBalance 7)) ctx) in
  Treasury.get_balance t1 = 7%Z
  /\ exists eff,
      Treasury.withdraw t1 3 ctx = Ok eff
      /\ Treasury.get_balance (Treasury.treasury_after eff) = 4%Z
      /\ Treasury.events eff = [Treasury.WithdrawalEvent "0xa11ce" 3 1700000000000].
Proof. split; [reflexivity |]. eexists. repeat split; reflexivity. Qed.

(** The end-to-end scenario of the specification, step by step: 100 after
    the deposit, 90 and a pending bet after the stake, Won with a payout of
    20 at 50006, 110 after the credit, 60 after withdrawing 50, with one
    audit entry per step. *)
Example end_to_end_scenario :
  Ledger.getBalance (BetAdmission.ledger scenario_deposited) "alice" = 100%Z
  /\ exists bet staked,
      BetAdmission.placeBet scenario_deposited scenario_request 2 = Ok (bet, staked)
      /\ Settlement.Bet.status bet = Settlement.Pending
      /\ Settlement.Bet.deadline bet = 32%Z
      /\ Ledger.getBalance (BetAdmission.ledger staked) "alice" = 90%Z
      /\ Settlement.Bet.status (fst (Settlement.settle bet 50006 32)) = Settlement.Won
      /\ snd (Settlement.settle bet 50006 32) = 20%Q
      /\ Settlement.settle (fst (Settlement.settle bet 50006 32)) 50006 33
         = (fst (Settlement.settle bet 50006 32), 0%Q)
      /\ exists credited withdrawn,
          Ledger.creditForPayout (BetAdmission.ledger staked) "alice" 20 "1" 32
          = Ok (110%Z, credited)
          /\ Ledger.recordWithdrawal credited "alice" 50 "0xB" 40 = (Ok 60%Z, withdrawn)
          /\ length (Ledger.audit withdrawn) = 4%nat
          /\ map Ledger.AuditEntry.operationType (Ledger.audit withdrawn)
             = [Ledger.deposit; Ledger.bet_placed; Ledger.bet_won; Ledger.withdrawal].
Proof.
  split; [reflexivity |]. eexists. eexists. split; [reflexivity |].
  repeat (split; [reflexivity |]).
  eexists. eexists. repeat split; reflexivity.
Qed.

(** Every configured target cell pairs UP with a positive and DOWN with a
    negative price change, and has a multiplier above 1. *)
Example default_cells_consistent :
  forallb
    (fun c =>
       (if GameSlice.is_UP (GameSlice.TargetCell.direction c)
        then JS.ltb (JS.of_Z 0) (GameSlice.TargetCell.priceChange c)
        else JS.ltb (GameSlice.TargetCell.priceChange c) (JS.of_Z 0))
       && JS.ltb (JS.of_Z 1) (GameSlice.TargetCell.multiplier c))
    GameSlice.DEFAULT_TARGET_CELLS
  = true.
Proof. reflexivity. Qed.

(** * Further properties of the sources *)

(** ** The treasury contract: deposits, and what the events account for *)

Section TreasuryAccounts.
Import Treasury.
Local Open Scope Z_scope.

Lemma net_flow_app (es es' : list Event) : net_flow (es ++ es') = net_flow es + net_flow es'.
Proof.
  unfold net_flow. induction es as [| e es IH]; simpl; [reflexivity | rewrite IH; lia].
Qed.

Lemma withdrawals_app (es es' : list Event) :
  withdrawals (es ++ es') = withdrawals es ++ withdrawals es'.
Proof. unfold withdrawals. apply flat_map_app. Qed.

Lemma paid_out_app (ts ts' : list (Coin * address)) :
  paid_out (ts ++ ts') = paid_out ts ++ paid_out ts'.
Proof. unfold paid_out. apply map_app. Qed.

(** One committed call: its event says by how much the balance moved, and
    a withdrawal pays out what its event says, to the user it names. *)
Lemma execute_accounted (t : Treasury) (c : Call) (eff : Effects) :
  execute t c = Ok eff ->
  get_balance (treasury_after eff) = get_balance t + net_flow (events eff)
  /\ paid_out (transfers eff) = withdrawals (events eff).
Proof.
  destruct c as [payment ctx | amount ctx]; simpl; intros H.
  - apply deposit_ok in H as Hbalance. destruct Hbalance as (_ & Hbalance & _).
    unfold deposit in H. ok_inv H. ok_inv H. injection H as <-.
    simpl in *. unfold net_flow. simpl. split; [lia | reflexivity].
  - unfold withdraw, balance_split in H. ok_inv H. ok_inv Hv. injection Hv as <-.
    injection H as <-. unfold get_balance, balance_value, net_flow. simpl.
    split; [lia | reflexivity].
Qed.

Lemma deposit_committed (t : Treasury) (payment : Coin) (ctx : TxContext) (eff : Effects) :
  deposit t payment ctx = Ok eff ->
  0 < coin_value payment
  /\ eff = mkEffects (mkTreasury (id t) (mkBalance (get_balance t + coin_value payment))) ctx
                     [DepositEvent (sender ctx) (coin_value payment) (epoch_timestamp_ms ctx)]
                     [].
Proof.
  unfold deposit, balance_join, get_balance, balance_value, coin_into_balance, coin_value.
  destruct (0 <? _) eqn:Hpos; simpl; [| discriminate].
  destruct (_ <=? u64_max); simpl; [| discriminate].
  intros H. injection H as <-. apply Z.ltb_lt in Hpos. split; [exact Hpos | reflexivity].
Qed.

Lemma submit_shared (c : Chain) (call : Call) : shared (submit c call) = commit (shared c) call.
Proof. unfold submit, commit. by destruct (execute (shared c) call). Qed.
End TreasuryAccounts.

(** X1. [deposit] commits exactly when the coin is worth more than zero and
    the sum still fits a [u64]. It then adds exactly the coin's value to the
    held balance, keeps the treasury's id, emits one [DepositEvent] naming
    the sender, the value and the epoch timestamp, and transfers nothing. A
    coin worth nothing aborts with [EZeroAmount]. *)
Theorem deposit_outcomes (t : Treasury.Treasury) (payment : Treasury.Coin)
        (ctx : Treasury.TxContext) :
  let v := Treasury.coin_value payment in
  match Treasury.deposit t payment ctx with
  | Ok eff =>
      (0 < v)%Z
      /\ (Treasury.get_balance t + v <= Treasury.u64_max)%Z
      /\ Treasury.treasury_after eff
         = Treasury.mkTreasury (Treasury.id t)
                               (Treasury.mkBalance (Treasury.get_balance t + v))
      /\ Treasury.events eff
         = [Treasury.DepositEvent (Treasury.sender ctx) v (Treasury.epoch_timestamp_ms ctx)]
      /\ Treasury.transfers eff = []
      /\ Treasury.ctx_after eff = ctx
  | Err a =>
      ((v <= 0)%Z /\ a = Treasury.Assert Treasury.EZeroAmount)
      \/ ((0 < v)%Z /\ (Treasury.u64_max < Treasury.get_balance t + v)%Z
          /\ a = Treasury.ArithmeticOverflow)
  end.
Proof.
  intros v. subst v.
  unfold Treasury.deposit, Treasury.balance_join, Treasury.get_balance,
    Treasury.balance_value, Treasury.coin_into_balance, Treasury.coin_value.
  destruct (0 <? _)%Z eqn:Hpos; simpl.
  - apply Z.ltb_lt in Hpos.
    destruct (_ <=? Treasury.u64_max)%Z eqn:Hfits; simpl.
    + apply Z.leb_le in Hfits. repeat split; assumption.
    + apply Z.leb_gt in Hfits. right. repeat split; assumption.
  - apply Z.ltb_ge in Hpos. left. split; [assumption | reflexivity].
Qed.

(** X2. The events account for the treasury. After any sequence of
    transactions, committed or aborted, the held balance is the balance at
    the start plus the amounts of the [DepositEvent]s minus the amounts of
    the [WithdrawalEvent]s emitted, and the coins that left the treasury are
    exactly those the [WithdrawalEvent]s report: one coin per event, of the
    event's amount, sent to the event's user, in the same order. So the
    treasury never pays out more than it held at the start and took in
    since. *)
Theorem events_account_for_balance (t : Treasury.Treasury) (calls : list Treasury.Call) :
  let chain := Treasury.replay t calls in
  Treasury.shared chain = Treasury.run t calls
  /\ Treasury.get_balance (Treasury.shared chain)
     = (Treasury.get_balance t + Treasury.net_flow (Treasury.emitted chain))%Z
  /\ Treasury.paid_out (Treasury.transferred chain)
     = Treasury.withdrawals (Treasury.emitted chain)
  /\ (Treasury.is_u64 (Treasury.get_balance t) ->
      (0 <= Treasury.get_balance t + Treasury.net_flow (Treasury.emitted chain))%Z).
Proof.
  unfold Treasury.replay, Treasury.run.
  assert (Hgen : forall c,
             let chain := fold_left Treasury.submit calls c in
             Treasury.shared chain = fold_left Treasury.commit calls (Treasury.shared c)
             /\ (Treasury.get_balance (Treasury.shared chain)
                 - Treasury.net_flow (Treasury.emitted chain)
                 = Treasury.get_balance (Treasury.shared c)
                   - Treasury.net_flow (Treasury.emitted c))%Z
             /\ (Treasury.paid_out (Treasury.transferred c)
                 = Treasury.withdrawals (Treasury.emitted c) ->
                 Treasury.paid_out (Treasury.transferred chain)
                 = Treasury.withdrawals (Treasury.emitted chain))).
  { induction calls as [| call calls IH]; intros c; simpl; [auto |].
    destruct (IH (Treasury.submit c call)) as (Hshared & Hflow & Hpaid).
    rewrite submit_shared in Hshared. split; [exact Hshared |].
    destruct (Treasury.execute (Treasury.shared c) call) as [eff |] eqn:Hexec.
    - assert (Hsubmit : Treasury.submit c call
                        = Treasury.mkChain (Treasury.treasury_after eff)
                            (Treasury.emitted c ++ Treasury.events eff)
                            (Treasury.transferred c ++ Treasury.transfers eff))
        by (unfold Treasury.submit; by rewrite Hexec).
      destruct (execute_accounted _ _ _ Hexec) as (Hbalance & Hout).
      rewrite Hsubmit in Hflow at 3 4. rewrite Hsubmit in Hpaid at 1 2.
      cbn [Treasury.shared Treasury.emitted Treasury.transferred] in Hflow, Hpaid.
      rewrite net_flow_app in Hflow. split; [lia |].
      intros Hc. apply Hpaid. rewrite paid_out_app, withdrawals_app. congruence.
    - assert (Hsubmit : Treasury.submit c call = c)
        by (unfold Treasury.submit; by rewrite Hexec).
      rewrite Hsubmit in Hflow at 3 4. rewrite Hsubmit in Hpaid at 1 2.
      split; [exact Hflow | exact Hpaid]. }
  destruct (Hgen (Treasury.mkChain t [] [])) as (Hshared & Hflow & Hpaid).
  simpl in *.
  assert (Hbalance : Treasury.get_balance
                       (Treasury.shared
                          (fold_left Treasury.submit calls (Treasury.mkChain t [] [])))
                     = (Treasury.get_balance t
                        + Treasury.net_flow
                            (Treasury.emitted
                               (fold_left Treasury.submit calls
                                          (Treasury.mkChain t [] []))))%Z).
  { unfold Treasury.net_flow in Hflow at 2. simpl in Hflow. lia. }
  split; [exact Hshared |]. split; [exact Hbalance |]. split; [by apply Hpaid |].
  intros Hheld. rewrite <- Hbalance, Hshared.
  by apply (run_u64 calls t) in Hheld as [Hheld _].
Qed.

(** X3. A deposit can be taken out again. After a committed [deposit] of a
    coin, a [withdraw] of the coin's value, by any sender, commits: it
    leaves the treasury exactly as it was before the deposit and sends that
    sender one coin of the same value. *)
Theorem deposit_then_withdraw_restores (t : Treasury.Treasury) (payment : Treasury.Coin)
        (ctx later : Treasury.TxContext) (eff : Treasury.Effects) :
  Treasury.is_u64 (Treasury.get_balance t) ->
  Treasury.deposit t payment ctx = Ok eff ->
  exists eff',
    Treasury.withdraw (Treasury.treasury_after eff) (Treasury.coin_value payment) later
    = Ok eff'
    /\ Treasury.treasury_after eff' = t
    /\ Treasury.paid_out (Treasury.transfers eff')
       = [(Treasury.sender later, Treasury.coin_value payment)]
    /\ Treasury.events eff'
       = [Treasury.WithdrawalEvent (Treasury.sender later) (Treasury.coin_value payment)
                                  (Treasury.epoch_timestamp_ms later)].
Proof.
  intros Hheld Hdeposit. apply deposit_committed in Hdeposit as (Hpos & ->).
  unfold Treasury.withdraw, Treasury.balance_split, Treasury.balance_value,
    Treasury.get_balance, Treasury.coin_value, Treasury.is_u64 in *.
  simpl.
  destruct (0 <? _)%Z eqn:E; [| apply Z.ltb_ge in E; lia]. simpl.
  destruct (_ <=? _)%Z eqn:E'; [| apply Z.leb_gt in E'; lia].
  simpl. eexists. split; [reflexivity |]. simpl. repeat split.
  destruct t as [tid [held]]. simpl. do 2 f_equal. lia.
Qed.

(** X3, witness: a coin of 7 paid into a treasury that holds 5, and taken
    out again. *)
Lemma deposit_then_withdraw_restores_witness :
  exists eff',
    Treasury.withdraw (Treasury.mkTreasury 1 (Treasury.mkBalance 12)) 7 alice_ctx = Ok eff'
    /\ Treasury.treasury_after eff' = treasury_of_five.
Proof.
  destruct (deposit_then_withdraw_restores treasury_of_five
              (Treasury.mkCoin 9 (Treasury.mkBalance 7)) alice_ctx alice_ctx
              (Treasury.mkEffects (Treasury.mkTreasury 1 (Treasury.mkBalance 12)) alice_ctx
                 [Treasury.DepositEvent "0xa11ce" 7 1700000000000] []))
    as (eff' & Hwithdraw & Hafter & _).
  - unfold Treasury.is_u64. vm_compute. split; discriminate.
  - reflexivity.
  - exists eff'. split; [exact Hwithdraw | exact Hafter].
Defined.

(** ** JavaScript numbers and strings *)

Section NumberFacts.
Import JS.
Local Open Scope Z_scope.

(** A number that is neither NaN nor [<= 0] is above zero. *)
Lemma above_zero (x : number) :
  isNaN x = false -> leb x (of_Z 0) = false ->
  ltb (of_Z 0) x = true /\ sign_bit x = false /\ truthy x = true.
Proof.
  change (of_Z 0) with (S754_zero false).
  destruct x as [s | s | | s m e]; try destruct s; simpl; try discriminate; auto.
Qed.

Lemma ltb_zero_sign (x : number) : ltb (of_Z 0) x = true -> sign_bit x = false.
Proof.
  change (of_Z 0) with (S754_zero false).
  destruct x as [s | s | | s m e]; try destruct s; simpl; try discriminate; auto.
Qed.

(** Rounding keeps the sign it is given. *)
Lemma binary_round_aux_sign (sx : bool) (mx ex : Z) (lx : location) :
  sign_bit (binary_round_aux prec emax sx mx ex lx) = sx
  \/ binary_round_aux prec emax sx mx ex lx = S754_nan.
Proof.
  unfold binary_round_aux.
  destruct (shr_fexp prec emax mx ex lx) as [mrs' e'].
  destruct (shr_fexp prec emax _ e' loc_Exact) as [mrs'' e''].
  destruct (shr_m mrs''); [left; reflexivity | | right; reflexivity].
  destruct (e'' <=? emax - prec); left; reflexivity.
Qed.

Lemma binary_normalize_sign (m e : Z) :
  0 <= m -> sign_bit (binary_normalize prec emax m e false) = false.
Proof.
  intros Hm. destruct m as [| p | p]; [reflexivity | | lia].
  unfold binary_normalize, binary_round.
  destruct (shl_align _ _ _) as [mz ez].
  destruct (binary_round_aux_sign false (Z.pos mz) ez loc_Exact) as [H | H];
    [exact H | by rewrite H].
Qed.

Lemma of_decimal_sign (m e : Z) : sign_bit (of_decimal false m e) = false.
Proof.
  unfold of_decimal. destruct m as [| p | p]; [reflexivity | | reflexivity].
  assert (Hgeneral : sign_bit (binary_normalize prec emax (Z.pos p * 10 ^ e) 0 false) = false).
  { apply binary_normalize_sign. destruct (Z_le_gt_dec 0 e) as [He | He].
    - pose proof (Z.pow_nonneg 10 e). lia.
    - rewrite Z.pow_neg_r by lia. lia. }
  destruct e as [| k | k]; try exact Hgeneral.
  unfold SFdiv. destruct (SFdiv_core_binary _ _ _ _ _ _) as [[mz ez] lz].
  destruct (binary_round_aux_sign (xorb false false) mz ez lz) as [H | H];
    [exact H | by rewrite H].
Qed.

Lemma avoids_trim_start (c : ascii) (s : string) :
  avoids c s = true -> avoids c (trim_start s) = true.
Proof.
  induction s as [| a rest IH]; simpl; [auto |].
  intros H. destruct (is_space a); [| exact H].
  apply andb_true_iff in H as [_ H]. auto.
Qed.

Lemma avoids_rev_app (c : ascii) (s acc : string) :
  avoids c (String.rev_app s acc) = avoids c s && avoids c acc.
Proof.
  revert acc. induction s as [| a rest IH]; intros acc; simpl; [reflexivity |].
  rewrite IH. simpl. destruct (Ascii.eqb a c), (avoids c rest); reflexivity.
Qed.

Lemma avoids_rev (c : ascii) (s : string) : avoids c (String.rev s) = avoids c s.
Proof. unfold String.rev. rewrite avoids_rev_app. simpl. apply andb_true_r. Qed.

(** The pieces [split] cuts a string into do not contain the separator. *)
Lemma split_aux_avoids (c : ascii) (s cur : string) :
  avoids c cur = true -> Forall (fun part => avoids c part = true) (split_aux c s cur).
Proof.
  revert cur. induction s as [| a rest IH]; intros cur Hcur; simpl.
  - constructor; [by rewrite avoids_rev | constructor].
  - destruct (Ascii.eqb a c) eqn:E.
    + constructor; [by rewrite avoids_rev | by apply IH].
    + apply IH. simpl. by rewrite E.
Qed.

Lemma split_avoids (c : ascii) (s : string) :
  Forall (fun part => avoids c part = true) (split c s).
Proof. by apply split_aux_avoids. Qed.

(** A string without a minus sign never parses to a negative number. *)
Lemma parseFloat_sign (s : string) :
  avoids "-" s = true -> sign_bit (parseFloat s) = false.
Proof.
  intros H. apply avoids_trim_start in H. unfold parseFloat.
  assert (Hsign : fst (read_sign (trim_start s)) = false).
  { destruct (trim_start s) as [| a rest]; [reflexivity |]. simpl in H.
    apply andb_true_iff in H as [Ha _]. unfold read_sign.
    destruct (ascii_dec a "-") as [-> | Hne]; [discriminate Ha |].
    destruct a as [[] [] [] [] [] [] [] []]; try reflexivity. congruence. }
  destruct (read_sign (trim_start s)) as [neg body]. simpl in Hsign. subst neg.
  destruct (startsWith body "Infinity"); [reflexivity |].
  destruct (read_digits body 0 0) as [[int_v int_n] after_int].
  destruct (match after_int with
            | String "." rest => read_digits rest int_v 0
            | _ => (int_v, 0, after_int)
            end) as [[m frac_n] after_frac].
  destruct (int_n + frac_n =? 0); [reflexivity | apply of_decimal_sign].
Qed.
End NumberFacts.

(** ** The game slice: what a bet placement leaves and sends *)

Section PlacementFacts.
Import JS GameSlice.
Context {ActiveRound : Type}.
Implicit Types (s : GameState ActiveRound) (w : World ActiveRound).

Lemma validate_amount_ok (amount : string) (betAmount : number) :
  validate_amount amount = Ok betAmount ->
  betAmount = parseFloat amount
  /\ isNaN betAmount = false /\ ltb (of_Z 0) betAmount = true.
Proof.
  unfold validate_amount.
  destruct (isNaN (parseFloat amount)) eqn:Hnan; cbn [orb]; [discriminate |].
  destruct (leb (parseFloat amount) (of_Z 0)) eqn:Hle; [discriminate |].
  intros H. injection H as <-. split; [reflexivity |]. split; [exact Hnan |].
  by apply above_zero.
Qed.

Lemma startsWith_cons (a b : ascii) (s p : string) :
  startsWith (String a s) (String b p) = if ascii_dec b a then startsWith s p else false.
Proof. reflexivity. Qed.

Lemma startsWith_append (p s : string) : startsWith (p +:+ s) p = true.
Proof.
  induction p as [| a p IH]; [by destruct s |].
  change (String a p +:+ s) with (String a (p +:+ s)). rewrite startsWith_cons.
  destruct (ascii_dec a a); [exact IH | congruence].
Qed.

Lemma startsWith_skip (p q s : string) :
  startsWith (p +:+ s) (p +:+ q) = startsWith s q.
Proof.
  induction p as [| a p IH]; [reflexivity |].
  change (startsWith (String a (p +:+ s)) (String a (p +:+ q)) = startsWith s q).
  rewrite startsWith_cons. destruct (ascii_dec a a); [exact IH | congruence].
Qed.

Lemma startsWith_shorter (p q s : string) :
  startsWith s (p +:+ q) = true -> startsWith s p = true.
Proof.
  revert s. induction p as [| a p IH]; intros s H; [by destruct s |].
  destruct s as [| b s]; [discriminate H |].
  change (startsWith (String b s) (String a (p +:+ q)) = true) in H.
  rewrite startsWith_cons in *. destruct (ascii_dec a b); [by apply IH | discriminate H].
Qed.

Lemma format_address_prefixed (userAddress : string) :
  startsWith (format_address userAddress) "0x" = true.
Proof.
  unfold format_address. destruct (startsWith userAddress "0x") eqn:E; [exact E |].
  apply startsWith_append.
Qed.
End PlacementFacts.

(** X4. Whatever the input and whatever the bet API answers,
    [placeBetFromHouseBalance] sends at most one request and never leaves
    the store in the placing state: when the call settles, [isPlacingBet]
    is false, and [error] holds the message the call rejected with, or is
    null when the call returned a bet. *)
Theorem placement_settles_the_flags {ActiveRound : Type}
        (w : GameSlice.World ActiveRound) (amount targetId userAddress : string)
        (cellId : option string) (s : GameSlice.GameState ActiveRound) :
  let o := GameSlice.placeBetFromHouseBalance w amount targetId userAddress cellId s in
  GameSlice.isPlacingBet (GameSlice.store o) = false
  /\ GameSlice.error (GameSlice.store o)
     = match GameSlice.settled o with
       | Ok _ => None
       | Err message => Some message
       end
  /\ (length (GameSlice.requests o) <= 1)%nat.
Proof.
  unfold GameSlice.placeBetFromHouseBalance, GameSlice.place_bet_body.
  destruct (GameSlice.validate_amount amount) as [betAmount | message]; simpl; [| auto].
  destruct (GameSlice.resolve_target _ targetId) as [target | message]; simpl; [| auto].
  destruct (GameSlice.isDemoMode _); simpl; [auto |].
  destruct (GameSlice.fetch w _); simpl; auto.
Qed.

(** X5. The address a bet is placed for always starts with "0x" once
    formatted, formatting twice changes nothing more, and the demo branch
    is taken exactly for the user addresses that start with "0xDEMO" or
    with "DEMO": an address given without its "0x" is a demo address too,
    and the test is case-sensitive. *)
Theorem demo_addresses (userAddress : string) :
  JS.startsWith (GameSlice.format_address userAddress) "0x" = true
  /\ GameSlice.format_address (GameSlice.format_address userAddress)
     = GameSlice.format_address userAddress
  /\ GameSlice.isDemoMode (GameSlice.format_address userAddress)
     = JS.startsWith userAddress "0xDEMO" || JS.startsWith userAddress "DEMO"
  /\ GameSlice.isDemoMode (GameSlice.format_address ("0xdemo" +:+ userAddress)) = false.
Proof.
  split; [apply format_address_prefixed |]. split; [| split].
  - unfold GameSlice.format_address at 1. by rewrite format_address_prefixed.
  - unfold GameSlice.format_address, GameSlice.isDemoMode.
    destruct (JS.startsWith userAddress "0x") eqn:E.
    + destruct (startsWith_app _ _ E) as [rest ->].
      change ("0x" +:+ rest) with (String "0" (String "x" rest)).
      rewrite (startsWith_cons "0" "D"). destruct (ascii_dec "D" "0"); [discriminate |].
      by rewrite orb_false_r.
    + change "0xDEMO" with ("0x" +:+ "DEMO") at 1. rewrite startsWith_skip.
      destruct (JS.startsWith userAddress "0xDEMO") eqn:E'; [| reflexivity].
      change "0xDEMO" with ("0x" +:+ "DEMO") in E'. apply startsWith_shorter in E'.
      congruence.
  - reflexivity.
Qed.

(** X6. Every request [placeBetFromHouseBalance] sends to the bet API is
    for a bet that passed the checks. In the body the server reads, the
    address starts with "0x" and is not a demo address; the amount is the
    parsed amount, a finite number above zero, or [null], which it is
    exactly when the amount parses to Infinity; the round id is the clock
    reading of the call; the target price is the price the store held when
    the call began, as [JSON.stringify] writes it; [isOver] says whether
    the direction is UP; and the target cell carries id 9, the same
    direction and a time frame of 30. *)
Theorem requests_are_well_formed {ActiveRound : Type}
        (w : GameSlice.World ActiveRound) (amount targetId userAddress : string)
        (cellId : option string) (s : GameSlice.GameState ActiveRound)
        (r : GameSlice.BetRequest.t) :
  In r (GameSlice.requests
          (GameSlice.placeBetFromHouseBalance w amount targetId userAddress cellId s)) ->
  let body := GameSlice.stringify r in
  GameSlice.BetBody.userAddress body = GameSlice.format_address userAddress
  /\ JS.startsWith (GameSlice.BetBody.userAddress body) "0x" = true
  /\ JS.startsWith (GameSlice.BetBody.userAddress body) "0xDEMO" = false
  /\ (GameSlice.BetBody.betAmount body = None
      <-> JS.parseFloat amount = S754_infinity false)
  /\ (forall x, GameSlice.BetBody.betAmount body = Some x ->
                x = JS.parseFloat amount
                /\ JS.ltb (JS.of_Z 0) x = true
                /\ exists m e, x = S754_finite false m e)
  /\ GameSlice.BetBody.roundId body = GameSlice.now_first w
  /\ GameSlice.BetBody.targetPrice body = JS.json_number (GameSlice.currentPrice s)
  /\ GameSlice.BetBody.isOver body
     = GameSlice.is_UP (GameSlice.BetBody.direction (GameSlice.BetBody.targetCell body))
  /\ GameSlice.BetBody.id (GameSlice.BetBody.targetCell body) = 9%Z
  /\ GameSlice.BetBody.timeframe (GameSlice.BetBody.targetCell body) = 30%Z.
Proof.
  unfold GameSlice.placeBetFromHouseBalance, GameSlice.place_bet_body.
  destruct (GameSlice.validate_amount amount) as [betAmount | message] eqn:Hamount;
    simpl; [| intros []].
  destruct (GameSlice.resolve_target _ targetId) as [target | message]; simpl; [| intros []].
  destruct (GameSlice.isDemoMode _) eqn:Hdemo; simpl; [intros [] |].
  apply validate_amount_ok in Hamount as (Hparsed & Hnan & Hpos).
  assert (Hsent : In r [GameSlice.bet_request w s (GameSlice.format_address userAddress)
                                              betAmount target] ->
                  r = GameSlice.bet_request w s (GameSlice.format_address userAddress)
                                            betAmount target).
  { intros [<- | []]. reflexivity. }
  assert (Hwire :
            (JS.json_number betAmount = None <-> betAmount = S754_infinity false)
            /\ (forall x, JS.json_number betAmount = Some x ->
                          x = betAmount /\ JS.ltb (JS.of_Z 0) x = true
                          /\ exists m e, x = S754_finite false m e)).
  { revert Hnan Hpos. change (JS.of_Z 0) with (S754_zero false).
    destruct betAmount as [[] | [] | | [] m e]; simpl; try discriminate; intros _ _.
    - split; [tauto |]. intros x H. discriminate H.
    - split; [split; discriminate |]. intros x H. injection H as <-. eauto. }
  destruct Hwire as [Hnull Hfinite]. rewrite Hparsed in Hnull at 2.
  assert (Hfinite' : forall x, JS.json_number betAmount = Some x ->
                               x = JS.parseFloat amount /\ JS.ltb (JS.of_Z 0) x = true
                               /\ exists m e, x = S754_finite false m e).
  { intros x Hx. destruct (Hfinite x Hx) as (-> & Hx' & Hx''). auto. }
  destruct (GameSlice.fetch w _); simpl; intros Hin; apply Hsent in Hin; subst r; simpl;
    (split; [reflexivity |]); (split; [apply format_address_prefixed |]);
    (split; [exact Hdemo |]); (split; [exact Hnull |]); (split; [exact Hfinite' |]);
    repeat split.
Qed.

(** X6, witness: "0xabc" stakes "10" on cell 2 while the bet API accepts. *)
Lemma requests_are_well_formed_witness :
  let body :=
    GameSlice.stringify
      (GameSlice.bet_request accepting_world fresh_store "0xabc" (JS.of_Z 10)
         (GameSlice.mkTarget (JS.of_Z 10) GameSlice.UP (JS.of_Z 2))) in
  GameSlice.BetBody.userAddress body = "0xabc"
  /\ GameSlice.BetBody.betAmount body = Some (JS.of_Z 10)
  /\ GameSlice.BetBody.isOver body = true.
Proof.
  intros body.
  destruct (requests_are_well_formed accepting_world "10" "2" "0xabc" None fresh_store
              (GameSlice.bet_request accepting_world fresh_store "0xabc" (JS.of_Z 10)
                 (GameSlice.mkTarget (JS.of_Z 10) GameSlice.UP (JS.of_Z 2))))
    as (Haddress & _ & _ & _ & _ & _ & _ & Hover & _).
  - left. vm_compute. reflexivity.
  - split; [exact Haddress |]. split; [vm_compute; reflexivity | exact Hover].
Defined.

(** X7. For an address that is not a demo address and a bet that passes
    the checks, the answer of the bet API decides. When the request fails
    or is answered with an error, the call rejects with the message (the
    server's, or "Failed to place bet" when the server names none), and the
    active bets are as the actions that ran during the request left them.
    When the server accepts, the call returns the server's bet id and
    remaining balance, and the bet is appended to the active bets as they
    are when the answer arrives, so a bet added during the request is
    kept. *)
Theorem bet_api_answer_decides {ActiveRound : Type}
        (w : GameSlice.World ActiveRound) (amount targetId userAddress : string)
        (cellId : option string) (s : GameSlice.GameState ActiveRound)
        (betAmount : JS.number) (target : GameSlice.Target) :
  GameSlice.validate_amount amount = Ok betAmount ->
  GameSlice.resolve_target (GameSlice.targetCells s) targetId = Ok target ->
  GameSlice.isDemoMode (GameSlice.format_address userAddress) = false ->
  let o := GameSlice.placeBetFromHouseBalance w amount targetId userAddress cellId s in
  let request :=
    GameSlice.bet_request w s (GameSlice.format_address userAddress) betAmount target in
  let during := GameSlice.meanwhile w (GameSlice.set_placing true None s) in
  GameSlice.requests o = [request]
  /\ match GameSlice.fetch w request with
     | GameSlice.NetworkError message =>
         GameSlice.settled o = Err message
         /\ GameSlice.activeBets (GameSlice.store o) = GameSlice.activeBets during
     | GameSlice.HttpError error =>
         GameSlice.settled o = Err (JS.str_or_else error "Failed to place bet")
         /\ GameSlice.activeBets (GameSlice.store o) = GameSlice.activeBets during
     | GameSlice.HttpOk betId remaining =>
         let bet :=
           GameSlice.ActiveBet.make betId (JS.str_or_else cellId targetId) betAmount
             (GameSlice.target_multiplier target) (GameSlice.target_direction target)
             (GameSlice.now_second w) in
         GameSlice.settled o = Ok (GameSlice.BetPlaced.make betId remaining bet)
         /\ GameSlice.activeBets (GameSlice.store o) = GameSlice.activeBets during ++ [bet]
     end.
Proof.
  intros Hamount Htarget Hdemo o request during. subst o request during.
  unfold GameSlice.placeBetFromHouseBalance, GameSlice.place_bet_body.
  rewrite Hamount, Htarget, Hdemo.
  destruct (GameSlice.fetch w _); simpl; repeat split.
Qed.

(** X7, witness: the server refuses a bet while another bet is added to the
    store; the refusal is reported and the other bet is kept. *)
Lemma bet_api_answer_decides_witness :
  let o := GameSlice.placeBetFromHouseBalance busy_world "10" "2" "0xabc" None fresh_store in
  GameSlice.settled o = Err "Insufficient balance"
  /\ GameSlice.activeBets (GameSlice.store o) = [btc_bet].
Proof.
  intros o.
  pose proof (bet_api_answer_decides busy_world "10" "2" "0xabc" None fresh_store
                (JS.parseFloat "10")
                (GameSlice.mkTarget (JS.of_Z 10) GameSlice.UP (JS.of_Z 2))) as H.
  destruct H as (_ & H); [vm_compute; reflexivity | vm_compute; reflexivity | reflexivity |].
  exact H.
Defined.

Section DynamicTargets.
Import JS GameSlice.

(** What is truthy and carries no sign is above zero. *)
Lemma truthy_unsigned_above_zero (x : number) :
  truthy x = true -> sign_bit x = false -> ltb (of_Z 0) x = true.
Proof.
  change (of_Z 0) with (S754_zero false).
  destruct x as [s | s | | s m e]; simpl; try discriminate; by intros _ ->.
Qed.

Lemma or_else_above_zero (x d : number) :
  sign_bit x = false -> ltb (of_Z 0) d = true -> ltb (of_Z 0) (or_else x d) = true.
Proof.
  intros Hx Hd. unfold or_else. destruct (truthy x) eqn:E; [| exact Hd].
  by apply truthy_unsigned_above_zero.
Qed.

Lemma parseFloat_opt_part_sign (c : ascii) (s : string) (i : nat) :
  c = "-"%char -> sign_bit (parseFloat_opt (at_index (split c s) i)) = false.
Proof.
  intros ->. unfold parseFloat_opt, at_index.
  destruct (nth_error (split "-" s) i) as [part |] eqn:E; [| reflexivity].
  apply parseFloat_sign. apply nth_error_In in E.
  pose proof (split_avoids "-" s) as H. rewrite List.Forall_forall in H. by apply H.
Qed.
End DynamicTargets.

(** X8. The multiplier of a dynamic target is always a number above zero.
    Whatever follows "UP-" or "DOWN-" in the target id, the multiplier
    [resolve_target] gives is never NaN, never zero and never negative: the
    piece between the first two dashes cannot carry a minus sign, and a
    piece that parses to NaN or to zero is replaced by 1.5. *)
Theorem dynamic_multiplier_is_positive (cells : list GameSlice.TargetCell.t)
        (targetId : string) :
  GameSlice.is_dynamic targetId = true ->
  exists target,
    GameSlice.resolve_target cells targetId = Ok target
    /\ JS.ltb (JS.of_Z 0) (GameSlice.target_multiplier target) = true
    /\ JS.isNaN (GameSlice.target_multiplier target) = false.
Proof.
  intros Hdyn. rewrite (resolve_target_dynamic cells targetId Hdyn). eexists.
  split; [reflexivity |]. simpl.
  assert (Hpos : JS.ltb (JS.of_Z 0)
                   (JS.or_else (JS.parseFloat_opt (JS.at_index (JS.split "-" targetId) 1))
                               GameSlice.one_and_a_half) = true).
  { apply or_else_above_zero; [by apply parseFloat_opt_part_sign | reflexivity]. }
  split; [exact Hpos |].
  destruct (JS.or_else _ _); [reflexivity | reflexivity | discriminate Hpos | reflexivity].
Qed.

(** X8, witness: "UP--3" asks for a multiplier of -3 and is given 1.5. *)
Lemma dynamic_multiplier_is_positive_witness :
  exists target,
    GameSlice.resolve_target GameSlice.DEFAULT_TARGET_CELLS "UP--3" = Ok target
    /\ GameSlice.target_multiplier target = GameSlice.one_and_a_half.
Proof.
  destruct (dynamic_multiplier_is_positive GameSlice.DEFAULT_TARGET_CELLS "UP--3")
    as (target & Hresolved & _); [reflexivity |].
  exists target. split; [exact Hresolved |].
  vm_compute in Hresolved. injection Hresolved as <-. vm_compute. reflexivity.
Defined.

(** ** The game slice: resolving bets, and the order of the price history *)

Section ResolveFacts.
Import JS GameSlice.
Context {ActiveRound : Type}.
Implicit Types (s : GameState ActiveRound) (b : ActiveBet.t).

Lemma set_activeBets_same s : set_activeBets (activeBets s) s = s.
Proof. by destruct s. Qed.

Lemma filter_all_kept {A : Type} (f : A -> bool) (l : list A) :
  Forall (fun x => f x = true) l -> List.filter f l = l.
Proof. induction 1 as [| x l Hx _ IH]; simpl; [reflexivity | by rewrite Hx, IH]. Qed.

Lemma filter_twice {A : Type} (f : A -> bool) (l : list A) :
  List.filter f (List.filter f l) = List.filter f l.
Proof.
  apply filter_all_kept, List.Forall_forall. intros x Hx.
  by apply filter_In in Hx as [_ Hx].
Qed.

Lemma filter_is_sublist {A : Type} (f : A -> bool) (l : list A) :
  sublist (List.filter f l) l.
Proof.
  induction l as [| x l IH]; simpl; [constructor |].
  destruct (f x); by constructor.
Qed.

Lemma filter_swap {A : Type} (f g : A -> bool) (l : list A) :
  List.filter f (List.filter g l) = List.filter g (List.filter f l).
Proof.
  induction l as [| x l IH]; simpl; [reflexivity |].
  destruct (f x) eqn:Hf, (g x) eqn:Hg; simpl; rewrite ?Hf, ?Hg, IH; reflexivity.
Qed.
End ResolveFacts.

(** X9. [resolveBet] removes from the active bets every bet that carries
    the id, also when several do, and keeps the others in their order: what
    is left is the list of active bets without the bets of that id, a
    sublist of what was there. It changes nothing else in the store, and
    what it leaves does not depend on whether the bet was won or on the
    payout: no balance is updated. Resolving again changes nothing,
    resolving an id no active bet carries changes nothing, and two
    resolutions can be made in either order. *)
Theorem resolve_bet_by_id {ActiveRound : Type} (s : GameSlice.GameState ActiveRound)
        (betId : string) (won : bool) (payout : JS.number) :
  let s' := GameSlice.resolveBet betId won payout s in
  GameSlice.activeBets s'
  = List.filter (fun b => negb (String.eqb (GameSlice.ActiveBet.id b) betId))
                (GameSlice.activeBets s)
  /\ sublist (GameSlice.activeBets s') (GameSlice.activeBets s)
  /\ (forall before b after,
         GameSlice.activeBets s = before ++ b :: after ->
         GameSlice.activeBets s'
         = GameSlice.activeBets (GameSlice.resolveBet betId won payout
                                   (GameSlice.set_activeBets before s))
           ++ (if String.eqb (GameSlice.ActiveBet.id b) betId then [] else [b])
           ++ GameSlice.activeBets (GameSlice.resolveBet betId won payout
                                      (GameSlice.set_activeBets after s)))
  /\ (forall b, In b (GameSlice.activeBets s')
                <-> In b (GameSlice.activeBets s) /\ GameSlice.ActiveBet.id b <> betId)
  /\ (forall won' payout', GameSlice.resolveBet betId won' payout' s = s')
  /\ (forall won' payout', GameSlice.resolveBet betId won' payout' s' = s')
  /\ ((forall b, In b (GameSlice.activeBets s) -> GameSlice.ActiveBet.id b <> betId) ->
      s' = s)
  /\ (forall other won' payout',
         GameSlice.resolveBet other won' payout' s'
         = GameSlice.resolveBet betId won payout
             (GameSlice.resolveBet other won' payout' s))
  /\ GameSlice.set_activeBets (GameSlice.activeBets s) s' = s.
Proof.
  intros s'. subst s'. unfold GameSlice.resolveBet.
  split; [reflexivity |]. split; [apply filter_is_sublist |].
  split; [| split; [| split; [| split; [| split; [| split]]]]].
  - intros before b after Hsplit. simpl. rewrite Hsplit, List.filter_app. simpl.
    by destruct (String.eqb (GameSlice.ActiveBet.id b) betId).
  - intros b. simpl. rewrite filter_In. rewrite negb_true_iff, String.eqb_neq. tauto.
  - reflexivity.
  - intros _ _. unfold GameSlice.set_activeBets. simpl. by rewrite filter_twice.
  - intros Hnone. rewrite filter_all_kept; [apply set_activeBets_same |].
    apply List.Forall_forall. intros b Hb. apply negb_true_iff, String.eqb_neq. auto.
  - intros other _ _. unfold GameSlice.set_activeBets. simpl. f_equal. apply filter_swap.
  - by destruct s.
Qed.

Section OrderFacts.
Import JS GameSlice.
Context {ActiveRound : Type}.
Implicit Types (s : GameState ActiveRound) (h : list PricePoint.t).
Local Open Scope Z_scope.

Lemma chronological_filter (f : PricePoint.t -> bool) h :
  chronological h -> chronological (List.filter f h).
Proof.
  induction 1 as [| p h _ IH Hp]; simpl; [constructor |].
  destruct (f p); [| exact IH]. constructor; [exact IH |].
  apply List.Forall_forall. intros q Hq. apply filter_In in Hq as [Hq _].
  rewrite List.Forall_forall in Hp. by apply Hp.
Qed.

Lemma chronological_skipn (n : nat) h : chronological h -> chronological (skipn n h).
Proof.
  revert h. induction n as [| n IH]; intros h Hh; [exact Hh |].
  destruct h as [| p h]; [constructor |]. simpl.
  apply IH. by apply StronglySorted_inv in Hh as [Hh _].
Qed.

Lemma chronological_snoc h (p : PricePoint.t) :
  chronological h ->
  Forall (fun q => PricePoint.timestamp q <= PricePoint.timestamp p) h ->
  chronological (h ++ [p]).
Proof.
  induction 1 as [| q h _ IH Hq]; intros Hall; simpl.
  - constructor; constructor.
  - apply Forall_cons in Hall as [Hqp Hall]. constructor; [by apply IH |].
    apply Forall_app. split; [exact Hq | by constructor].
Qed.

Lemma updatePrice_chronological s (now : Z) (p : number) :
  chronological (priceHistory s) -> not_after now s ->
  chronological (priceHistory (updatePrice now p s)).
Proof.
  intros Hsorted Hnot. rewrite priceHistory_updatePrice.
  apply chronological_snoc.
  - by apply chronological_skipn, chronological_filter.
  - apply Forall_drop. apply List.Forall_forall. intros q Hq.
    apply filter_In in Hq as [Hq _]. unfold not_after in Hnot.
    rewrite List.Forall_forall in Hnot. by apply Hnot.
Qed.
End OrderFacts.

(** X10. The price history stays in chronological order. When the clock
    readings of the [updatePrice] calls do not run backwards, a history
    whose points are in the order of their time stamps is so again after
    every call: the filter and the cut to 300 points drop points, they
    never reorder them, and the new point is the latest. *)
Theorem price_history_stays_chronological {ActiveRound : Type}
        (s : GameSlice.GameState ActiveRound) (calls : list (Z * JS.number)) :
  chronological (GameSlice.priceHistory s) ->
  clock_monotone s (map fst calls) ->
  chronological (GameSlice.priceHistory (GameSlice.updatePrices s calls)).
Proof.
  revert s. induction calls as [| [now p] calls IH]; intros s Hsorted Hclock; simpl.
  - exact Hsorted.
  - apply IH.
    + apply updatePrice_chronological; [exact Hsorted |].
      destruct Hclock as [_ Hnot]. by apply Forall_cons in Hnot as [Hnow _].
    + by apply clock_monotone_step.
Qed.

(** X10, witness: three price updates on a fresh store. *)
Lemma price_history_stays_chronological_witness :
  chronological
    (GameSlice.priceHistory
       (GameSlice.updatePrices fresh_store
          [(1000%Z, JS.of_Z 50000); (2000%Z, JS.of_Z 50001); (400000%Z, JS.of_Z 50002)])).
Proof.
  apply (price_history_stays_chronological fresh_store
           [(1000%Z, JS.of_Z 50000); (2000%Z, JS.of_Z 50001); (400000%Z, JS.of_Z 50002)]).
  - constructor.
  - split; simpl.
    + repeat constructor; lia.
    + repeat constructor.
Defined.

(** ** The deposit modal *)

Section DepositModalFacts.
Import JS DepositModal.

Lemma rev_app_empty (s acc : string) : String.rev_app s acc = "" -> s = "" /\ acc = "".
Proof.
  revert acc. induction s as [| a s IH]; intros acc H; simpl in H; [auto |].
  apply IH in H as [_ H]. discriminate H.
Qed.

Lemma rev_empty (s : string) : String.rev s = "" -> s = "".
Proof. intros H. by apply rev_app_empty in H as [H _]. Qed.

(** What [trim_start] leaves is empty or starts with something else than
    white space. *)
Lemma trim_start_head (s : string) :
  match trim_start s with
  | String a _ => is_space a = false
  | EmptyString => True
  end.
Proof.
  induction s as [| a s IH]; simpl; [exact I |].
  destruct (is_space a) eqn:E; [exact IH | exact E].
Qed.

Lemma trim_start_empty_rev_app (s acc : string) :
  trim_start (String.rev_app s acc) = "" -> trim_start acc = "".
Proof.
  revert acc. induction s as [| a s IH]; intros acc H; simpl in H; [exact H |].
  apply IH in H. simpl in H. destruct (is_space a); [exact H | discriminate H].
Qed.

(** A string that trims to nothing is white space only, and so is what
    [parseFloat] skips. *)
Lemma trim_empty (s : string) : trim s = "" -> trim_start s = "".
Proof.
  unfold trim. intros H. apply rev_empty in H.
  pose proof (trim_start_head s) as Hhead.
  destruct (trim_start s) as [| a rest]; [reflexivity |].
  unfold String.rev in H. simpl in H. apply trim_start_empty_rev_app in H.
  simpl in H. by rewrite Hhead in H.
Qed.

Lemma parseFloat_blank (s : string) : trim_start s = "" -> parseFloat s = NaN.
Proof. intros H. unfold parseFloat. rewrite H. reflexivity. Qed.

Lemma blank_is_NaN (value : string) :
  String.eqb value "" || String.eqb (trim value) "" = true -> isNaN (parseFloat value) = true.
Proof.
  intros H. rewrite parseFloat_blank; [reflexivity |].
  apply orb_true_iff in H as [H | H]; apply String.eqb_eq in H.
  - by subst value.
  - by apply trim_empty.
Qed.

(** When [validateAmount] accepts, and when it does not. *)
Lemma validateAmount_cases (usdcBalance : number) (value : string) :
  let numValue := parseFloat value in
  match validateAmount usdcBalance value with
  | None =>
      isNaN numValue = false /\ ltb (of_Z 0) numValue = true
      /\ ltb usdcBalance numValue = false
  | Some message =>
      (isNaN numValue = true
       /\ (message = "Please enter an amount" \/ message = "Please enter a valid number"))
      \/ (isNaN numValue = false /\ leb numValue (of_Z 0) = true
          /\ message = "Amount must be greater than zero")
      \/ (isNaN numValue = false /\ ltb (of_Z 0) numValue = true
          /\ ltb usdcBalance numValue = true
          /\ message = "Insufficient USDC balance")
  end.
Proof.
  intros numValue. subst numValue. unfold validateAmount.
  destruct (String.eqb value "" || String.eqb (trim value) "") eqn:Hblank.
  { left. split; [by apply blank_is_NaN | by left]. }
  destruct (isNaN (parseFloat value)) eqn:Hnan; [left; split; [reflexivity | by right] |].
  destruct (leb (parseFloat value) (of_Z 0)) eqn:Hle; [right; left; auto |].
  destruct (above_zero _ Hnan Hle) as (Hpos & _).
  destruct (ltb usdcBalance (parseFloat value)) eqn:Hover; [right; right; auto | auto].
Qed.

Lemma skip_digits_avoids (s : string) :
  avoids "-" (skip_digits s) = true -> avoids "-" s = true.
Proof.
  induction s as [| a s IH]; simpl; [auto |].
  destruct (is_digit a) eqn:E; [| auto].
  intros H. rewrite (IH H), andb_true_r.
  destruct (Ascii.eqb a "-") eqn:E'; [| reflexivity].
  apply Ascii.eqb_eq in E'. subst a. discriminate E.
Qed.

Lemma amount_pattern_avoids (value : string) :
  amount_pattern value = true -> avoids "-" value = true.
Proof.
  unfold amount_pattern. intros H. apply String.eqb_eq in H.
  apply skip_digits_avoids.
  assert (Hgen : forall rest, skip_digits rest = "" -> avoids "-" rest = true).
  { intros rest Hrest. apply skip_digits_avoids. by rewrite Hrest. }
  destruct (skip_digits value) as [| a rest]; [reflexivity |].
  destruct (ascii_dec a ".") as [-> | Hne].
  - simpl. by apply Hgen.
  - apply Hgen. destruct a as [[] [] [] [] [] [] [] []]; try exact H. congruence.
Qed.
End DepositModalFacts.

(** X11. [validateAmount] accepts a value exactly when it parses to a
    number above zero that does not exceed the wallet's USDC balance. The
    test for an empty or blank value adds nothing to that: such a value
    parses to NaN. *)
Theorem validate_amount_accepts_iff (usdcBalance : JS.number) (value : string) :
  DepositModal.validateAmount usdcBalance value = None
  <-> JS.isNaN (JS.parseFloat value) = false
      /\ JS.ltb (JS.of_Z 0) (JS.parseFloat value) = true
      /\ JS.ltb usdcBalance (JS.parseFloat value) = false.
Proof.
  pose proof (validateAmount_cases usdcBalance value) as H. cbv zeta in H.
  destruct (DepositModal.validateAmount usdcBalance value) as [message |].
  - split; [discriminate |]. intros (Hnan & Hpos & Hover).
    destruct H as [(H & _) | [(_ & H & _) | (_ & _ & H & _)]]; try congruence.
    exfalso. revert Hpos H. change (JS.of_Z 0) with (S754_zero false).
    destruct (JS.parseFloat value) as [[] | [] | | [] m e]; simpl; discriminate.
  - split; [intros _; exact H | reflexivity].
Qed.

(** X12. While the wallet's balance is zero, as it is before the balance
    has been fetched and when fetching it failed, [validateAmount] accepts
    no value at all; and when the balance is not a number, it never answers
    "Insufficient USDC balance", so every amount above zero is accepted. *)
Theorem validation_without_a_balance (value : string) :
  DepositModal.validateAmount (JS.of_Z 0) value <> None
  /\ DepositModal.validateAmount (DepositModal.usdcBalance DepositModal.initial) value
     <> None
  /\ DepositModal.validateAmount JS.NaN value <> Some "Insufficient USDC balance"
  /\ (JS.ltb (JS.of_Z 0) (JS.parseFloat value) = true ->
      DepositModal.validateAmount JS.NaN value = None).
Proof.
  assert (Hzero : DepositModal.validateAmount (JS.of_Z 0) value <> None).
  { pose proof (validateAmount_cases (JS.of_Z 0) value) as H. cbv zeta in H.
    destruct (DepositModal.validateAmount (JS.of_Z 0) value); [discriminate |].
    destruct H as (_ & Hpos & Hover). congruence. }
  split; [exact Hzero |]. split; [exact Hzero |].
  pose proof (validateAmount_cases JS.NaN value) as H. cbv zeta in H.
  destruct (DepositModal.validateAmount JS.NaN value) as [message |].
  - split.
    + destruct H as [(_ & [-> | ->]) | [(_ & _ & ->) | (_ & _ & H & _)]];
        [discriminate | discriminate | discriminate |].
      unfold JS.ltb, SFltb in H. simpl in H. discriminate H.
    + intros Hpos. exfalso.
      destruct H as [(H & _) | [(_ & H & _) | (_ & _ & H & _)]].
      * revert Hpos H. destruct (JS.parseFloat value) as [[] | [] | | [] m e]; discriminate.
      * revert Hpos H. change (JS.of_Z 0) with (S754_zero false).
        destruct (JS.parseFloat value) as [[] | [] | | [] m e]; simpl; discriminate.
      * unfold JS.ltb, SFltb in H. simpl in H. discriminate H.
  - split; [discriminate | reflexivity].
Qed.

(** X12, witness: "5" with a balance that is not a number. *)
Lemma validation_without_a_balance_witness :
  DepositModal.validateAmount JS.NaN "5" = None.
Proof.
  destruct (validation_without_a_balance "5") as (_ & _ & _ & H).
  apply H. vm_compute. reflexivity.
Defined.

(** X13. An amount that [validateAmount] accepts never finds the deposit
    button disabled, unless a deposit is in progress. *)
Theorem valid_amount_enables_deposit (st : DepositModal.State) :
  DepositModal.validateAmount (DepositModal.usdcBalance st) (DepositModal.amount st) = None ->
  DepositModal.depositDisabled st = DepositModal.isLoading st.
Proof.
  intros Hvalid.
  pose proof (validateAmount_cases (DepositModal.usdcBalance st) (DepositModal.amount st))
    as H. cbv zeta in H. rewrite Hvalid in H. destruct H as (Hnan & Hpos & _).
  unfold DepositModal.depositDisabled.
  destruct (DepositModal.amount st) as [| a rest] eqn:Hamount.
  - vm_compute in Hnan. discriminate Hnan.
  - change (JS.str_or_else (Some (String a rest)) "0") with (String a rest).
    change (String.eqb (String a rest) "") with false.
    assert (Hle : JS.leb (JS.parseFloat (String a rest)) (JS.of_Z 0) = false).
    { revert Hpos. change (JS.of_Z 0) with (S754_zero false).
      destruct (JS.parseFloat (String a rest)) as [[] | [] | | [] m e]; simpl;
        discriminate || reflexivity. }
    rewrite Hle. by rewrite !orb_false_r.
Qed.

(** X13, witness: "2.5" typed with a balance of 10. *)
Lemma valid_amount_enables_deposit_witness :
  DepositModal.depositDisabled (modal_with "2.5" 10) = false.
Proof.
  rewrite (valid_amount_enables_deposit (modal_with "2.5" 10)); [reflexivity |].
  vm_compute. reflexivity.
Defined.

(** X14. The amount field takes only digits with at most one decimal
    point. A value the pattern refuses leaves the state as it was; a value
    it takes is stored, clears the error, and never parses to a negative
    number, so that when [validateAmount] answers "Amount must be greater
    than zero" to it, it parses to zero. *)
Theorem typed_amount_is_never_negative (value : string) (st : DepositModal.State) :
  let st' := DepositModal.handleAmountChange value st in
  st' = st
  \/ (st' = DepositModal.mkState value (DepositModal.isLoading st) None
                                 (DepositModal.usdcBalance st)
      /\ sign_bit (JS.parseFloat value) = false
      /\ (DepositModal.validateAmount (DepositModal.usdcBalance st') value
          = Some "Amount must be greater than zero" ->
          JS.parseFloat value = S754_zero false)).
Proof.
  intros st'. subst st'. unfold DepositModal.handleAmountChange.
  destruct (String.eqb value "" || DepositModal.amount_pattern value) eqn:Haccept;
    [right | by left].
  split; [reflexivity |].
  assert (Hsign : sign_bit (JS.parseFloat value) = false).
  { apply orb_true_iff in Haccept as [H | H].
    - apply String.eqb_eq in H. by subst value.
    - by apply parseFloat_sign, amount_pattern_avoids. }
  split; [exact Hsign |]. simpl. intros Hmessage.
  pose proof (validateAmount_cases (DepositModal.usdcBalance st) value) as H.
  cbv zeta in H. rewrite Hmessage in H.
  destruct H as [(_ & [H | H]) | [(Hnan & Hle & _) | (_ & _ & _ & H)]];
    try discriminate H.
  revert Hsign Hnan Hle. change (JS.of_Z 0) with (S754_zero false).
  destruct (JS.parseFloat value) as [[] | [] | | [] m e]; simpl; try discriminate;
    reflexivity.
Qed.


Section HandleDepositFacts.
Import JS DepositModal.
Context {Transaction : Type}.
Implicit Types (w : World Transaction) (st : State).

Lemma in_failed w st (done : list (Effect Transaction)) (err : Thrown)
      (e : Effect Transaction) :
  In e (snd (failed w st done err)) ->
  In e done \/ (exists message, e = ToastError message \/ e = OnError message).
Proof.
  unfold failed. simpl. intros H. apply in_app_or in H as [H | H]; [by left | right].
  destruct H as [<- | H]; [eauto |].
  destruct (onError w); simpl in H; [| destruct H].
  destruct H as [<- | []]. eauto.
Qed.
End HandleDepositFacts.

(** X15. [handleDeposit] reports a deposit to the ledger only for a
    transaction the wallet signed. Whenever it calls [depositFunds], the
    amount is the parsed amount of the field, which [validateAmount]
    accepted (a number above zero within the wallet's balance), the address
    is the connected wallet's, and the digest is the one the wallet
    returned for the transaction that [buildDepositTransaction] built for
    that amount and address. *)
Theorem deposit_reported_only_when_signed {Transaction : Type}
        (w : DepositModal.World Transaction) (st : DepositModal.State)
        (address : string) (amount : JS.number) (digest : string) :
  In (DepositModal.DepositFunds address amount digest)
     (snd (DepositModal.handleDeposit w st)) ->
  DepositModal.address w = Some address
  /\ address <> ""
  /\ amount = JS.parseFloat (DepositModal.amount st)
  /\ DepositModal.validateAmount (DepositModal.usdcBalance st) (DepositModal.amount st) = None
  /\ JS.ltb (JS.of_Z 0) amount = true
  /\ JS.ltb (DepositModal.usdcBalance st) amount = false
  /\ exists tx,
      DepositModal.buildDepositTransaction w amount address = Ok tx
      /\ DepositModal.signAndExecuteTransaction w tx = Ok digest.
Proof.
  unfold DepositModal.handleDeposit.
  pose proof (validateAmount_cases (DepositModal.usdcBalance st) (DepositModal.amount st))
    as Hvalid. cbv zeta in Hvalid.
  destruct (DepositModal.validateAmount _ _) as [message |]; [intros [] |].
  destruct Hvalid as (_ & Hpos & Hover).
  destruct (DepositModal.address w) as [[| a rest] |]; [intros [] | | intros []].
  set (addr := String a rest).
  set (parsed := JS.parseFloat (DepositModal.amount st)) in *.
  assert (Hreport : forall e : DepositModal.Effect Transaction,
             e = DepositModal.DepositFunds address amount digest ->
             (exists message, e = DepositModal.ToastError message
                              \/ e = DepositModal.OnError message) -> False).
  { intros e -> (message & [H | H]); discriminate H. }
  destruct (DepositModal.buildDepositTransaction w parsed addr) as [tx | err] eqn:Hbuild.
  - destruct (DepositModal.signAndExecuteTransaction w tx) as [dg | err] eqn:Hsign.
    + assert (Hfound : In (DepositModal.DepositFunds address amount digest)
                          [DepositModal.ToastInfo
                             "Please confirm the transaction in your wallet...";
                           DepositModal.BuildDepositTransaction parsed addr;
                           DepositModal.SignAndExecuteTransaction tx;
                           DepositModal.ToastInfo
                             "Transaction submitted. Waiting for confirmation...";
                           DepositModal.DepositFunds addr parsed dg] ->
                        address = addr /\ amount = parsed /\ digest = dg).
      { simpl. intros [H | [H | [H | [H | [H | []]]]]]; try discriminate H.
        injection H as <- <- <-. auto. }
      assert (Hdone : address = addr /\ amount = parsed /\ digest = dg ->
                      Some addr = Some address
                      /\ address <> ""
                      /\ amount = parsed
                      /\ None = (None : option string)
                      /\ JS.ltb (JS.of_Z 0) amount = true
                      /\ JS.ltb (DepositModal.usdcBalance st) amount = false
                      /\ exists tx0,
                          DepositModal.buildDepositTransaction w amount address = Ok tx0
                          /\ DepositModal.signAndExecuteTransaction w tx0 = Ok digest).
      { intros (-> & -> & ->). repeat split; try assumption; try discriminate. eauto. }
      destruct (DepositModal.depositFunds w addr parsed dg) as [[] | err].
      * simpl. destruct (DepositModal.onSuccess w); simpl; intros Hin;
          decompose [or] Hin; try discriminate; try contradiction;
          apply Hdone, Hfound; simpl; auto 10.
      * intros Hin. apply in_failed in Hin as [Hin | Hin]; [by apply Hdone, Hfound |].
        exfalso. by eapply Hreport.
    + intros Hin. exfalso. apply in_failed in Hin as [Hin | Hin]; [| by eapply Hreport].
      simpl in Hin. destruct Hin as [H | [H | [H | []]]]; discriminate H.
  - intros Hin. exfalso. apply in_failed in Hin as [Hin | Hin]; [| by eapply Hreport].
    simpl in Hin. destruct Hin as [H | [H | []]]; discriminate H.
Qed.

(** X15, witness: "2.5" deposited with a wallet that signs. *)
Lemma deposit_reported_only_when_signed_witness :
  DepositModal.signAndExecuteTransaction willing_wallet 7%nat = Ok "digest-1"
  /\ JS.ltb (JS.of_Z 0) (JS.parseFloat "2.5") = true.
Proof.
  destruct (deposit_reported_only_when_signed willing_wallet (modal_with "2.5" 10)
              "0xa11ce" (JS.parseFloat "2.5") "digest-1")
    as (_ & _ & _ & _ & Hpos & _ & tx & _ & Hsigned).
  - vm_compute. auto 10.
  - split; [reflexivity | exact Hpos].
Defined.


(** X16. How [handleDeposit] ends. It never changes the amount typed or
    the balance shown, and a call made while nothing is loading leaves
    nothing loading. The modal is closed exactly when no error is left, and
    then the deposit was reported to the ledger and the success toast shows
    the house balance plus the amount; an error that is left was either
    found before anything was done (the amount or the wallet is missing: no
    effect at all) or shown in an error toast. *)
Theorem deposit_attempt_outcome {Transaction : Type}
        (w : DepositModal.World Transaction) (st : DepositModal.State) :
  deposit_outcome w st (fst (DepositModal.handleDeposit w st))
                  (snd (DepositModal.handleDeposit w st)).
Proof.
  assert (Hrefused : forall message,
             deposit_outcome w st (DepositModal.set_error (Some message) st) []).
  { intros message. unfold deposit_outcome. simpl.
    split; [reflexivity |]. split; [reflexivity |]. split; [auto |].
    split; [split; [intros [] | discriminate] |]. split; [intros [] | by left]. }
  assert (Hfailed : forall st1 (done : list (DepositModal.Effect Transaction)) err,
             DepositModal.amount st1 = DepositModal.amount st ->
             DepositModal.usdcBalance st1 = DepositModal.usdcBalance st ->
             ~ In DepositModal.OnClose done ->
             deposit_outcome w st (fst (DepositModal.failed w st1 done err))
                             (snd (DepositModal.failed w st1 done err))).
  { intros st1 done err Hamount Hbalance Hdone. unfold deposit_outcome. simpl.
    assert (Hopen : ~ In DepositModal.OnClose
                        (done ++ DepositModal.ToastError
                                   match err with
                                   | DepositModal.ErrorObject message => message
                                   | DepositModal.OtherValue => "Failed to deposit funds"
                                   end
                              :: (if DepositModal.onError w
                                  then [DepositModal.OnError
                                          match err with
                                          | DepositModal.ErrorObject message => message
                                          | DepositModal.OtherValue =>
                                              "Failed to deposit funds"
                                          end]
                                  else []))).
    { intros Hin. apply in_app_or in Hin as [Hin | Hin]; [by apply Hdone |].
      destruct Hin as [H | Hin]; [discriminate H |].
      destruct (DepositModal.onError w); simpl in Hin; [| destruct Hin].
      destruct Hin as [H | []]. discriminate H. }
    split; [exact Hamount |]. split; [exact Hbalance |]. split; [auto |].
    split; [split; [intros Hin; contradiction | discriminate] |].
    split; [intros Hin; contradiction |].
    intros message Hmessage. injection Hmessage as <-. right.
    apply in_or_app. right. by left. }
  unfold DepositModal.handleDeposit.
  destruct (DepositModal.validateAmount _ _) as [message |]; [apply Hrefused |].
  destruct (DepositModal.address w) as [[| a rest] |]; [apply Hrefused | | apply Hrefused].
  set (addr := String a rest).
  set (parsed := JS.parseFloat (DepositModal.amount st)).
  destruct (DepositModal.buildDepositTransaction w parsed addr) as [tx | err].
  - destruct (DepositModal.signAndExecuteTransaction w tx) as [digest | err].
    + destruct (DepositModal.depositFunds w addr parsed digest) as [[] | err] eqn:Hfunds.
      * unfold deposit_outcome. fold parsed. simpl.
        split; [reflexivity |]. split; [reflexivity |]. split; [reflexivity |].
        assert (Hclose : In (DepositModal.OnClose (Transaction := Transaction))
                           ((if DepositModal.onSuccess w
                             then [DepositModal.OnSuccess parsed digest] else [])
                            ++ [DepositModal.OnClose])).
        { apply in_or_app. right. by left. }
        split; [split; [reflexivity | intros _; auto 10] |].
        split; [| discriminate].
        intros _. split; [auto 10 |]. exists addr, digest. split; [auto 10 | exact Hfunds].
      * apply Hfailed; try reflexivity.
        simpl. intros [H | [H | [H | [H | [H | []]]]]]; discriminate H.
    + apply Hfailed; try reflexivity.
      simpl. intros [H | [H | [H | []]]]; discriminate H.
  - apply Hfailed; try reflexivity.
    simpl. intros [H | [H | []]]; discriminate H.
Qed.


(** ** Transaction errors *)

Section TransactionErrorFacts.
Import JS SuiClient.

Lemma prefix_cons (a b : ascii) (p s : string) :
  String.prefix (String a p) (String b s) = if ascii_dec a b then String.prefix p s else false.
Proof. reflexivity. Qed.

Lemma prefix_toLowerCase (p s : string) :
  String.prefix p s = true -> String.prefix (toLowerCase p) (toLowerCase s) = true.
Proof.
  revert s. induction p as [| a p IH]; intros s H; [by destruct s |].
  destruct s as [| b s]; [discriminate H |].
  rewrite prefix_cons in H. destruct (ascii_dec a b) as [-> |]; [| discriminate H].
  simpl toLowerCase. rewrite prefix_cons.
  destruct (ascii_dec (lower b) (lower b)); [by apply IH | congruence].
Qed.

(** Lowering the case keeps what a string includes. *)
Lemma includes_toLowerCase (s sub : string) :
  includes s sub = true -> includes (toLowerCase s) (toLowerCase sub) = true.
Proof.
  induction s as [| a s IH]; intros H.
  - simpl in *. rewrite orb_false_r in *. by apply (prefix_toLowerCase sub "").
  - cbn [includes] in H. apply orb_true_iff in H as [H | H].
    + cbn [toLowerCase includes]. apply orb_true_iff. left.
      by apply (prefix_toLowerCase sub (String a s)).
    + cbn [toLowerCase includes]. apply orb_true_iff. right. by apply IH.
Qed.

Lemma lowered_message_some (e : Thrown) (m : string) :
  message e = Some m -> lowered_message (Some e) = toLowerCase m.
Proof.
  intros H. unfold lowered_message. rewrite H. by destruct (toLowerCase m).
Qed.
End TransactionErrorFacts.

(** X17. [handleTransactionError] reads the message without regard to
    letter case, and a refusal by the user wins over everything else. An
    error whose message contains "rejected", "denied" or "cancelled" in
    any mix of capitals and small letters, or whose code is 4001 or
    "USER_REJECTED", is reported as "Transaction was cancelled by user.",
    whatever else the message says about gas, balance, network or
    execution. *)
Theorem user_rejection_wins (e : SuiClient.Thrown) :
  is_refusal e ->
  SuiClient.handleTransactionError (Some e) = "Transaction was cancelled by user.".
Proof.
  unfold SuiClient.handleTransactionError.
  intros [(m & word & written & Hm & Hword & Hwritten & Hin) | [Hcode | Hcode]].
  - apply includes_toLowerCase in Hin. rewrite Hwritten in Hin.
    rewrite (lowered_message_some e m Hm).
    destruct Hword as [<- | [<- | [<- | []]]]; rewrite Hin; simpl;
      rewrite ?orb_true_r; reflexivity.
  - assert (H : SuiClient.code_is_number (Some e) 4001 = true)
      by (unfold SuiClient.code_is_number; rewrite Hcode; reflexivity).
    rewrite H, ?orb_true_r. reflexivity.
  - assert (H : SuiClient.code_is_string (Some e) "USER_REJECTED" = true)
      by (unfold SuiClient.code_is_string; rewrite Hcode; reflexivity).
    rewrite H, ?orb_true_r. reflexivity.
Qed.

(** X17, witness: a wallet's "User Rejected the request", in a message
    that also speaks of gas. *)
Lemma user_rejection_wins_witness :
  SuiClient.handleTransactionError (Some wallet_refusal)
  = "Transaction was cancelled by user.".
Proof.
  apply (user_rejection_wins wallet_refusal). left.
  exists "Insufficient gas: User Rejected the request", "rejected", "Rejected".
  split; [reflexivity |]. split; [by left |]. split; [reflexivity |].
  vm_compute. reflexivity.
Defined.


(** ** The mock price feed *)

Section MockFeedFacts.
Import JS MockPriceFeed.

Lemma SFcompare_antisym (x y : number) :
  SFcompare y x = option_map CompOpp (SFcompare x y).
Proof.
  destruct x as [sx | sx | | sx mx ex], y as [sy | sy | | sy my ey];
    try destruct sx; try destruct sy; simpl; try reflexivity;
    change (Pos.compare_cont Eq mx my) with (mx ?= my)%positive;
    change (Pos.compare_cont Eq my mx) with (my ?= mx)%positive;
    rewrite (Z.compare_antisym ey ex), (Pos.compare_antisym my mx);
    destruct (ey ?= ex)%Z, (my ?= mx)%positive; reflexivity.
Qed.

(** [Math.max(lo, Math.min(hi, x))] is [lo], [hi], [x] when it lies
    between them, or NaN when [x] is. *)
Lemma clamp_cases (lo hi x : number) :
  SFcompare lo hi = Some Lt ->
  (forall s, lo <> S754_zero s) -> (forall s, hi <> S754_zero s) ->
  let r := Math_max lo (Math_min hi x) in
  r = NaN \/ r = lo \/ r = hi
  \/ (r = x /\ SFcompare lo x = Some Lt /\ SFcompare x hi = Some Lt).
Proof.
  intros Hlohi Hlo Hhi r. subst r. unfold Math_min.
  pose proof (SFcompare_antisym hi x) as Hanti.
  destruct (SFcompare hi x) as [[] |] eqn:Hhx.
  - assert (Hkeep : match hi, x with
                    | S754_zero false, S754_zero true => x
                    | _, _ => hi
                    end = hi).
    { destruct hi as [[] | | |]; try reflexivity. by destruct (Hhi false). }
    rewrite Hkeep. unfold Math_max. rewrite Hlohi. auto.
  - unfold Math_max. rewrite Hlohi. auto.
  - simpl in Hanti. unfold Math_max.
    destruct (SFcompare lo x) as [[] |] eqn:Hlx; auto.
    + right. left. destruct lo as [[] | | |]; try reflexivity; by destruct (Hlo true).
    + right. right. right. auto.
  - unfold Math_max. left. by destruct lo.
Qed.

Lemma tick_clamped (feed : t) (currentPrice : number) (r : Draws) :
  clamped (tick feed currentPrice r).
Proof.
  unfold tick, clamped.
  destruct (clamp_cases (of_Z 10000) (of_Z 100000) (generateNextPrice feed currentPrice r))
    as [H | [H | [H | (H & Hlo & Hhi)]]];
    try reflexivity; try (intros s; discriminate); rewrite H.
  - by left.
  - right. split; reflexivity.
  - right. split; reflexivity.
  - right. unfold leb, SFleb. by rewrite Hlo, Hhi.
Qed.
End MockFeedFacts.

(** X18. The mock feed clamps every price but the first to the range
    10000 to 100000, whatever the asset. [start] passes the base price on
    as it is (2.5 for SUI, 100 for SOL); every price after that, for every
    base price, volatility, trend and random draws, lies between 10000 and
    100000 or is not a number. A feed that is already running passes
    nothing on. *)
Theorem mock_prices_are_clamped (feed : MockPriceFeed.t) (draws : list MockPriceFeed.Draws) :
  let prices := snd (MockPriceFeed.start feed draws) in
  (MockPriceFeed.intervalId feed = true -> prices = [])
  /\ (MockPriceFeed.intervalId feed = false ->
      hd_error prices = Some (MockPriceFeed.basePrice feed)
      /\ length prices = S (length draws)
      /\ Forall clamped (tl prices)).
Proof.
  unfold MockPriceFeed.start. destruct (MockPriceFeed.intervalId feed); simpl.
  - split; [reflexivity | discriminate].
  - split; [discriminate |]. intros _. split; [reflexivity |].
    generalize (MockPriceFeed.basePrice feed) as currentPrice.
    induction draws as [| r draws IH]; intros currentPrice; simpl.
    + split; [reflexivity | constructor].
    + destruct (IH (MockPriceFeed.tick feed currentPrice r)) as [Hlen Hall].
      split; [by rewrite Hlen |]. constructor; [apply tick_clamped | exact Hall].
Qed.

(** X18, witness: a mock feed for SUI starts at 2.5 and is at 10000 one
    tick later. *)
Lemma mock_prices_are_clamped_witness :
  snd (MockPriceFeed.start
         (MockPriceFeed.new (Some GameSlice.SUI) None None None)
         [MockPriceFeed.mkDraws MockPriceFeed.one_half MockPriceFeed.one_half
                                MockPriceFeed.one_half])
  = [JS.div (JS.of_Z 5) (JS.of_Z 2); JS.of_Z 10000].
Proof.
  destruct (mock_prices_are_clamped
              (MockPriceFeed.new (Some GameSlice.SUI) None None None)
              [MockPriceFeed.mkDraws MockPriceFeed.one_half MockPriceFeed.one_half
                                     MockPriceFeed.one_half]) as [_ H].
  destruct H as (_ & _ & _); [reflexivity |]. vm_compute. reflexivity.
Defined.

(** ** The wallet panel *)

Section WalletInfoFacts.
Import WalletInfo.

Lemma length_substring (n m : nat) (s : string) :
  (n + m <= String.length s)%nat -> String.length (String.substring n m s) = m.
Proof.
  revert n m. induction s as [| a s IH]; intros n m H; simpl in H.
  - assert (n = 0%nat /\ m = 0%nat) as [-> ->] by lia. reflexivity.
  - destruct n as [| n]; simpl.
    + destruct m as [| m]; [reflexivity |]. simpl. f_equal. apply (IH 0%nat). simpl. lia.
    + apply IH. lia.
Qed.

Lemma length_append (s t : string) :
  String.length (s +:+ t) = (String.length s + String.length t)%nat.
Proof. induction s as [| a s IH]; simpl; [reflexivity | by rewrite IH]. Qed.

Lemma substring_prefix (m : nat) (s : string) :
  String.prefix (String.substring 0 m s) s = true.
Proof.
  revert m. induction s as [| a s IH]; intros m; [by destruct m |].
  destruct m as [| m]; [reflexivity |]. simpl.
  destruct (ascii_dec a a); [apply IH | congruence].
Qed.
End WalletInfoFacts.

(** X19. [formatAddress] shows an address of at most ten characters as it
    is and any longer address in exactly thirteen: its first six
    characters, three dots and four more. What is shown always starts as
    the address starts. *)
Theorem format_address_is_short (addr : string) :
  (String.length (WalletInfo.formatAddress addr) <= 13)%nat
  /\ ((String.length addr <= 10)%nat -> WalletInfo.formatAddress addr = addr)
  /\ ((10 < String.length addr)%nat ->
      String.length (WalletInfo.formatAddress addr) = 13%nat
      /\ WalletInfo.formatAddress addr
         = String.substring 0 6 addr +:+ "..."
           +:+ String.substring (String.length addr - 4) 4 addr)
  /\ JS.startsWith (WalletInfo.formatAddress addr) (String.substring 0 6 addr) = true.
Proof.
  unfold WalletInfo.formatAddress, WalletInfo.slice_first, WalletInfo.slice_last.
  destruct (String.length addr <=? 10)%nat eqn:E.
  - apply Nat.leb_le in E. split; [lia |]. split; [reflexivity |]. split; [lia |].
    apply substring_prefix.
  - apply Nat.leb_gt in E.
    assert (Hlen : String.length (String.substring 0 6 addr +:+ "..."
                                  +:+ String.substring (String.length addr - 4) 4 addr)
                   = 13%nat).
    { rewrite !length_append, !length_substring by lia. reflexivity. }
    split; [lia |]. split; [lia |]. split; [auto |].
    apply startsWith_append.
Qed.


(** ** The Pyth price feed *)

Section PythFeedFacts.
Import JS PythPriceFeed.
Context {ClientError : Type}.
Variable Number : string -> number.
Variable pow10 : number -> number.
Implicit Types (f : t) (cs : list (Call ClientError)) (response : Response ClientError).

Lemma calls_snoc f cs (c : Call ClientError) :
  calls Number pow10 f (cs ++ [c]) = call Number pow10 (calls Number pow10 f cs) c.
Proof. unfold calls. by rewrite fold_left_app. Qed.

Lemma lastPrice_fetchPrice (now : Z) response f :
  lastPrice (fst (fetchPrice Number pow10 now response f))
  = match fresh_price Number pow10 response with
    | Some p => Some p
    | None => lastPrice f
    end.
Proof.
  unfold fetchPrice, fresh_price. destruct (first_price response); [reflexivity |].
  destruct (lastPrice f) eqn:E; simpl; congruence.
Qed.

Lemma fresh_price_none response :
  fresh_price Number pow10 response = None <-> is_ok (first_price response) = false.
Proof. unfold fresh_price. destruct (first_price response); simpl; split; congruence. Qed.

Lemma lastPrice_source (a : GameSlice.AssetType) cs :
  last_price_source Number pow10 cs (lastPrice (calls Number pow10 (new a) cs)).
Proof.
  induction cs as [| c cs IH] using rev_ind.
  - exists [], []. repeat split; [constructor | by left].
  - rewrite calls_snoc. destruct c as [now response | a']; simpl.
    + rewrite lastPrice_fetchPrice.
      destruct (fresh_price Number pow10 response) as [p |] eqn:Hfresh.
      * exists cs, now, response, []. repeat split; [exact Hfresh | constructor].
      * apply fresh_price_none in Hfresh.
        destruct (lastPrice (calls Number pow10 (new a) cs)) as [p |]; simpl in *.
        -- destruct IH as (before & now' & r & after & -> & Hp & Hafter).
           exists before, now', r, (after ++ [CallFetchPrice now response]).
           split; [by rewrite <- app_assoc |]. split; [exact Hp |].
           apply Forall_app. split; [exact Hafter | by repeat constructor].
        -- destruct IH as (before & after & -> & Hafter & Hbefore).
           exists before, (after ++ [CallFetchPrice now response]).
           split; [by rewrite <- app_assoc |]. split; [| exact Hbefore].
           apply Forall_app. split; [exact Hafter | by repeat constructor].
    + exists (cs ++ [CallSetAssetTo a']), []. split; [by rewrite app_nil_r |].
      split; [constructor |]. right. eauto.
Qed.
End PythFeedFacts.

(** X20. When [fetchPrice] gets no price, it answers with the price of the
    latest call that got one, with confidence 0, exponent -8 and the
    current time in seconds, provided no call set the asset since; it
    throws, with the error it met, exactly when no call got a price since
    the feed was made or its asset was set. *)
Theorem fallback_serves_last_fetched {ClientError : Type} (Number : string -> JS.number)
        (pow10 : JS.number -> JS.number) (a : GameSlice.AssetType)
        (cs : list (PythPriceFeed.Call ClientError)) (now : Z)
        (response : PythPriceFeed.Response ClientError)
        (failure : PythPriceFeed.Failure ClientError) :
  PythPriceFeed.first_price response = Err failure ->
  let f := PythPriceFeed.calls Number pow10 (PythPriceFeed.new a) cs in
  fst (PythPriceFeed.fetchPrice Number pow10 now response f) = f
  /\ match snd (PythPriceFeed.fetchPrice Number pow10 now response f) with
     | Ok data =>
         PythPriceFeed.confidence data = JS.of_Z 0
         /\ PythPriceFeed.expo data = JS.of_Z (-8)
         /\ PythPriceFeed.timestamp data = JS.div (JS.of_Z now) (JS.of_Z 1000)
         /\ last_price_source Number pow10 cs (Some (PythPriceFeed.price data))
     | Err e => e = failure /\ last_price_source Number pow10 cs None
     end.
Proof.
  intros Hfailed f. pose proof (lastPrice_source Number pow10 a cs) as Hsource.
  fold f in Hsource. unfold PythPriceFeed.fetchPrice. rewrite Hfailed.
  destruct (PythPriceFeed.lastPrice f) as [p |]; simpl; auto.
Qed.

(** X20, witness: Hermes answers once and is then unreachable. *)
Lemma fallback_serves_last_fetched_witness :
  exists data,
    snd (PythPriceFeed.fetchPrice read_decimal hundredth 1737748400000 hermes_down
           (PythPriceFeed.calls read_decimal hundredth (PythPriceFeed.new GameSlice.BTC)
              [PythPriceFeed.CallFetchPrice 1737748395000 hermes_answer]))
    = Ok data
    /\ PythPriceFeed.confidence data = JS.of_Z 0.
Proof.
  pose proof (fallback_serves_last_fetched read_decimal hundredth GameSlice.BTC
                [PythPriceFeed.CallFetchPrice 1737748395000%Z hermes_answer]
                1737748400000%Z hermes_down (PythPriceFeed.FromClient tt) eq_refl)
    as [_ H].
  destruct (snd _) as [data | e] eqn:E.
  - exists data. split; [reflexivity | by destruct H as (H & _)].
  - vm_compute in E. discriminate E.
Defined.


(** X21. [stop] does not cancel what is being awaited. Called while
    [start] still waits for its first price, it finds no timer to clear:
    the timer is installed when the price arrives, and the feed then goes on
    with one timer although [isRunning] is false. Called after the first
    price arrived, it leaves no timer. In both orders the callback gets the
    same prices. And a fetch that a timer began before [stop] still calls
    the callback when its price arrives after [stop]. *)
Theorem stop_does_not_cancel_awaited {ClientError : Type} (Number : string -> JS.number)
        (pow10 : JS.number -> JS.number) (f : PythPriceFeed.t) (now : Z)
        (response : PythPriceFeed.Response ClientError) :
  PythPriceFeed.isRunning f = false ->
  PythPriceFeed.intervalId f = false ->
  let early :=
    PythPriceFeed.run Number pow10 (PythPriceFeed.idle f)
      [PythPriceFeed.CallStart; PythPriceFeed.CallStop;
       PythPriceFeed.FirstPrice now response] in
  let late :=
    PythPriceFeed.run Number pow10 (PythPriceFeed.idle f)
      [PythPriceFeed.CallStart; PythPriceFeed.FirstPrice now response;
       PythPriceFeed.CallStop] in
  (PythPriceFeed.timers early = 1%nat
   /\ PythPriceFeed.intervalId (PythPriceFeed.feed early) = true
   /\ PythPriceFeed.isRunning (PythPriceFeed.feed early) = false)
  /\ (PythPriceFeed.timers late = 0%nat
      /\ PythPriceFeed.intervalId (PythPriceFeed.feed late) = false
      /\ PythPriceFeed.isRunning (PythPriceFeed.feed late) = false)
  /\ PythPriceFeed.delivered early = PythPriceFeed.delivered late
  /\ (forall (r : PythPriceFeed.Running) (p : JS.number),
         PythPriceFeed.in_flight r <> 0%nat ->
         fresh_price Number pow10 response = Some p ->
         PythPriceFeed.delivered
           (PythPriceFeed.run Number pow10 r
              [PythPriceFeed.CallStop; PythPriceFeed.TimerPrice now response])
         = p :: PythPriceFeed.delivered r).
Proof.
  intros Hrunning Hinterval early late. subst early late.
  unfold PythPriceFeed.run, PythPriceFeed.idle. simpl. rewrite Hrunning. simpl.
  unfold PythPriceFeed.fetch_and_call, PythPriceFeed.fetchPrice. simpl.
  split; [| split; [| split]].
  - destruct (PythPriceFeed.first_price response); simpl.
    + rewrite Hinterval. auto.
    + destruct (PythPriceFeed.lastPrice f); simpl; rewrite Hinterval; auto.
  - destruct (PythPriceFeed.first_price response); simpl; [auto |].
    destruct (PythPriceFeed.lastPrice f); simpl; auto.
  - destruct (PythPriceFeed.first_price response); simpl; [auto |].
    destruct (PythPriceFeed.lastPrice f); simpl; auto.
  - intros r p Hflight Hfresh. unfold fresh_price in Hfresh.
    destruct (PythPriceFeed.in_flight r) as [| awaited]; [congruence |].
    destruct (PythPriceFeed.first_price response) as [raw | e]; [| discriminate Hfresh].
    injection Hfresh as <-. reflexivity.
Qed.

(** X21, witness: a new feed for BTC, stopped before Hermes answered. *)
Lemma stop_does_not_cancel_awaited_witness :
  PythPriceFeed.timers
    (PythPriceFeed.run read_decimal hundredth
       (PythPriceFeed.idle (PythPriceFeed.new GameSlice.BTC))
       [PythPriceFeed.CallStart; PythPriceFeed.CallStop;
        PythPriceFeed.FirstPrice 1737748395000 hermes_answer])
  = 1%nat.
Proof.
  destruct (stop_does_not_cancel_awaited read_decimal hundredth
              (PythPriceFeed.new GameSlice.BTC) 1737748395000%Z hermes_answer
              eq_refl eq_refl) as ((H & _) & _).
  exact H.
Defined.


(** ** Starting and stopping the price feed *)

Section StarterFacts.
Import JS PriceFeedStarter.
Implicit Types (page : Page) (h c : nat).

Lemma deactivate_length c page : length (handles (deactivate c page)) = length (handles page).
Proof.
  unfold deactivate. destruct (handles page !! c); simpl; [apply length_insert | reflexivity].
Qed.

Lemma deactivate_logs c page :
  updates (deactivate c page) = updates page /\ started (deactivate c page) = started page
  /\ current (deactivate c page) = current page.
Proof. unfold deactivate. by destruct (handles page !! c). Qed.

Lemma deactivate_active c h page :
  active h (deactivate c page) = if Nat.eqb h c then false else active h page.
Proof.
  unfold deactivate, active. destruct (Nat.eqb h c) eqn:E.
  - apply Nat.eqb_eq in E as ->. destruct (handles page !! c) as [handle |] eqn:Hc; simpl.
    + rewrite list_lookup_insert_eq; [reflexivity |]. by eapply lookup_lt_Some.
    + by rewrite Hc.
  - apply Nat.eqb_neq in E. destruct (handles page !! c) as [handle |]; simpl; [| reflexivity].
    by rewrite list_lookup_insert_ne.
Qed.

Lemma deactivate_inactive c h page :
  active h page = false -> active h (deactivate c page) = false.
Proof. intros H. rewrite deactivate_active. by destruct (Nat.eqb h c). Qed.

(** A call that is no longer active stays so, and nothing is started or
    updated for it any more. *)
Lemma step_inactive page h (e : Event) :
  h < length (handles page) -> active h page = false ->
  h < length (handles (step page e))
  /\ active h (step page e) = false
  /\ updates_from h (step page e) = updates_from h page
  /\ started_for h (step page e) = started_for h page.
Proof.
  intros Hh Hoff. unfold updates_from, started_for.
  destruct e as [a | h' source | h' price | h']; simpl.
  - assert (Hlen : length (handles match current page with
                                    | Some c => deactivate c page
                                    | None => page
                                    end) = length (handles page))
      by (destruct (current page); [apply deactivate_length | reflexivity]).
    assert (Hstill : active h match current page with
                              | Some c => deactivate c page
                              | None => page
                              end = false)
      by (destruct (current page); [by apply deactivate_inactive | exact Hoff]).
    assert (Hlogs : updates match current page with
                            | Some c => deactivate c page
                            | None => page
                            end = updates page
                    /\ started match current page with
                               | Some c => deactivate c page
                               | None => page
                               end = started page)
      by (destruct (current page); [split; apply deactivate_logs | auto]).
    destruct Hlogs as [-> ->].
    split; [rewrite length_app, Hlen; lia |]. split; [| auto].
    unfold active in *. simpl. rewrite lookup_app_l by lia. exact Hstill.
  - destruct (handles page !! h') as [handle |] eqn:Hh'; [| auto].
    destruct (isActive handle) eqn:Hon; [| auto]. simpl.
    assert (Hne : h' <> h).
    { intros ->. unfold active in Hoff. rewrite Hh' in Hoff. congruence. }
    split; [by rewrite length_insert |]. split; [| split; [reflexivity |]].
    + unfold active in *. simpl. by rewrite list_lookup_insert_ne.
    + rewrite List.filter_app, map_app. simpl.
      apply Nat.eqb_neq in Hne. rewrite Hne. simpl. by rewrite app_nil_r.
  - destruct (handles page !! h') as [handle |] eqn:Hh'; [| auto].
    destruct (isActive handle) eqn:Hon; [| auto]. simpl.
    assert (Hne : h' <> h).
    { intros ->. unfold active in Hoff. rewrite Hh' in Hoff. congruence. }
    split; [exact Hh |]. split; [exact Hoff |]. split; [| reflexivity].
    rewrite List.filter_app, map_app. simpl.
    apply Nat.eqb_neq in Hne. rewrite Hne. simpl. by rewrite app_nil_r.
  - pose proof (deactivate_length h' page) as Hlen.
    pose proof (deactivate_inactive h' h page Hoff) as Hstill.
    destruct (deactivate_logs h' page) as (Hu & Hs & _).
    destruct (current (deactivate h' page)) as [c |]; [| rewrite Hu, Hs, Hlen; auto].
    destruct (AssetType_matches (deactivate h' page) c h'); simpl;
      rewrite Hu, Hs, Hlen; auto.
Qed.

Lemma run_inactive (events : list Event) page h :
  h < length (handles page) -> active h page = false ->
  active h (run page events) = false
  /\ updates_from h (run page events) = updates_from h page
  /\ started_for h (run page events) = started_for h page.
Proof.
  revert page. induction events as [| e events IH]; intros page Hh Hoff; simpl; [auto |].
  destruct (step_inactive page h e Hh Hoff) as (Hh' & Hoff' & Hu & Hs).
  destruct (IH _ Hh' Hoff') as (Hoff'' & Hu' & Hs'). split; [exact Hoff'' |].
  split; congruence.
Qed.

Lemma cleanup_inactive page h :
  active h (step page (Cleanup h)) = false
  /\ length (handles (step page (Cleanup h))) = length (handles page)
  /\ updates (step page (Cleanup h)) = updates page
  /\ started (step page (Cleanup h)) = started page.
Proof.
  simpl. pose proof (deactivate_active h h page) as Hoff. rewrite Nat.eqb_refl in Hoff.
  pose proof (deactivate_length h page) as Hlen.
  destruct (deactivate_logs h page) as (Hu & Hs & _).
  destruct (current (deactivate h page)) as [c |]; [| auto].
  destruct (AssetType_matches (deactivate h page) c h); auto.
Qed.
End StarterFacts.

(** X22. Once the cleanup function that [startPriceFeed] returned has run,
    that call never updates the price again and never starts a feed:
    whatever happens afterwards (the import resolving late, prices arriving
    from a feed that was not stopped in time, other feeds being started and
    cleaned up), no further price from it reaches [updatePrice]. *)
Theorem no_update_after_cleanup (page : PriceFeedStarter.Page) (h : nat)
        (events : list PriceFeedStarter.Event) :
  h < length (PriceFeedStarter.handles page) ->
  let later :=
    PriceFeedStarter.run (PriceFeedStarter.step page (PriceFeedStarter.Cleanup h)) events in
  PriceFeedStarter.active h later = false
  /\ PriceFeedStarter.updates_from h later = PriceFeedStarter.updates_from h page
  /\ PriceFeedStarter.started_for h later = PriceFeedStarter.started_for h page.
Proof.
  intros Hh later. subst later.
  destruct (cleanup_inactive page h) as (Hoff & Hlen & Hu & Hs).
  destruct (run_inactive events (PriceFeedStarter.step page (PriceFeedStarter.Cleanup h)) h)
    as (Hoff' & Hu' & Hs'); [lia | exact Hoff |].
  split; [exact Hoff' |]. unfold PriceFeedStarter.updates_from, PriceFeedStarter.started_for in *.
  rewrite Hu', Hs', Hu, Hs. auto.
Qed.

(** X22, witness: a feed for BTC is started and cleaned up before its
    import resolves; the import and a price arrive afterwards. *)
Lemma no_update_after_cleanup_witness :
  let page := PriceFeedStarter.step PriceFeedStarter.empty
                (PriceFeedStarter.Start GameSlice.BTC) in
  let later :=
    PriceFeedStarter.run (PriceFeedStarter.step page (PriceFeedStarter.Cleanup 0))
      [PriceFeedStarter.Imported 0 PriceFeedStarter.Pyth;
       PriceFeedStarter.Price 0 (JS.of_Z 50000)] in
  PriceFeedStarter.updates later = [] /\ PriceFeedStarter.started later = [].
Proof.
  intros page later.
  destruct (no_update_after_cleanup page 0
              [PriceFeedStarter.Imported 0 PriceFeedStarter.Pyth;
               PriceFeedStarter.Price 0 (JS.of_Z 50000)]) as (_ & _ & _).
  - vm_compute. lia.
  - split; reflexivity.
Defined.

Section StarterTraces.
Import JS PriceFeedStarter.

Lemma deactivate_last (l : list Handle) (a : GameSlice.AssetType) (on : bool) (c : option nat)
      (st : list (nat * Source)) (sp : list nat) (up : list (nat * number)) :
  deactivate (length l) (mkPage (l ++ [mkHandle a on None]) c st sp up)
  = mkPage (l ++ [mkHandle a false None]) c st sp up.
Proof.
  unfold deactivate. simpl. rewrite list_lookup_middle by reflexivity. simpl.
  f_equal. rewrite insert_app_r_alt by lia. by rewrite Nat.sub_diag.
Qed.

Lemma start_shape (page : Page) (a : GameSlice.AssetType) :
  exists l sp,
    length l = length (handles page)
    /\ step page (Start a)
       = mkPage (l ++ [mkHandle a true None]) (Some (length (handles page)))
                (started page) sp (updates page).
Proof.
  simpl. destruct (current page) as [c |].
  - exists (handles (deactivate c page)), (stopped (deactivate c page)).
    destruct (deactivate_logs c page) as (-> & -> & _).
    rewrite deactivate_length. auto.
  - eauto.
Qed.
End StarterTraces.

(** X23. [startPriceFeed] stops the feed the page refers to: after it, the
    call that was current is no longer active, and the new call is current
    and active. But the cleanup function removes the page's reference by
    asset, not by identity: run for an older call, it removes the reference
    to a newer call for the same asset, and the newer feed is then not
    stopped by the next [startPriceFeed], so that two calls are active and
    both update the price. *)
Theorem cleanup_clears_reference_by_asset (page : PriceFeedStarter.Page)
        (a b : GameSlice.AssetType) (p q : JS.number) :
  let n := length (PriceFeedStarter.handles page) in
  let twice :=
    PriceFeedStarter.run page [PriceFeedStarter.Start a; PriceFeedStarter.Start a] in
  let cleaned := PriceFeedStarter.step twice (PriceFeedStarter.Cleanup n) in
  let next := PriceFeedStarter.step cleaned (PriceFeedStarter.Start b) in
  let fed :=
    PriceFeedStarter.run next
      [PriceFeedStarter.Price (n + 1) p; PriceFeedStarter.Price (n + 2) q] in
  (PriceFeedStarter.active n twice = false
   /\ PriceFeedStarter.active (n + 1) twice = true
   /\ PriceFeedStarter.current twice = Some (n + 1))
  /\ PriceFeedStarter.current cleaned = None
  /\ (PriceFeedStarter.active (n + 1) next = true
      /\ PriceFeedStarter.active (n + 2) next = true)
  /\ PriceFeedStarter.updates fed
     = PriceFeedStarter.updates page ++ [(n + 1, p); (n + 2, q)].
Proof.
  intros n twice cleaned next fed.
  destruct (start_shape page a) as (l & sp & Hl & Hfirst). fold n in Hl, Hfirst.
  set (off := PriceFeedStarter.mkHandle a false None).
  set (on := PriceFeedStarter.mkHandle a true None).
  assert (Htwice : twice
                   = PriceFeedStarter.mkPage ((l ++ [off]) ++ [on]) (Some (n + 1))
                       (PriceFeedStarter.started page) sp (PriceFeedStarter.updates page)).
  { subst twice. unfold PriceFeedStarter.run. cbn [fold_left]. rewrite Hfirst.
    cbn [PriceFeedStarter.step PriceFeedStarter.current]. rewrite <- Hl.
    rewrite deactivate_last. simpl. rewrite length_app. simpl. reflexivity. }
  assert (Hn : ((l ++ [off]) ++ [on]) !! n = Some off).
  { rewrite lookup_app_l by (rewrite length_app; simpl; lia).
    by apply list_lookup_middle. }
  assert (Hn1 : ((l ++ [off]) ++ [on]) !! (n + 1) = Some on).
  { apply list_lookup_middle. rewrite length_app. simpl. lia. }
  assert (Hcleaned : cleaned
                     = PriceFeedStarter.mkPage ((l ++ [off]) ++ [on]) None
                         (PriceFeedStarter.started page) sp
                         (PriceFeedStarter.updates page)).
  { subst cleaned. rewrite Htwice.
    cbn [PriceFeedStarter.step]. unfold PriceFeedStarter.deactivate.
    cbn [PriceFeedStarter.handles]. rewrite Hn.
    assert (Hsame : <[n := PriceFeedStarter.mkHandle (PriceFeedStarter.asset off) false None]>
                      ((l ++ [off]) ++ [on]) = (l ++ [off]) ++ [on]).
    { apply list_insert_id. exact Hn. }
    rewrite Hsame. simpl. unfold PriceFeedStarter.AssetType_matches. simpl.
    rewrite Hn, Hn1. simpl. by destruct a. }
  assert (Hnext : next
                  = PriceFeedStarter.mkPage
                      (((l ++ [off]) ++ [on]) ++ [PriceFeedStarter.mkHandle b true None])
                      (Some (n + 2)) (PriceFeedStarter.started page) sp
                      (PriceFeedStarter.updates page)).
  { subst next. rewrite Hcleaned. simpl. rewrite !length_app. simpl.
    do 2 f_equal. lia. }
  assert (Hn1' : (((l ++ [off]) ++ [on]) ++ [PriceFeedStarter.mkHandle b true None])
                   !! (n + 1) = Some on).
  { rewrite lookup_app_l by (rewrite !length_app; simpl; lia). exact Hn1. }
  assert (Hn2 : (((l ++ [off]) ++ [on]) ++ [PriceFeedStarter.mkHandle b true None])
                  !! (n + 2) = Some (PriceFeedStarter.mkHandle b true None)).
  { apply list_lookup_middle. rewrite !length_app. simpl. lia. }
  split; [| split; [| split]].
  - rewrite Htwice. unfold PriceFeedStarter.active. simpl. by rewrite Hn, Hn1.
  - by rewrite Hcleaned.
  - rewrite Hnext. unfold PriceFeedStarter.active. simpl. by rewrite Hn1', Hn2.
  - subst fed. rewrite Hnext. unfold PriceFeedStarter.run. simpl.
    rewrite Hn1'. simpl. rewrite Hn2. simpl. by rewrite <- app_assoc.
Qed.


(** ** Invariants of the game store *)

Section StoreInvariant.
Import JS GameSlice.
Context {ActiveRound : Type}.
Implicit Types (s : GameState ActiveRound) (a : Action ActiveRound).

Lemma set_placing_invariant (placing : bool) (err : option string) s :
  store_invariant s -> store_invariant (set_placing placing err s).
Proof. by intros H. Qed.

Lemma set_activeBets_invariant (bets : list ActiveBet.t) s :
  store_invariant s -> store_invariant (set_activeBets bets s).
Proof. by intros H. Qed.

Lemma placeBetFromHouseBalance_invariant (w : World ActiveRound)
      (amount targetId userAddress : string) (cellId : option string) s :
  (forall s', store_invariant s' -> store_invariant (meanwhile w s')) ->
  store_invariant s ->
  store_invariant (store (placeBetFromHouseBalance w amount targetId userAddress cellId s)).
Proof.
  intros Hw Hs. unfold placeBetFromHouseBalance, place_bet_body.
  destruct (validate_amount amount) as [betAmount | message]; simpl; [| exact Hs].
  destruct (resolve_target _ targetId) as [target | message]; simpl; [| exact Hs].
  destruct (isDemoMode _); simpl; [exact Hs |].
  assert (Hduring : store_invariant (meanwhile w (set_placing true None s)))
    by (apply Hw, set_placing_invariant, Hs).
  destruct (fetch w _); simpl; exact Hduring.
Qed.

Lemma step_invariant s a :
  overlap_keeps_invariant a -> store_invariant s -> store_invariant (step s a).
Proof.
  intros Ha Hs.
  destruct a as [asset | amount targetId | w amount targetId userAddress cellId | bet
                | betId won payout | betId | now price | round | |]; simpl;
    try exact Hs.
  - unfold setSelectedAsset. destruct (negb _); [| exact Hs].
    destruct Hs as (Hcells & Hsettling & _). unfold store_invariant. simpl.
    repeat split; [exact Hcells | exact Hsettling | lia].
  - by apply placeBetFromHouseBalance_invariant.
  - destruct Hs as (Hcells & _ & Hlen & Hprice). by repeat split.
  - destruct Hs as (Hcells & Hsettling & _).
    destruct (updatePrice_always s now price) as (Hcurrent & Hlen & _ & Hlast).
    unfold store_invariant. rewrite Hlast. by repeat split.
  - destruct Hs as (_ & Hsettling & Hlen & Hprice). by repeat split.
Qed.
End StoreInvariant.

(** X24. Every store the slice's actions lead to from the initial store
    keeps the default target cells, is never settling, holds at most 300
    points of history, and shows as current price the price of the latest
    point of its history (0 while the history is empty, as after a change of
    asset). The predefined targets a bet can name are therefore always the
    cells "1" to "8". *)
Theorem store_invariant_always {ActiveRound : Type}
        (actions : list (GameSlice.Action ActiveRound)) :
  Forall overlap_keeps_invariant actions ->
  let s := fold_left GameSlice.step actions GameSlice.initial in
  store_invariant s
  /\ (forall targetId target,
         GameSlice.is_dynamic targetId = false ->
         GameSlice.resolve_target (GameSlice.targetCells s) targetId = Ok target ->
         In targetId ["1"; "2"; "3"; "4"; "5"; "6"; "7"; "8"]).
Proof.
  intros Hactions s.
  assert (Hinv : store_invariant s).
  { subst s.
    assert (Hgen : forall s0 : GameSlice.GameState ActiveRound,
               store_invariant s0 -> store_invariant (fold_left GameSlice.step actions s0)).
    { induction Hactions as [| a actions Ha _ IH]; intros s0 Hs0; simpl; [exact Hs0 |].
      by apply IH, step_invariant. }
    apply Hgen. unfold store_invariant. simpl. repeat split. lia. }
  split; [exact Hinv |]. intros targetId target Hdyn.
  destruct Hinv as (-> & _). unfold GameSlice.resolve_target. rewrite Hdyn.
  unfold GameSlice.find_cell, GameSlice.DEFAULT_TARGET_CELLS. cbn -[String.eqb In].
  repeat match goal with
         | |- context [String.eqb ?x targetId] =>
             let E := fresh "E" in
             destruct (String.eqb x targetId) eqn:E;
             [apply String.eqb_eq in E; subst targetId; intros _; simpl; tauto |]
         end.
  discriminate.
Qed.

(** X24, witness: a price update, a change of asset and a bet placed in
    demo mode. *)
Lemma store_invariant_always_witness :
  store_invariant
    (fold_left GameSlice.step
       [GameSlice.UpdatePrice 1000 (JS.of_Z 50000);
        GameSlice.SetSelectedAsset GameSlice.SUI;
        GameSlice.PlaceBetFromHouseBalance offline_world "25" "2" "0xDEMO1" None]
       GameSlice.initial).
Proof.
  apply (store_invariant_always
           [GameSlice.UpdatePrice 1000 (JS.of_Z 50000);
            GameSlice.SetSelectedAsset GameSlice.SUI;
            GameSlice.PlaceBetFromHouseBalance offline_world "25" "2" "0xDEMO1" None]).
  constructor; [exact I |]. constructor; [exact I |]. constructor; [| constructor].
  intros st Hst. exact Hst.
Defined.

(** X25. A quick-select button that is enabled always selects an amount
    [validateAmount] accepts: each of the amounts 1, 5, 10 and 25 is
    offered only while the wallet's balance is not below it, and the digits
    the button writes into the field parse back to the amount. *)
Theorem quick_select_is_valid (quickAmount : Z) (st : DepositModal.State) :
  In quickAmount DepositModal.quickAmounts ->
  DepositModal.quickSelectDisabled quickAmount st = false ->
  let st' := DepositModal.handleQuickSelect quickAmount st in
  JS.parseFloat (DepositModal.amount st') = JS.of_Z quickAmount
  /\ DepositModal.validateAmount (DepositModal.usdcBalance st') (DepositModal.amount st')
     = None
  /\ DepositModal.depositDisabled st' = false
  /\ DepositModal.error st' = None.
Proof.
  intros Hquick Henabled st'. subst st'.
  unfold DepositModal.quickSelectDisabled in Henabled.
  apply orb_false_iff in Henabled as [Hloading Hbalance].
  unfold DepositModal.handleQuickSelect, DepositModal.depositDisabled. simpl.
  rewrite Hloading.
  assert (Hcases : quickAmount = 1%Z \/ quickAmount = 5%Z \/ quickAmount = 10%Z
                   \/ quickAmount = 25%Z).
  { unfold DepositModal.quickAmounts in Hquick. simpl in Hquick. intuition. }
  destruct Hcases as [-> | [-> | [-> | ->]]];
    (split; [vm_compute; reflexivity |]);
    (split; [| split; [vm_compute; reflexivity | reflexivity]]);
    unfold DepositModal.validateAmount;
    match goal with
    | |- context [JS.parseFloat ?digits] =>
        let v := eval vm_compute in (JS.parseFloat digits) in
        change (JS.parseFloat digits) with v
    end;
    match goal with
    | H : JS.ltb _ ?q = false |- _ =>
        let v := eval vm_compute in q in change q with v in H
    end;
    cbn -[JS.ltb]; rewrite Hbalance; reflexivity.
Qed.

(** X25, witness: the button "5" with a balance of 10. *)
Lemma quick_select_is_valid_witness :
  DepositModal.validateAmount (JS.of_Z 10)
    (DepositModal.amount (DepositModal.handleQuickSelect 5 (modal_with "" 10)))
  = None.
Proof.
  destruct (quick_select_is_valid 5 (modal_with "" 10)) as (_ & H & _).
  - right. by left.
  - vm_compute. reflexivity.
  - exact H.
Defined.
